(** * TravoMate: the budget extraction and reconciliation engine of [app.py]

    A shallow embedding of [extract_budget_from_response] (app.py, lines
    15-96) and of the manual budget form (app.py, lines 560-574), and the
    properties the specification states about them; then of the page around
    them: the chat turn and the runs of the script (lines 439-453 and
    481-578), the card of the sidebar (lines 582-616) and
    [create_budget_visualization] (lines 98-153), with the properties the
    code has of its own.

    The embedding follows the Python source construct by construct:
    - Python [int] is [Z] (unbounded);
    - Python [float] is IEEE 754 binary64, modelled by the Standard
      Library's [spec_float] with [prec = 53] and [emax = 1024]; every
      rounding the source performs is performed here;
    - Python [str] is a list of Unicode code points; what the source takes
      from the Unicode database ([str.lower], the whitespace class, the
      decimal digits) is a parameter of the development, and the sample
      conversations use its Basic Latin part;
    - a [dict] is an association list in insertion order;
    - an exception is a value [Raise e] of the result type;
    - the interpreter is CPython 3.11 or later with its defaults: [int] of a
      string of more than 4300 digits, and the decimal form of an int of
      more than 4300 digits, are a [ValueError]. *)

From Stdlib Require Import ZArith NArith List String Ascii Bool Lia Sorted Permutation.
From Stdlib Require Import Floats.SpecFloat.
Import ListNotations.
Local Open Scope Z_scope.

(** ** Exceptions *)

Inductive exn : Type :=
  | ValueError
  | OverflowError
  | ZeroDivisionError
  | AttributeError.

Inductive result (A : Type) : Type :=
  | Ok (a : A)
  | Raise (e : exn).
Arguments Ok {A} a.
Arguments Raise {A} e.

Definition bind {A B : Type} (c : result A) (f : A -> result B) : result B :=
  match c with
  | Ok a => f a
  | Raise e => Raise e
  end.

Declare Scope py_scope.
Delimit Scope py_scope with py.
Notation "x <- c ;; k" := (bind c (fun x => k))
  (at level 61, c at next level, right associativity) : py_scope.
Local Open Scope py_scope.

(** ** Python numbers *)

Module Num.

(** binary64 *)
Definition prec : Z := 53.
Definition emax : Z := 1024.
Definition float : Type := spec_float.

(** The float nearest to [m * 2^e] (ties to even), an infinity when that
    is out of range. *)
Definition round_int (m : Z) : float := binary_normalize prec emax m 0 false.

(** [float(n)] for an int [n]: correctly rounded, and
    [OverflowError: int too large to convert to float] out of range. *)
Definition float_of_int (n : Z) : result float :=
  match round_int n with
  | S754_infinity _ => Raise OverflowError
  | f => Ok f
  end.

(** The float nearest to the quotient [a / b] of two ints, [b <> 0]. *)
Definition round_quotient (a b : Z) : float :=
  let '(q, e, l) := SFdiv_core_binary prec emax (Z.abs a) 0 (Z.abs b) 0 in
  binary_round_aux prec emax (xorb (a <? 0) (b <? 0)) q e l.

(** [a / b] on two ints (true division): the correctly rounded quotient. *)
Definition true_divide (a b : Z) : result float :=
  if b =? 0 then Raise ZeroDivisionError
  else match round_quotient a b with
       | S754_infinity _ => Raise OverflowError
       | f => Ok f
       end.

(** A decimal literal [0.d1d2] of the source, written as [num / den]: the
    nearest float. *)
Definition literal (num den : Z) : float := round_quotient num den.

(** [n * x] for an int [n] and a float [x]: [n] is converted first. *)
Definition int_mul_float (n : Z) (x : float) : result float :=
  f <- float_of_int n ;; Ok (SFmul prec emax f x).

(** [int(x)]: truncation towards zero. *)
Definition int_of_float (x : float) : result Z :=
  match x with
  | S754_zero _ => Ok 0
  | S754_finite s m e => Ok (cond_Zopp s (Z.shiftl (Zpos m) e))
  | S754_infinity _ => Raise OverflowError
  | S754_nan => Raise ValueError
  end.

(** [n > x] for an int [n] and a float [x]: Python compares the two
    exactly, without converting [n]. *)
Definition int_gt_float (n : Z) (x : float) : bool :=
  match x with
  | S754_zero _ => 0 <? n
  | S754_finite s m e =>
      if 0 <=? e then cond_Zopp s (Z.shiftl (Zpos m) e) <? n
      else cond_Zopp s (Zpos m) <? Z.shiftl n (- e)
  | S754_infinity s => s
  | S754_nan => false
  end.

End Num.

(** ** Python strings *)

(** A character is its Unicode code point; the rupee sign is U+20B9. *)
Definition char : Type := N.
Definition text : Type := list char.

Definition rupee : char := 8377%N.

(** A literal of the source made of ASCII characters. *)
Fixpoint lit (s : string) : text :=
  match s with
  | EmptyString => []
  | String a s' => N_of_ascii a :: lit s'
  end.

(** ** Decimal strings and the limit on their length

    CPython refuses the conversions between an int and a decimal string of
    more than [sys.int_info.default_max_str_digits] digits, in both
    directions, with a [ValueError]; the source does not change the
    default. The digits are counted, not the sign or the commas. *)
Definition max_str_digits : Z := 4300.

Definition digit_char (d : Z) : char := (48 + Z.to_N d)%N.

(** The decimal digits of [n], in front of [acc]. *)
Fixpoint decimal_digits (fuel : nat) (n : Z) (acc : text) : text :=
  match fuel with
  | O => acc
  | S fuel' =>
      let acc' := digit_char (n mod 10) :: acc in
      if n <? 10 then acc' else decimal_digits fuel' (n / 10) acc'
  end.

(** The decimal digits of [n], not negative; [n] has no more decimal digits
    than binary ones. *)
Definition str_of_nat (n : Z) : text :=
  decimal_digits (S (Z.to_nat (Z.log2 n))) n [].

(** A comma after every digit that has a multiple of three digits behind it. *)
Fixpoint group_thousands (digits : text) : text :=
  match digits with
  | [] => []
  | d :: digits' =>
      d :: match digits' with
           | [] => []
           | _ :: _ =>
               if (List.length digits' mod 3 =? 0)%nat
               then 44%N :: group_thousands digits'
               else group_thousands digits'
           end
  end.

(** [f'{n:,}'] and ['{:,}'.format(n)] for an int [n]. *)
Definition format_thousands (n : Z) : result text :=
  let digits := str_of_nat (Z.abs n) in
  if max_str_digits <? Z.of_nat (List.length digits) then Raise ValueError
  else Ok (if n <? 0 then 45%N :: group_thousands digits else group_thousands digits).

(** [f'₹{amount:,}'] *)
Definition rupees (amount : Z) : result text :=
  printed <- format_thousands amount ;; Ok (rupee :: printed).

(** What the source takes from Python's Unicode database: [str.lower], the
    class of whitespace of the [re] module and the decimal value of a character, which
    gives both the class of digits and the digits [int] reads. The comma
    (U+002C) is not a decimal digit. *)
Class UnicodeData : Type := {
  str_lower : text -> text;
  isspace : char -> bool;
  decimal : char -> option N;
  comma_not_decimal : decimal 44%N = None
}.

(** ** The [re] module: a backtracking matcher *)

Module Re.

Inductive regex : Type :=
  | Eps
  | Chr (c : char)
  | Cls (p : char -> bool)
  | Seq (r1 r2 : regex)
  | Alt (r1 r2 : regex)
  | Star (r : regex)
  | Group (r : regex).

(** [r?], [r+] and a literal string *)
Definition Opt (r : regex) : regex := Alt r Eps.
Definition Plus (r : regex) : regex := Seq r (Star r).
Fixpoint Str (s : string) : regex :=
  match s with
  | EmptyString => Eps
  | String a s' => Seq (Chr (N_of_ascii a)) (Str s')
  end.

Section Matcher.
Context {R : Type}.

(** [exec r s g k] matches [r] at the head of [s], with [g] the text held by
    group 1 so far, and hands what is left of [s] to the continuation [k];
    when [k] fails the matcher backtracks. Alternatives are tried in order
    and [Star] is greedy. *)
Fixpoint exec (r : regex) (s : text) (g : option text)
    (k : text -> option text -> option R) {struct r} : option R :=
  match r with
  | Eps => k s g
  | Chr c =>
      match s with
      | x :: s' => if N.eqb x c then k s' g else None
      | [] => None
      end
  | Cls p =>
      match s with
      | x :: s' => if p x then k s' g else None
      | [] => None
      end
  | Seq r1 r2 => exec r1 s g (fun s1 g1 => exec r2 s1 g1 k)
  | Alt r1 r2 =>
      match exec r1 s g k with
      | Some x => Some x
      | None => exec r2 s g k
      end
  | Star r1 =>
      (fix loop (n : nat) (s : text) (g : option text) {struct n} : option R :=
         match n with
         | O => k s g
         | S n' =>
             match exec r1 s g (fun s1 g1 =>
                     if (List.length s1 <? List.length s)%nat then loop n' s1 g1
                     else None) with
             | Some x => Some x
             | None => k s g
             end
         end) (List.length s) s g
  | Group r1 =>
      exec r1 s g (fun s1 _ =>
        k s1 (Some (firstn (List.length s - List.length s1) s)))
  end.
End Matcher.

(** A match object: [group(1)] and the text after the match. *)
Record match_object : Type := {
  group1 : option text;
  rest : text
}.

Definition match_at (r : regex) (s : text) : option match_object :=
  exec r s None (fun s' g => Some {| group1 := g; rest := s' |}).

(** [re.search]: the first position at which the pattern matches. *)
Fixpoint search (r : regex) (s : text) : option match_object :=
  match match_at r s with
  | Some m => Some m
  | None =>
      match s with
      | [] => None
      | _ :: s' => search r s'
      end
  end.

(** [re.finditer]: the successive non-overlapping matches, left to right.
    Every pattern of the source asks for a digit, so a match is never empty;
    after an empty match the scan moves on by one character. *)
Fixpoint finditer_from (fuel : nat) (r : regex) (s : text) : list match_object :=
  match fuel with
  | O => []
  | S fuel' =>
      match search r s with
      | None => []
      | Some m =>
          m :: (if (List.length (rest m) <? List.length s)%nat
                then finditer_from fuel' r (rest m)
                else finditer_from fuel' r (tl s))
      end
  end.

Definition finditer (r : regex) (s : text) : list match_object :=
  finditer_from (S (List.length s)) r s.

End Re.

(** ** The patterns of [extract_budget_from_response] *)

Section Extract.
Context {U : UnicodeData}.
Import Re.

Definition isdigit (c : char) : bool :=
  match decimal c with Some _ => true | None => false end.

Definition comma : char := 44%N.

(** The classes \d, \s and [:\s-] *)
Definition digit : regex := Cls isdigit.
Definition space : regex := Cls isspace.
Definition sep : regex :=
  Cls (fun c => N.eqb c 58 || isspace c || N.eqb c 45).

(** The group ( \d+ (?: , \d+ )* ); here and below a pattern of the source
    is quoted with spaces between its tokens. *)
Definition number : regex :=
  Group (Seq (Plus digit) (Star (Seq (Chr comma) (Plus digit)))).

Definition seqs (rs : list regex) : regex := fold_right Seq Eps rs.
Definition alts (r : regex) (rs : list regex) : regex := fold_left Alt rs r.

(** (?: for | per | \/ ) *)
Definition for_per : regex := alts (Str "for") [Str "per"; Str "/"].

(** KEYWORD [:\s-]* ₹? \s* ( \d+ (?: , \d+ )* ) *)
Definition keyword_then_amount (kw : regex) : regex :=
  seqs [kw; Star sep; Opt (Chr rupee); Star space; number].

(** ₹ \s* ( \d+ (?: , \d+ )* ) \s* (?: for | per | \/ ) \s* KEYWORD *)
Definition amount_for (kw : regex) : regex :=
  seqs [Chr rupee; Star space; number; Star space; for_per; Star space; kw].

(** ₹ \s* ( \d+ (?: , \d+ )* ) \s* (?: \( )? KEYWORD *)
Definition amount_paren (kw : regex) : regex :=
  seqs [Chr rupee; Star space; number; Star space; Opt (Str "("); kw].

Inductive category : Type :=
  | accommodation
  | transport
  | food
  | activities
  | miscellaneous.

Definition patterns : list (category * list regex) :=
  [ (accommodation,
      [ keyword_then_amount (Str "accommodation");
        amount_for (Str "accommodation") ]);
    (transport,
      [ keyword_then_amount (Seq (Str "transport") (Opt (Str "ation")));
        amount_paren (alts (Str "bike") [Str "car"; Str "train"; Str "bus"; Str "flight"]) ]);
    (food,
      [ keyword_then_amount (Str "food");
        amount_for (Str "food") ]);
    (activities,
      [ keyword_then_amount (Seq (Opt (Str "sightseeing and ")) (Str "activities"));
        amount_paren (alts (Str "entrance") [Str "water sports"; Str "sightseeing"]) ]);
    (miscellaneous,
      [ keyword_then_amount (alts (Str "miscellaneous") [Str "misc"; Str "other"]);
        amount_for (alts (Str "misc") [Str "other"]) ]) ].

(** ₹ \s* ( \d+ (?: , \d+ )* ), searched in the user input *)
Definition user_budget_pattern : regex := seqs [Chr rupee; Star space; number].

(** ** Reading an amount *)

(** [int(t)] for a string of decimal digits, the only strings the source
    converts; anything else is a [ValueError], and so is a string of more
    than [max_str_digits] digits, leading zeros counted. *)
Fixpoint digits_value (acc : Z) (t : text) : result Z :=
  match t with
  | [] => Ok acc
  | c :: t' =>
      match decimal c with
      | Some v => digits_value (10 * acc + Z.of_N v) t'
      | None => Raise ValueError
      end
  end.

Definition int_of_str (t : text) : result Z :=
  match t with
  | [] => Raise ValueError
  | _ =>
      if max_str_digits <? Z.of_nat (List.length t) then Raise ValueError
      else digits_value 0 t
  end.

(** [t.replace(',', '')] *)
Definition remove_commas (t : text) : text :=
  filter (fun c => negb (N.eqb c comma)) t.

(** [int(match.group(1).replace(',', ''))] *)
Definition amount_of_match (m : match_object) : result Z :=
  match group1 m with
  | Some g => int_of_str (remove_commas g)
  | None => Raise AttributeError
  end.

(** ** Dictionaries keyed by category, in insertion order *)

Definition category_eqb (a b : category) : bool :=
  match a, b with
  | accommodation, accommodation
  | transport, transport
  | food, food
  | activities, activities
  | miscellaneous, miscellaneous => true
  | _, _ => false
  end.

Definition dict : Type := list (category * Z).

Fixpoint dict_get (d : dict) (k : category) : option Z :=
  match d with
  | [] => None
  | (k', v) :: d' => if category_eqb k k' then Some v else dict_get d' k
  end.

(** [d[k] = v]: an existing key keeps its place, a new key goes last. *)
Fixpoint dict_set (d : dict) (k : category) (v : Z) : dict :=
  match d with
  | [] => [(k, v)]
  | (k', v') :: d' =>
      if category_eqb k k' then (k', v) :: d' else (k', v') :: dict_set d' k v
  end.

Definition values (d : dict) : list Z := map snd d.
Definition keys (d : dict) : list category := map fst d.

(** [sum(xs)] *)
Definition sum (xs : list Z) : Z := fold_left Z.add xs 0.

(** ** [extract_budget_from_response] *)

(** Lines 20-23: the first rupee amount of the user's input. *)
Definition user_budget (user_input : text) : result (option Z) :=
  match search user_budget_pattern user_input with
  | Some m => n <- amount_of_match m ;; Ok (Some n)
  | None => Ok None
  end.

(** Lines 57-59: the body of the innermost loop. *)
Definition record_amount (c : category) (amount : Z) (breakdown : dict) : dict :=
  if 500 <=? amount then
    match dict_get breakdown c with
    | None => dict_set breakdown c amount
    | Some held => if held <? amount then dict_set breakdown c amount else breakdown
    end
  else breakdown.

(** Lines 54-59: [for match in matches] *)
Fixpoint for_matches (c : category) (matches : list match_object)
    (breakdown : dict) : result dict :=
  match matches with
  | [] => Ok breakdown
  | m :: matches' =>
      amount <- amount_of_match m ;;
      for_matches c matches' (record_amount c amount breakdown)
  end.

(** Lines 52-59: [for pattern in pattern_list] *)
Fixpoint for_patterns (c : category) (pattern_list : list regex)
    (lowered : text) (breakdown : dict) : result dict :=
  match pattern_list with
  | [] => Ok breakdown
  | pattern :: pattern_list' =>
      b <- for_matches c (finditer pattern lowered) breakdown ;;
      for_patterns c pattern_list' lowered b
  end.

(** Lines 51-59: [for category, pattern_list in patterns.items()] *)
Fixpoint for_categories (items : list (category * list regex))
    (lowered : text) (breakdown : dict) : result dict :=
  match items with
  | [] => Ok breakdown
  | (c, pattern_list) :: items' =>
      b <- for_patterns c pattern_list lowered breakdown ;;
      for_categories items' lowered b
  end.

(** Lines 50-59 *)
Definition response_breakdown (response_text : text) : result dict :=
  for_categories patterns (str_lower response_text) [].

Inductive provenance : Type :=
  | specific
  | scaled
  | estimated.

(** [int(n * x)] *)
Definition int_of_product (n : Z) (x : Num.float) : result Z :=
  p <- Num.int_mul_float n x ;; Num.int_of_float p.

(** Lines 72-75: the comprehension that scales every amount. *)
Fixpoint scale_breakdown (breakdown : dict) (scale_factor : Num.float) : result dict :=
  match breakdown with
  | [] => Ok []
  | (c, amount) :: breakdown' =>
      v <- int_of_product amount scale_factor ;;
      scaled_rest <- scale_breakdown breakdown' scale_factor ;;
      Ok ((c, v) :: scaled_rest)
  end.

(** Line 69: [abs(response_total - user_budget) > user_budget * 0.1] *)
Definition differs_significantly (response_total budget : Z) : result bool :=
  tenth <- Num.int_mul_float budget (Num.literal 1 10) ;;
  Ok (Num.int_gt_float (Z.abs (response_total - budget)) tenth).

(** Lines 82-88: the dictionary of fixed shares. *)
Definition estimated_breakdown (budget : Z) : result dict :=
  a <- int_of_product budget (Num.literal 35 100) ;;
  t <- int_of_product budget (Num.literal 25 100) ;;
  f <- int_of_product budget (Num.literal 20 100) ;;
  v <- int_of_product budget (Num.literal 15 100) ;;
  m <- int_of_product budget (Num.literal 5 100) ;;
  Ok [ (accommodation, a); (transport, t); (food, f);
       (activities, v); (miscellaneous, m) ].

(** The truth value of [user_budget]: [None] and [0] are false. *)
Definition stated (budget : option Z) : option Z :=
  match budget with
  | Some n => if n =? 0 then None else Some n
  | None => None
  end.

(** What the function returns: [Some (budget_data, total, budget_type)], or
    [None] for the triple [(None, None, None)]. *)
Definition extraction : Type := option (dict * Z * provenance).

(** Lines 61-96, on the user's budget and the breakdown found in the reply. *)
Definition reconcile (budget : option Z) (breakdown : dict) : result extraction :=
  match stated budget with
  | Some budget =>
      match breakdown with
      | _ :: _ =>
          let response_total := sum (values breakdown) in
          far <- differs_significantly response_total budget ;;
          if far then
            scale_factor <- Num.true_divide budget response_total ;;
            budget_data <- scale_breakdown breakdown scale_factor ;;
            Ok (Some (budget_data, budget, scaled))
          else
            Ok (Some (breakdown, response_total, specific))
      | [] =>
          budget_data <- estimated_breakdown budget ;;
          Ok (Some (budget_data, budget, estimated))
      end
  | None =>
      match breakdown with
      | _ :: _ => Ok (Some (breakdown, sum (values breakdown), specific))
      | [] => Ok None
      end
  end.

Definition extract_budget_from_response (response_text user_input : text)
    : result extraction :=
  budget <- user_budget user_input ;;
  breakdown <- response_breakdown response_text ;;
  reconcile budget breakdown.

End Extract.

(** ** The Basic Latin part of the Unicode database

    On a text made of ASCII characters and rupee signs, [str.lower], the
    whitespace class and the decimal digits are the following. *)

Definition ascii_lower (c : char) : char :=
  if ((65 <=? c) && (c <=? 90))%N then (c + 32)%N else c.

Definition ascii_isspace (c : char) : bool :=
  (((9 <=? c) && (c <=? 13)) || ((28 <=? c) && (c <=? 32)))%N.

Definition ascii_decimal (c : char) : option N :=
  if ((48 <=? c) && (c <=? 57))%N then Some (c - 48)%N else None.

Definition basic_latin : UnicodeData :=
  {| str_lower := map ascii_lower;
     isspace := ascii_isspace;
     decimal := ascii_decimal;
     comma_not_decimal := eq_refl |}.


(** ** The manual budget form (app.py, lines 560-574) *)

(** The three session variables the budget code touches. *)
Record session_state : Type := {
  latest_budget : option dict;
  budget_total : option Z;
  show_budget_input : bool
}.

(** What the page draws for a budget: the notice chosen by [budget_type]
    (lines 504-509) and the two figures of [create_budget_visualization]
    (line 513). *)
Inductive widget : Type :=
  | notice (budget_type : provenance)
  | figures (budget_data : dict).

(** The new session, what is drawn, and whether [st.rerun()] is called. *)
Definition outcome : Type := session_state * list widget * bool.

(** Lines 561-569: the five inputs, without the entries that are not positive. *)
Definition manual_entries (accommodation_in transport_in food_in activities_in misc_in : Z) : dict :=
  [ (accommodation, accommodation_in); (transport, transport_in); (food, food_in);
    (activities, activities_in); (miscellaneous, misc_in) ].

Definition manual_budget (accommodation_in transport_in food_in activities_in misc_in : Z) : dict :=
  filter (fun kv => 0 <? snd kv)
    (manual_entries accommodation_in transport_in food_in activities_in misc_in).

(** Lines 560-574: the button of the form. *)
Definition generate_visualization (st : session_state)
    (accommodation_in transport_in food_in activities_in misc_in : Z) : outcome :=
  let budget :=
    manual_budget accommodation_in transport_in food_in activities_in misc_in in
  match budget with
  | _ :: _ =>
      ({| latest_budget := Some budget;
          budget_total := budget_total st;
          show_budget_input := false |},
       [], true)
  | [] => (st, [], false)
  end.

(** * Properties *)

(** ** The matcher is sound for the declarative meaning of a pattern *)

Module ReFacts.
Import Re.

(** [Matches r p g g']: [r] matches exactly the text [p] and takes the content
    of group 1 from [g] to [g']. *)
Inductive Matches : regex -> text -> option text -> option text -> Prop :=
  | MEps g : Matches Eps [] g g
  | MChr c g : Matches (Chr c) [c] g g
  | MCls (p : char -> bool) c g : p c = true -> Matches (Cls p) [c] g g
  | MSeq r1 r2 p1 p2 g g1 g2 :
      Matches r1 p1 g g1 -> Matches r2 p2 g1 g2 ->
      Matches (Seq r1 r2) (p1 ++ p2) g g2
  | MAltL r1 r2 p g g' : Matches r1 p g g' -> Matches (Alt r1 r2) p g g'
  | MAltR r1 r2 p g g' : Matches r2 p g g' -> Matches (Alt r1 r2) p g g'
  | MStar0 r g : Matches (Star r) [] g g
  | MStarS r p1 p2 g g1 g2 :
      Matches r p1 g g1 -> Matches (Star r) p2 g1 g2 ->
      Matches (Star r) (p1 ++ p2) g g2
  | MGroup r p g g1 : Matches r p g g1 -> Matches (Group r) p g (Some p).

Lemma firstn_consumed (p s' : text) :
  firstn (List.length (p ++ s') - List.length s') (p ++ s') = p.
Proof.
  rewrite length_app, Nat.add_sub.
  rewrite firstn_app, Nat.sub_diag, firstn_all. simpl. apply app_nil_r.
Qed.

Lemma exec_sound (R : Type) (r : regex) :
  forall (s : text) (g : option text) (k : text -> option text -> option R) (x : R),
    exec r s g k = Some x ->
    exists p s' g', s = p ++ s' /\ Matches r p g g' /\ k s' g' = Some x.
Proof.
  induction r as [ | c | cp | r1 IH1 r2 IH2 | r1 IH1 r2 IH2 | r1 IH1 | r1 IH1 ];
    intros s g k x H; cbn [exec] in H.
  - exists [], s, g. repeat split; [constructor | assumption].
  - destruct s as [ | a s' ]; [discriminate | ].
    destruct (N.eqb_spec a c) as [-> | ]; [ | discriminate ].
    exists [c], s', g. repeat split; [constructor | assumption].
  - destruct s as [ | a s' ]; [discriminate | ].
    destruct (cp a) eqn:E; [ | discriminate ].
    exists [a], s', g. repeat split; [constructor; assumption | assumption].
  - apply IH1 in H. destruct H as (p1 & s1 & g1 & -> & M1 & H).
    apply IH2 in H. destruct H as (p2 & s2 & g2 & -> & M2 & H).
    exists (p1 ++ p2), s2, g2. rewrite app_assoc.
    repeat split; [econstructor; eassumption | assumption].
  - destruct (exec r1 s g k) eqn:E.
    + injection H as ->. apply IH1 in E.
      destruct E as (p & s' & g' & -> & M & E).
      exists p, s', g'. repeat split; [apply MAltL; assumption | assumption].
    + apply IH2 in H. destruct H as (p & s' & g' & -> & M & H).
      exists p, s', g'. repeat split; [apply MAltR; assumption | assumption].
  - remember (List.length s) as n eqn:En in H. clear En. revert s g H.
    induction n as [ | n IHn ]; intros s g H.
    + exists [], s, g. repeat split; [constructor | assumption].
    + match type of H with
      | match ?e with _ => _ end = _ => destruct e eqn:E
      end.
      * injection H as ->. apply IH1 in E.
        destruct E as (p1 & s1 & g1 & -> & M1 & E).
        destruct (List.length s1 <? List.length (p1 ++ s1))%nat; [ | discriminate ].
        apply IHn in E. destruct E as (p2 & s2 & g2 & -> & M2 & E).
        exists (p1 ++ p2), s2, g2. rewrite app_assoc.
        repeat split; [econstructor; eassumption | assumption].
      * exists [], s, g. repeat split; [constructor | assumption].
  - apply IH1 in H. destruct H as (p & s' & g' & -> & M & H).
    rewrite firstn_consumed in H.
    exists p, s', (Some p). repeat split; [econstructor; eassumption | assumption].
Qed.

End ReFacts.

(** ** Every match of a pattern of the source carries a readable amount *)

Section Amounts.
Context {U : UnicodeData}.
Import Re ReFacts.

(** A digit followed by digits and commas: what group 1 can hold. *)
Definition numeric (t : text) : Prop :=
  exists c t', t = c :: t' /\ isdigit c = true
    /\ Forall (fun x => isdigit x = true \/ x = comma) t'.

Fixpoint chars_in (P : char -> Prop) (r : regex) : Prop :=
  match r with
  | Eps => True
  | Chr c => P c
  | Cls cp => forall x, cp x = true -> P x
  | Seq r1 r2 | Alt r1 r2 => chars_in P r1 /\ chars_in P r2
  | Star r1 | Group r1 => chars_in P r1
  end.

Lemma matches_chars (P : char -> Prop) r p g g' :
  Matches r p g g' -> chars_in P r -> Forall P p.
Proof.
  induction 1; cbn [chars_in]; intros C.
  - constructor.
  - repeat constructor; assumption.
  - repeat constructor; auto.
  - apply Forall_app; split; [apply IHMatches1 | apply IHMatches2]; apply C.
  - apply IHMatches, C.
  - apply IHMatches, C.
  - constructor.
  - apply Forall_app; split; [apply IHMatches1 | apply IHMatches2]; assumption.
  - apply IHMatches, C.
Qed.

Lemma number_matches p g g' :
  Matches number p g g' -> g' = Some p /\ numeric p.
Proof.
  unfold number. intros M. inversion M as [ | | | | | | | | r0 p0 g0 g1 M0 ]; subst.
  split; [reflexivity | ].
  assert (A : Forall (fun x => isdigit x = true \/ x = comma) p).
  { eapply matches_chars; [exact M0 | ]. cbn.
    repeat split; intros; auto. }
  inversion M0 as [ | | | r1 r2 p1 p2 ga gb gc M1 M2 | | | | | ]; subst.
  inversion M1 as [ | | | r1 r2 q1 q2 ga' gb' gc' D1 D2 | | | | | ]; subst.
  inversion D1; subst.
  exists c, (q2 ++ p2). repeat split; [assumption | ].
  cbn in A. inversion A; assumption.
Qed.

(** The only group of a pattern is the amount. *)
Fixpoint groups_are_numbers (r : regex) : Prop :=
  match r with
  | Group r1 => Group r1 = number
  | Seq r1 r2 | Alt r1 r2 => groups_are_numbers r1 /\ groups_are_numbers r2
  | Star r1 => groups_are_numbers r1
  | _ => True
  end.

(** Every way through the pattern goes through the group. *)
Fixpoint sets_group (r : regex) : bool :=
  match r with
  | Group _ => true
  | Seq r1 r2 => sets_group r1 || sets_group r2
  | Alt r1 r2 => sets_group r1 && sets_group r2
  | _ => false
  end.

Lemma group_numeric r p g g' :
  Matches r p g g' -> groups_are_numbers r ->
  (forall b, g = Some b -> numeric b) -> forall b, g' = Some b -> numeric b.
Proof.
  induction 1; cbn [groups_are_numbers]; intros W I b E; eauto.
  - eapply IHMatches2; [apply W | | exact E].
    intros b1 E1. eapply IHMatches1; [apply W | exact I | exact E1].
  - eapply IHMatches; [apply W | exact I | exact E].
  - eapply IHMatches; [apply W | exact I | exact E].
  - injection E as <-.
    assert (M : Matches number p g (Some p)) by (rewrite <- W; econstructor; eassumption).
    apply number_matches in M. apply M.
Qed.

Lemma group_kept r p g g' :
  Matches r p g g' -> g <> None -> g' <> None.
Proof. induction 1; intros N; auto; discriminate. Qed.

Lemma group_set r p g g' :
  Matches r p g g' -> sets_group r = true -> g' <> None.
Proof.
  induction 1; cbn [sets_group]; intros S; try discriminate.
  - apply orb_true_iff in S. destruct S as [S | S].
    + eapply group_kept; [eassumption | auto].
    + auto.
  - apply andb_true_iff in S. apply IHMatches, S.
  - apply andb_true_iff in S. apply IHMatches, S.
Qed.

(** The pattern is one the source could hold: one group, the amount, on
    every path. *)
Definition amount_pattern (r : regex) : Prop :=
  groups_are_numbers r /\ sets_group r = true.

Definition carries_amount (m : match_object) : Prop :=
  exists b, group1 m = Some b /\ numeric b.

Lemma match_at_amount r t m :
  amount_pattern r -> match_at r t = Some m -> carries_amount m.
Proof.
  intros [W S] H. unfold match_at in H. apply exec_sound in H.
  destruct H as (p & s' & g' & _ & M & H). injection H as <-. cbn.
  destruct g' as [ b | ] eqn:E.
  - exists b. split; [reflexivity | ].
    eapply group_numeric; [exact M | exact W | discriminate | reflexivity].
  - exfalso. eapply group_set; [exact M | exact S | reflexivity].
Qed.

Lemma search_amount r t m :
  amount_pattern r -> search r t = Some m -> carries_amount m.
Proof.
  intros A. induction t as [ | a t IH ]; cbn [search]; intros H.
  - destruct (match_at r []) eqn:E; [ | discriminate ].
    injection H as <-. eapply match_at_amount; eassumption.
  - destruct (match_at r (a :: t)) eqn:E.
    + injection H as <-. eapply match_at_amount; eassumption.
    + auto.
Qed.

Lemma finditer_amount r t :
  amount_pattern r -> Forall carries_amount (finditer r t).
Proof.
  intros A. unfold finditer. generalize (S (List.length t)). intros n. revert t.
  induction n as [ | n IH ]; intros t; cbn [finditer_from]; [constructor | ].
  destruct (search r t) as [ m | ] eqn:E; [ | constructor ].
  constructor; [eapply search_amount; eassumption | ].
  destruct (List.length (rest m) <? List.length t)%nat; apply IH.
Qed.

(** *** Reading the digits fails only on their number *)

Lemma isdigit_not_comma c : isdigit c = true -> N.eqb c comma = false.
Proof.
  unfold isdigit. intros H. destruct (N.eqb_spec c comma) as [-> | ]; [ | reflexivity ].
  unfold comma in H. rewrite comma_not_decimal in H. discriminate.
Qed.

Lemma remove_commas_digits t :
  Forall (fun x => isdigit x = true \/ x = comma) t ->
  Forall (fun x => isdigit x = true) (remove_commas t).
Proof.
  induction 1 as [ | x t Hx _ IH ]; cbn; [constructor | ].
  destruct (N.eqb_spec x comma) as [-> | Ne]; cbn; [assumption | ].
  constructor; [ | assumption ]. destruct Hx; [assumption | contradiction].
Qed.

Lemma digits_value_ok t :
  Forall (fun x => isdigit x = true) t ->
  forall acc, 0 <= acc -> exists n, digits_value acc t = Ok n /\ acc <= n.
Proof.
  induction 1 as [ | x t Hx _ IH ]; intros acc Hacc; cbn.
  - exists acc. split; [reflexivity | lia].
  - unfold isdigit in Hx. destruct (decimal x) as [ v | ]; [ | discriminate ].
    destruct (IH (10 * acc + Z.of_N v)) as (n & E & Hn); [lia | ].
    exists n. split; [assumption | lia].
Qed.

(** The amount of a match is within the limit of [int]. *)
Definition readable (m : match_object) : Prop :=
  forall g, group1 m = Some g ->
    Z.of_nat (List.length (remove_commas g)) <= max_str_digits.

Lemma amount_of_match_cases m :
  carries_amount m ->
  (readable m /\ exists n, amount_of_match m = Ok n /\ 0 <= n)
  \/ (~ readable m /\ amount_of_match m = Raise ValueError).
Proof.
  intros (b & E & c & t' & -> & Hc & Ht). unfold amount_of_match. rewrite E.
  unfold int_of_str.
  assert (R : remove_commas (c :: t') = c :: remove_commas t').
  { unfold remove_commas. cbn. rewrite (isdigit_not_comma c Hc). reflexivity. }
  rewrite R.
  destruct (Z.ltb_spec max_str_digits (Z.of_nat (List.length (c :: remove_commas t'))))
    as [ Long | Short ].
  - right. split; [ | reflexivity ]. intros Rd. specialize (Rd _ E).
    rewrite R in Rd. lia.
  - left. split; [intros g G; rewrite E in G; injection G as <-; rewrite R; exact Short | ].
    cbn [digits_value].
    unfold isdigit in Hc. destruct (decimal c) as [ v | ]; [ | discriminate ].
    destruct (digits_value_ok (remove_commas t') (remove_commas_digits t' Ht)
                (10 * 0 + Z.of_N v)) as (n & En & Hn); [lia | ].
    exists n. split; [exact En | lia].
Qed.

Lemma amount_of_match_ok m :
  carries_amount m -> readable m -> exists n, amount_of_match m = Ok n /\ 0 <= n.
Proof.
  intros C Rd. destruct (amount_of_match_cases m C) as [[_ H] | [N _]];
    [exact H | contradiction].
Qed.

Lemma amount_of_match_nonneg m n :
  carries_amount m -> amount_of_match m = Ok n -> 0 <= n.
Proof.
  intros C E. destruct (amount_of_match_cases m C) as [[_ (n' & E' & H)] | [_ E']];
    rewrite E in E'; [injection E' as <-; exact H | discriminate].
Qed.

End Amounts.

(** ** The loops of the parser *)

Section Parser.
Context {U : UnicodeData}.
Import Re.

Lemma keyword_then_amount_pattern kw :
  groups_are_numbers kw -> amount_pattern (keyword_then_amount kw).
Proof. intros K. unfold amount_pattern. cbn. rewrite orb_true_r. tauto. Qed.

Lemma amount_for_pattern kw :
  groups_are_numbers kw -> amount_pattern (amount_for kw).
Proof. intros K. unfold amount_pattern. cbn. tauto. Qed.

Lemma amount_paren_pattern kw :
  groups_are_numbers kw -> amount_pattern (amount_paren kw).
Proof. intros K. unfold amount_pattern. cbn. tauto. Qed.

Lemma patterns_carry_amounts :
  Forall (fun item => Forall amount_pattern (snd item)) patterns.
Proof.
  unfold patterns.
  repeat (apply Forall_cons; [cbn [snd] | ]); try apply Forall_nil;
    repeat (apply Forall_cons; [ | ]); try apply Forall_nil;
    first [ apply keyword_then_amount_pattern
          | apply amount_for_pattern
          | apply amount_paren_pattern ];
    cbn; tauto.
Qed.

Lemma user_budget_pattern_amount : amount_pattern user_budget_pattern.
Proof. unfold amount_pattern. cbn. tauto. Qed.

(** The amount a match stands for. *)
Definition match_amount (m : match_object) : Z :=
  match amount_of_match m with
  | Ok n => n
  | Raise _ => 0
  end.

Lemma amount_of_match_amount m :
  carries_amount m -> readable m ->
  amount_of_match m = Ok (match_amount m) /\ 0 <= match_amount m.
Proof.
  intros C Rd. destruct (amount_of_match_ok m C Rd) as (n & E & Hn).
  unfold match_amount. rewrite E. split; [reflexivity | assumption].
Qed.

(** [patterns[c]] *)
Fixpoint lookup (items : list (category * list regex)) (c : category) : list regex :=
  match items with
  | [] => []
  | (c', pattern_list) :: items' =>
      if category_eqb c c' then pattern_list else lookup items' c
  end.

Definition pattern_list (c : category) : list regex := lookup patterns c.

(** The amounts of all the matches of a list of patterns, in the order in
    which the loops meet them. *)
Definition amounts_found (pattern_list : list regex) (lowered : text) : list Z :=
  flat_map (fun pattern => map match_amount (finditer pattern lowered)) pattern_list.

Definition record_all (c : category) (amounts : list Z) (breakdown : dict) : dict :=
  fold_left (fun b a => record_amount c a b) amounts breakdown.

(** The loops return what [record_all] builds when every amount is within
    the limit of [int], and raise [ValueError] at the first that is not. *)
Definition returns_or_digit_limit {A : Type} (c : result A) (a : A) (ok : Prop) : Prop :=
  (ok /\ c = Ok a) \/ (~ ok /\ c = Raise ValueError).

Lemma for_matches_cases c matches :
  Forall carries_amount matches ->
  forall breakdown,
    returns_or_digit_limit (for_matches c matches breakdown)
      (record_all c (map match_amount matches) breakdown)
      (Forall readable matches).
Proof.
  unfold returns_or_digit_limit.
  induction 1 as [ | m matches Hm _ IH ]; intros breakdown; cbn [for_matches map].
  - left. split; [constructor | reflexivity].
  - destruct (amount_of_match_cases m Hm) as [[Rd (n & E & _)] | [Long E]].
    + assert (M : match_amount m = n) by (unfold match_amount; rewrite E; reflexivity).
      rewrite E. cbn [bind].
      change (record_all c (match_amount m :: map match_amount matches) breakdown)
        with (record_all c (map match_amount matches)
                (record_amount c (match_amount m) breakdown)).
      rewrite M.
      destruct (IH (record_amount c n breakdown)) as [[F ->] | [F ->]].
      * left. split; [constructor; assumption | reflexivity].
      * right. split; [ | reflexivity ]. intros G. inversion G. contradiction.
    + rewrite E. right. split; [ | reflexivity ]. intros G. inversion G. contradiction.
Qed.

(** Every amount that a list of patterns finds is within the limit. *)
Definition readable_matches (ps : list regex) (lowered : text) : Prop :=
  Forall (fun r => Forall readable (finditer r lowered)) ps.

Lemma for_patterns_cases c ps lowered :
  Forall amount_pattern ps ->
  forall breakdown,
    returns_or_digit_limit (for_patterns c ps lowered breakdown)
      (record_all c (amounts_found ps lowered) breakdown)
      (readable_matches ps lowered).
Proof.
  unfold returns_or_digit_limit, readable_matches.
  induction 1 as [ | r ps Hr _ IH ]; intros breakdown; cbn [for_patterns].
  - left. split; [constructor | reflexivity].
  - destruct (for_matches_cases c _ (finditer_amount r lowered Hr) breakdown)
      as [[F ->] | [F ->]]; cbn [bind].
    + destruct (IH (record_all c (map match_amount (finditer r lowered)) breakdown))
        as [[G ->] | [G ->]].
      * left. split; [constructor; assumption | ].
        unfold amounts_found, record_all. cbn [flat_map].
        rewrite fold_left_app. reflexivity.
      * right. split; [ | reflexivity ]. intros K. inversion K. contradiction.
    + right. split; [ | reflexivity ]. intros K. inversion K. contradiction.
Qed.

(** The breakdown the three nested loops build. *)
Definition record_categories (items : list (category * list regex))
    (lowered : text) (breakdown : dict) : dict :=
  fold_left (fun b item => record_all (fst item) (amounts_found (snd item) lowered) b)
    items breakdown.

Definition readable_items (items : list (category * list regex)) (lowered : text)
    : Prop :=
  Forall (fun item => readable_matches (snd item) lowered) items.

Lemma for_categories_cases items lowered :
  Forall (fun item => Forall amount_pattern (snd item)) items ->
  forall breakdown,
    returns_or_digit_limit (for_categories items lowered breakdown)
      (record_categories items lowered breakdown)
      (readable_items items lowered).
Proof.
  unfold returns_or_digit_limit, readable_items.
  induction 1 as [ | [c ps] items Hc _ IH ]; intros breakdown; cbn [for_categories].
  - left. split; [constructor | reflexivity].
  - destruct (for_patterns_cases c ps lowered Hc breakdown) as [[F ->] | [F ->]];
      cbn [bind].
    + destruct (IH (record_all c (amounts_found ps lowered) breakdown))
        as [[G ->] | [G ->]].
      * left. split; [constructor; assumption | reflexivity].
      * right. split; [ | reflexivity ]. intros K. inversion K. contradiction.
    + right. split; [ | reflexivity ]. intros K. inversion K. contradiction.
Qed.

Definition parsed (response_text : text) : dict :=
  record_categories patterns (str_lower response_text) [].

(** Every amount that the patterns find in a reply is within the limit. *)
Definition readable_reply (response_text : text) : Prop :=
  readable_items patterns (str_lower response_text).

(** The parser returns [parsed], unless an amount it finds has more than
    4300 digits: then line 55 raises [ValueError]. *)
Lemma response_breakdown_cases response_text :
  returns_or_digit_limit (response_breakdown response_text)
    (parsed response_text) (readable_reply response_text).
Proof. apply for_categories_cases, patterns_carry_amounts. Qed.

Lemma response_breakdown_ok response_text :
  readable_reply response_text ->
  response_breakdown response_text = Ok (parsed response_text).
Proof.
  intros Rd. destruct (response_breakdown_cases response_text) as [[_ E] | [N _]];
    [exact E | contradiction].
Qed.

Lemma response_breakdown_parsed response_text breakdown :
  response_breakdown response_text = Ok breakdown -> breakdown = parsed response_text.
Proof.
  intros E. destruct (response_breakdown_cases response_text) as [[_ E'] | [_ E']];
    rewrite E in E'; [injection E' as ->; reflexivity | discriminate].
Qed.


(** The search for the user's budget returns too, unless the amount it finds
    has more than 4300 digits: then line 23 raises [ValueError]. *)
Lemma user_budget_cases user_input :
  (exists budget, user_budget user_input = Ok budget
     /\ forall n, budget = Some n -> 0 <= n)
  \/ user_budget user_input = Raise ValueError.
Proof.
  unfold user_budget. destruct (search user_budget_pattern user_input) as [ m | ] eqn:E.
  - apply search_amount in E; [ | apply user_budget_pattern_amount ].
    destruct (amount_of_match_cases m E) as [[_ (n & -> & Hn)] | [_ ->]]; cbn.
    + left. exists (Some n). split; [reflexivity | ]. intros ? [= <-]. assumption.
    + right. reflexivity.
  - left. exists None. split; [reflexivity | discriminate].
Qed.

Lemma user_budget_nonneg user_input n :
  user_budget user_input = Ok (Some n) -> 0 <= n.
Proof.
  intros E. destruct (user_budget_cases user_input) as [(b & E' & H) | E'];
    rewrite E in E'; [injection E' as <-; apply H; reflexivity | discriminate].
Qed.


End Parser.

(** ** Dictionaries and the threshold *)

Lemma category_eqb_eq a b : category_eqb a b = true <-> a = b.
Proof. destruct a, b; cbn; split; congruence. Qed.

Lemma category_eqb_refl a : category_eqb a a = true.
Proof. apply category_eqb_eq. reflexivity. Qed.

Lemma category_eqb_neq a b : a <> b -> category_eqb a b = false.
Proof.
  intros N. destruct (category_eqb a b) eqn:E; [ | reflexivity ].
  apply category_eqb_eq in E. contradiction.
Qed.

Lemma dict_get_set_same d k v : dict_get (dict_set d k v) k = Some v.
Proof.
  induction d as [ | [k' v'] d IH ]; cbn.
  - rewrite category_eqb_refl. reflexivity.
  - destruct (category_eqb k k') eqn:E; cbn; rewrite E; [reflexivity | exact IH].
Qed.

Lemma dict_get_set_other d k v k0 :
  k0 <> k -> dict_get (dict_set d k v) k0 = dict_get d k0.
Proof.
  intros N. induction d as [ | [k' v'] d IH ]; cbn.
  - rewrite (category_eqb_neq _ _ N). reflexivity.
  - destruct (category_eqb k k') eqn:E; cbn.
    + apply category_eqb_eq in E. subst k'.
      rewrite (category_eqb_neq _ _ N). reflexivity.
    + rewrite IH. reflexivity.
Qed.

(** The better of what is held and a new amount. *)
Definition better (held : option Z) (amount : Z) : option Z :=
  Some match held with
       | None => amount
       | Some h => Z.max h amount
       end.

Definition surviving (amounts : list Z) : list Z :=
  filter (fun a => 500 <=? a) amounts.

(** [max(xs)], when there is one *)
Definition maximum (xs : list Z) : option Z :=
  match xs with
  | [] => None
  | x :: xs' => Some (fold_left Z.max xs' x)
  end.

Lemma get_record_amount_same c a d :
  dict_get (record_amount c a d) c
  = if 500 <=? a then better (dict_get d c) a else dict_get d c.
Proof.
  unfold record_amount, better. destruct (500 <=? a); [ | reflexivity ].
  destruct (dict_get d c) as [ h | ] eqn:E.
  - destruct (Z.ltb_spec h a).
    + rewrite dict_get_set_same. f_equal. lia.
    + rewrite E. f_equal. lia.
  - apply dict_get_set_same.
Qed.

Lemma get_record_amount_other c a d c0 :
  c0 <> c -> dict_get (record_amount c a d) c0 = dict_get d c0.
Proof.
  intros N. unfold record_amount. destruct (500 <=? a); [ | reflexivity ].
  destruct (dict_get d c) as [ h | ].
  - destruct (h <? a); [apply dict_get_set_other; assumption | reflexivity].
  - apply dict_get_set_other; assumption.
Qed.

Lemma get_record_all_same c amounts :
  forall d, dict_get (record_all c amounts d) c
            = fold_left better (surviving amounts) (dict_get d c).
Proof.
  induction amounts as [ | a amounts IH ]; intros d; cbn; [reflexivity | ].
  unfold record_all in IH. rewrite IH, get_record_amount_same.
  destruct (500 <=? a); reflexivity.
Qed.

Lemma get_record_all_other c amounts c0 :
  c0 <> c -> forall d, dict_get (record_all c amounts d) c0 = dict_get d c0.
Proof.
  intros N. induction amounts as [ | a amounts IH ]; intros d; cbn; [reflexivity | ].
  unfold record_all in IH. rewrite IH. apply get_record_amount_other; assumption.
Qed.

Lemma fold_better_some xs : forall h,
  fold_left better xs (Some h) = Some (fold_left Z.max xs h).
Proof. induction xs as [ | x xs IH ]; intros h; cbn; [reflexivity | apply IH]. Qed.

Lemma fold_better_none xs : fold_left better xs None = maximum xs.
Proof. destruct xs as [ | x xs ]; cbn; [reflexivity | apply fold_better_some]. Qed.

Section Lookup.
Context {U : UnicodeData}.

Lemma lookup_absent items c : ~ In c (map fst items) -> lookup items c = [].
Proof.
  induction items as [ | [c' ps] items IH ]; cbn; intros N; [reflexivity | ].
  rewrite category_eqb_neq; [apply IH | ]; intuition congruence.
Qed.

Lemma get_record_categories items lowered :
  NoDup (map fst items) ->
  forall d c,
    dict_get (record_categories items lowered d) c
    = fold_left better (surviving (amounts_found (lookup items c) lowered)) (dict_get d c).
Proof.
  induction items as [ | [c' ps] items IH ]; cbn [map fst]; intros ND d c.
  - reflexivity.
  - inversion ND as [ | ? ? Hnotin ND' ]; subst.
    cbn [record_categories fold_left fst snd lookup].
    change (fold_left _ items ?b) with (record_categories items lowered b).
    rewrite (IH ND'). destruct (category_eqb c c') eqn:E.
    + apply category_eqb_eq in E. subst c'.
      rewrite (lookup_absent items c Hnotin). cbn.
      apply get_record_all_same.
    + rewrite get_record_all_other; [reflexivity | ].
      intros ->. rewrite category_eqb_refl in E. discriminate.
Qed.

Lemma patterns_keys :
  map fst patterns = [accommodation; transport; food; activities; miscellaneous].
Proof. reflexivity. Qed.

Lemma patterns_nodup : NoDup (map fst patterns).
Proof.
  rewrite patterns_keys.
  repeat (constructor; [cbn; intuition discriminate | ]). constructor.
Qed.

(** What the parser holds for a category: the largest surviving amount. *)
Lemma parsed_get response_text c :
  dict_get (parsed response_text) c
  = maximum (surviving (amounts_found (pattern_list c) (str_lower response_text))).
Proof.
  unfold parsed. rewrite (get_record_categories _ _ patterns_nodup).
  cbn [dict_get]. apply fold_better_none.
Qed.

End Lookup.

(** Every amount the loops keep is at least 500. *)
Definition above_threshold (d : dict) : Prop := Forall (fun kv => 500 <= snd kv) d.

Lemma dict_set_above d k v : above_threshold d -> 500 <= v -> above_threshold (dict_set d k v).
Proof.
  unfold above_threshold. intros H Hv.
  induction H as [ | [k' v'] d Hk Hd IH ]; cbn.
  - repeat constructor. assumption.
  - destruct (category_eqb k k'); constructor; assumption.
Qed.

Lemma record_amount_above c a d : above_threshold d -> above_threshold (record_amount c a d).
Proof.
  intros H. unfold record_amount. destruct (Z.leb_spec 500 a); [ | assumption ].
  destruct (dict_get d c) as [ h | ].
  - destruct (h <? a); [apply dict_set_above | ]; assumption.
  - apply dict_set_above; assumption.
Qed.

Lemma record_all_above c amounts :
  forall d, above_threshold d -> above_threshold (record_all c amounts d).
Proof.
  induction amounts as [ | a amounts IH ]; intros d H; cbn; [assumption | ].
  apply IH, record_amount_above, H.
Qed.

Lemma parsed_above {U : UnicodeData} response_text : above_threshold (parsed response_text).
Proof.
  unfold parsed, record_categories. generalize (@nil (category * Z)) (Forall_nil (fun kv : category * Z => 500 <= snd kv)).
  induction patterns as [ | item items IH ]; intros d H; cbn; [assumption | ].
  apply IH, record_all_above, H.
Qed.

(** [sum] *)
Lemma fold_add xs : forall a, fold_left Z.add xs a = a + fold_left Z.add xs 0.
Proof.
  induction xs as [ | x xs IH ]; intros a; cbn; [lia | ].
  rewrite IH, (IH x). lia.
Qed.

Lemma sum_cons x xs : sum (x :: xs) = x + sum xs.
Proof. unfold sum. cbn. apply fold_add. Qed.

Lemma sum_above d : above_threshold d -> d <> [] -> 500 <= sum (values d).
Proof.
  intros H N. destruct H as [ | [k v] d Hv Hd ]; [contradiction | ].
  unfold values. cbn [map snd]. rewrite sum_cons. cbn in Hv.
  assert (P : 0 <= sum (map snd d)); [ | lia ].
  clear -Hd. induction Hd as [ | [k' v'] d Hv' _ IH ]; cbn [map snd].
  - cbn. lia.
  - rewrite sum_cons. cbn in Hv'. lia.
Qed.

(** * The specification's claims *)

(** ** Shared facts about the reconciliation *)

Lemma stated_some budget n : stated budget = Some n -> budget = Some n /\ n <> 0.
Proof.
  unfold stated. destruct budget as [ b | ]; [ | discriminate ].
  destruct (Z.eqb_spec b 0); [discriminate | ]. intros [= <-]. auto.
Qed.

Lemma stated_positive n : n <> 0 -> stated (Some n) = Some n.
Proof. intros N. unfold stated. destruct (Z.eqb_spec n 0); [contradiction | reflexivity]. Qed.

Lemma dict_get_in d c a : dict_get d c = Some a -> In (c, a) d.
Proof.
  induction d as [ | [k v] d IH ]; cbn; [discriminate | ].
  destruct (category_eqb c k) eqn:E.
  - apply category_eqb_eq in E. subst k. intros [= <-]. left. reflexivity.
  - intros H. right. apply IH, H.
Qed.

Lemma maximum_in xs a : maximum xs = Some a -> In a xs.
Proof.
  destruct xs as [ | x xs ]; cbn; [discriminate | ]. intros [= <-].
  revert x. induction xs as [ | y xs IH ]; intros x; cbn [fold_left].
  - left. reflexivity.
  - destruct (IH (Z.max x y)) as [E | I].
    + rewrite <- E.
      destruct (Z.max_spec x y) as [[_ M] | [_ M]]; rewrite M; cbn; auto.
    + right. right. exact I.
Qed.

(** ** The float arithmetic stays in range *)

Module NumFacts.
Import Num.

(** *** The number of binary digits *)

Lemma digits2_pos_size p : digits2_pos p = Pos.size p.
Proof. induction p as [ p IH | p IH | ]; cbn; congruence. Qed.

Lemma Zdigits2_nonneg m : 0 <= Zdigits2 m.
Proof. destruct m; cbn; lia. Qed.

Lemma Zdigits2_gt m : 0 <= m -> m < 2 ^ Zdigits2 m.
Proof.
  destruct m as [ | p | p ]; cbn [Zdigits2]; intros H; [reflexivity | | lia].
  rewrite digits2_pos_size. pose proof (Pos.size_gt p) as G.
  rewrite <- Pos2Z.inj_pow. lia.
Qed.

Lemma Zdigits2_le m j : 0 <= m -> 0 <= j -> m < 2 ^ j -> Zdigits2 m <= j.
Proof.
  destruct m as [ | p | p ]; cbn [Zdigits2]; intros H Hj L; [assumption | | lia].
  rewrite digits2_pos_size. pose proof (Pos.size_le p) as G.
  destruct (Z.le_gt_cases (Z.pos (Pos.size p)) j) as [ | C ]; [assumption | exfalso ].
  assert (2 ^ (j + 1) <= 2 ^ Z.pos (Pos.size p)) by (apply Z.pow_le_mono_r; lia).
  rewrite Z.pow_add_r in H0 by lia.
  assert (Z.pos (2 ^ Pos.size p) <= Z.pos p~0) by lia.
  rewrite Pos2Z.inj_pow in H1. lia.
Qed.

Lemma Zdigits2_mono a b : 0 <= a <= b -> Zdigits2 a <= Zdigits2 b.
Proof.
  intros H. apply Zdigits2_le; [lia | apply Zdigits2_nonneg | ].
  pose proof (Zdigits2_gt b). lia.
Qed.

Lemma Zdigits2_div_pow m k :
  0 <= m -> 0 <= k -> Zdigits2 (m / 2 ^ k) <= Z.max 0 (Zdigits2 m - k).
Proof.
  intros Hm Hk. pose proof (Zdigits2_gt m Hm) as G.
  pose proof (Zdigits2_nonneg m) as N.
  assert (P : 0 < 2 ^ k) by (apply Z.pow_pos_nonneg; lia).
  apply Zdigits2_le; [apply Z.div_pos; lia | lia | ].
  apply Z.div_lt_upper_bound; [assumption | ].
  destruct (Z.le_gt_cases k (Zdigits2 m)).
  - rewrite Z.max_r by lia. rewrite <- Z.pow_add_r by lia.
    replace (k + (Zdigits2 m - k)) with (Zdigits2 m) by lia. assumption.
  - rewrite Z.max_l by lia. rewrite Z.pow_0_r.
    assert (2 ^ Zdigits2 m <= 2 ^ k) by (apply Z.pow_le_mono_r; lia). lia.
Qed.

Lemma Zdigits2_mul a b :
  0 <= a -> 0 <= b -> Zdigits2 (a * b) <= Zdigits2 a + Zdigits2 b.
Proof.
  intros Ha Hb. pose proof (Zdigits2_gt a Ha). pose proof (Zdigits2_gt b Hb).
  pose proof (Zdigits2_nonneg a). pose proof (Zdigits2_nonneg b).
  apply Zdigits2_le; [nia | lia | ]. rewrite Z.pow_add_r by lia. nia.
Qed.

Lemma Zdigits2_succ m : 0 <= m -> Zdigits2 (m + 1) <= Zdigits2 m + 1.
Proof.
  intros Hm. pose proof (Zdigits2_gt m Hm). pose proof (Zdigits2_nonneg m).
  apply Zdigits2_le; [lia | lia | ]. rewrite Z.pow_add_r by lia. lia.
Qed.

(** *** Shifting right *)

Lemma shr_1_m mrs : 0 <= shr_m mrs -> shr_m (shr_1 mrs) = shr_m mrs / 2.
Proof.
  destruct mrs as [m r s]. cbn [shr_m]. intros H. rewrite <- Z.div2_div.
  destruct m as [ | [ p | p | ] | p ]; cbn; lia || reflexivity.
Qed.

Lemma iter_shr_1_m p : forall mrs,
  0 <= shr_m mrs -> shr_m (iter_pos shr_1 p mrs) = shr_m mrs / 2 ^ Z.pos p.
Proof.
  induction p as [ p IH | p IH | ]; intros mrs H; cbn [iter_pos].
  - assert (H1 : 0 <= shr_m (shr_1 mrs)) by (rewrite shr_1_m by assumption; apply Z.div_pos; lia).
    assert (H2 : 0 <= shr_m (iter_pos shr_1 p (shr_1 mrs)))
      by (rewrite IH by assumption; apply Z.div_pos; [lia | apply Z.pow_pos_nonneg; lia]).
    rewrite IH, IH, shr_1_m by assumption.
    assert (P : 0 < 2 ^ Z.pos p) by (apply Z.pow_pos_nonneg; lia).
    rewrite !Z.div_div by lia. f_equal.
    replace (Z.pos p~1) with (Z.pos p + Z.pos p + 1) by lia.
    rewrite !Z.pow_add_r by lia. change (2 ^ 1) with 2. ring.
  - assert (H2 : 0 <= shr_m (iter_pos shr_1 p mrs))
      by (rewrite IH by assumption; apply Z.div_pos; [lia | apply Z.pow_pos_nonneg; lia]).
    rewrite IH, IH by assumption.
    assert (P : 0 < 2 ^ Z.pos p) by (apply Z.pow_pos_nonneg; lia).
    rewrite !Z.div_div by lia. f_equal.
    replace (Z.pos p~0) with (Z.pos p + Z.pos p) by lia.
    rewrite !Z.pow_add_r by lia. ring.
  - rewrite shr_1_m by assumption. reflexivity.
Qed.

Lemma shr_spec mrs e n :
  0 <= shr_m mrs ->
  shr_m (fst (shr mrs e n)) = shr_m mrs / 2 ^ Z.max 0 n
  /\ snd (shr mrs e n) = e + Z.max 0 n.
Proof.
  intros H. destruct n as [ | p | p ]; cbn [shr fst snd].
  - cbn. rewrite Z.div_1_r. lia.
  - rewrite Z.max_r by lia. split; [apply iter_shr_1_m; assumption | reflexivity].
  - rewrite Z.max_l by lia. cbn. rewrite Z.div_1_r. lia.
Qed.

Lemma shr_record_of_loc_m m l : shr_m (shr_record_of_loc m l) = m.
Proof. destruct l as [ | [ | | ] ]; reflexivity. Qed.

Lemma shr_fexp_spec m e l :
  0 <= m ->
  let k := Z.max 0 (fexp prec emax (Zdigits2 m + e) - e) in
  shr_m (fst (shr_fexp prec emax m e l)) = m / 2 ^ k
  /\ snd (shr_fexp prec emax m e l) = e + k.
Proof.
  intros H k. unfold shr_fexp.
  pose proof (shr_spec (shr_record_of_loc m l) e
                (fexp prec emax (Zdigits2 m + e) - e)) as S.
  rewrite shr_record_of_loc_m in S. apply S, H.
Qed.

Lemma round_nearest_even_bounds m l :
  m <= round_nearest_even m l <= m + 1.
Proof.
  destruct l as [ | [ | | ] ]; cbn; try lia. destruct (Z.even m); lia.
Qed.

(** *** A product or quotient within range is rounded to a finite float *)

(** [within s L E x]: [x] is a zero or a finite float of sign [s], with a
    mantissa of at most 53 bits, an exponent of at most [E] and a value below
    [2 ^ L]. *)
Definition within (s : bool) (L E : Z) (x : float) : Prop :=
  match x with
  | S754_zero s' => s' = s
  | S754_finite s' m e =>
      s' = s /\ Z.pos (digits2_pos m) <= 53 /\ e <= E
      /\ Z.pos (digits2_pos m) + e <= L
  | _ => False
  end.

Lemma fexp_eq x : fexp prec emax x = Z.max (x - 53) (-1074).
Proof. reflexivity. Qed.

Lemma binary_round_aux_within s m e l :
  0 <= m -> e <= 971 -> Zdigits2 m + e <= 1023 ->
  within s (Z.max (Zdigits2 m + e) (-1074) + 1)
           (Z.min 971 (Z.max e (Z.max (Zdigits2 m + e - 52) (-1074))))
           (binary_round_aux prec emax s m e l).
Proof.
  intros Hm He Hd. unfold binary_round_aux.
  pose proof (shr_fexp_spec m e l Hm) as S1. cbv zeta in S1.
  destruct (shr_fexp prec emax m e l) as [mrs1 e1]. cbn [fst snd] in S1.
  destruct S1 as [M1 E1].
  set (k1 := Z.max 0 (fexp prec emax (Zdigits2 m + e) - e)) in *.
  set (m1 := round_nearest_even (shr_m mrs1) (loc_of_shr_record mrs1)).
  assert (P1 : 0 < 2 ^ k1) by (apply Z.pow_pos_nonneg; lia).
  assert (N1 : 0 <= shr_m mrs1) by (rewrite M1; apply Z.div_pos; lia).
  pose proof (round_nearest_even_bounds (shr_m mrs1) (loc_of_shr_record mrs1)) as R.
  fold m1 in R.
  assert (Hm1 : 0 <= m1) by lia.
  pose proof (shr_fexp_spec m1 e1 loc_Exact Hm1) as S2. cbv zeta in S2.
  destruct (shr_fexp prec emax m1 e1 loc_Exact) as [mrs2 e2]. cbn [fst snd] in S2.
  destruct S2 as [M2 E2].
  set (k2 := Z.max 0 (fexp prec emax (Zdigits2 m1 + e1) - e1)) in *.
  assert (D1 : Zdigits2 (shr_m mrs1) <= Z.max 0 (Zdigits2 m - k1))
    by (rewrite M1; apply Zdigits2_div_pow; lia).
  assert (D1' : Zdigits2 m1 <= Z.max 0 (Zdigits2 m - k1) + 1).
  { pose proof (Zdigits2_succ (shr_m mrs1) N1).
    pose proof (Zdigits2_mono m1 (shr_m mrs1 + 1)). lia. }
  assert (D2 : Zdigits2 (shr_m mrs2) <= Z.max 0 (Zdigits2 m1 - k2))
    by (rewrite M2; apply Zdigits2_div_pow; lia).
  pose proof (Zdigits2_nonneg m) as Nm. pose proof (Zdigits2_nonneg m1) as Nm1.
  subst k1 k2. unfold fexp, emin, prec, emax in *.
  destruct (shr_m mrs2) as [ | p | p ] eqn:Em2.
  - reflexivity.
  - cbn [Zdigits2] in D2.
    destruct (Z.leb_spec e2 (1024 - 53)) as [ X | X ]; [ | exfalso; lia ].
    cbn [within]. repeat split; lia.
  - exfalso. assert (0 <= Z.neg p); [ | lia ].
    rewrite M2. apply Z.div_pos; [lia | apply Z.pow_pos_nonneg; lia].
Qed.

Lemma within_weaken s L E L' E' x :
  within s L E x -> L <= L' -> E <= E' -> within s L' E' x.
Proof.
  destruct x as [ s' | s' | | s' m e ]; cbn; intros H HL HE; try assumption.
  repeat split; lia || apply H.
Qed.

(** *** Conversion of an int *)

Lemma iter_xO m d : Z.pos (Pos.iter xO m d) = Z.pos m * 2 ^ Z.pos d.
Proof.
  induction d as [ | d IH ] using Pos.peano_ind.
  - cbn. lia.
  - rewrite Pos.iter_succ, Pos2Z.inj_xO, IH, Pos2Z.inj_succ.
    rewrite Z.pow_succ_r by lia. ring.
Qed.

Lemma shl_align_spec mx ex ex' :
  Zdigits2 (Z.pos (fst (shl_align mx ex ex'))) + snd (shl_align mx ex ex')
  <= Zdigits2 (Z.pos mx) + ex
  /\ snd (shl_align mx ex ex') <= ex.
Proof.
  unfold shl_align. destruct (ex' - ex) as [ | d | d ] eqn:E; cbn [fst snd]; try lia.
  split; [ | lia ]. rewrite iter_xO.
  pose proof (Zdigits2_mul (Z.pos mx) (2 ^ Z.pos d)) as M.
  assert (Zdigits2 (2 ^ Z.pos d) <= Z.pos d + 1).
  { apply Zdigits2_le; [apply Z.pow_nonneg; lia | lia | ].
    apply Z.pow_lt_mono_r; lia. }
  assert (0 <= 2 ^ Z.pos d) by (apply Z.pow_nonneg; lia).
  assert (Zdigits2 (Z.pos mx * 2 ^ Z.pos d) <= Zdigits2 (Z.pos mx) + Z.pos d).
  { pose proof (Zdigits2_gt (Z.pos mx)). pose proof (Zdigits2_nonneg (Z.pos mx)).
    apply Zdigits2_le; [lia | lia | ]. rewrite Z.pow_add_r by lia.
    apply Z.mul_lt_mono_pos_r; [apply Z.pow_pos_nonneg | ]; lia. }
  lia.
Qed.

Lemma round_int_within n B :
  0 <= n -> n < 2 ^ B -> 0 <= B <= 1023 ->
  within false (B + 1) (Z.max 0 (B - 52)) (round_int n).
Proof.
  intros Hn Hlt HB. unfold round_int, binary_normalize.
  destruct n as [ | p | p ]; [reflexivity | | lia].
  unfold binary_round.
  pose proof (shl_align_spec p 0 (fexp prec emax (Z.pos (digits2_pos p) + 0))) as [A1 A2].
  destruct (shl_align p 0 _) as [mz ez]. cbn [fst snd] in A1, A2.
  assert (D : Zdigits2 (Z.pos p) <= B) by (apply Zdigits2_le; lia).
  pose proof (Zdigits2_nonneg (Z.pos mz)).
  eapply within_weaken; [apply binary_round_aux_within | | ]; lia.
Qed.

Lemma float_of_int_ok n B :
  0 <= n -> n < 2 ^ B -> 0 <= B <= 1023 ->
  exists x, float_of_int n = Ok x /\ within false (B + 1) (Z.max 0 (B - 52)) x.
Proof.
  intros Hn Hlt HB. pose proof (round_int_within n B Hn Hlt HB) as W.
  unfold float_of_int. destruct (round_int n) as [ s' | s' | | s' m e ];
    try contradiction; eexists; split; reflexivity || exact W.
Qed.

(** *** Product *)

Lemma SFmul_within Lx Ex Ly Ey x y :
  within false Lx Ex x -> within false Ly Ey y ->
  Ex + Ey <= 971 -> Lx + Ly <= 1023 ->
  within false (Z.max (Lx + Ly) (-1074) + 1) 971 (SFmul prec emax x y).
Proof.
  intros Wx Wy HE HL.
  destruct x as [ sx | sx | | sx mx ex ]; try contradiction;
    destruct y as [ sy | sy | | sy my ey ]; try contradiction;
    cbn [within] in Wx, Wy.
  - subst. reflexivity.
  - destruct Wy as [-> _]. subst. reflexivity.
  - destruct Wx as [-> _]. subst. reflexivity.
  - destruct Wx as (-> & Dx & Hex & Hlx). destruct Wy as (-> & Dy & Hey & Hly).
    cbn [SFmul xorb].
    pose proof (Zdigits2_mul (Z.pos mx) (Z.pos my) ltac:(lia) ltac:(lia)) as M.
    cbn [Zdigits2 Z.mul] in M.
    eapply within_weaken; [apply binary_round_aux_within | | ];
      cbn [Zdigits2]; lia.
Qed.

Lemma int_of_float_within L E x :
  within false L E x -> exists v, int_of_float x = Ok v /\ 0 <= v.
Proof.
  destruct x as [ s | s | | s m e ]; cbn; try contradiction.
  - intros _. exists 0. split; [reflexivity | lia].
  - intros (-> & _). eexists. split; [reflexivity | ].
    cbn. apply Z.shiftl_nonneg. lia.
Qed.

Lemma int_of_product_ok n B y Ly Ey :
  0 <= n -> n < 2 ^ B -> 0 <= B <= 1023 ->
  within false Ly Ey y ->
  Z.max 0 (B - 52) + Ey <= 971 -> B + 1 + Ly <= 1023 ->
  exists v, int_of_product n y = Ok v /\ 0 <= v.
Proof.
  intros Hn Hlt HB Wy HE HL.
  destruct (float_of_int_ok n B Hn Hlt HB) as (x & Ex & Wx).
  unfold int_of_product, int_mul_float. rewrite Ex. cbn [bind].
  eapply int_of_float_within, SFmul_within; eassumption.
Qed.

(** *** Quotient of two ints *)

Lemma round_quotient_within a b B :
  0 <= a -> a < 2 ^ B -> 0 <= B <= 1023 -> 0 < b ->
  within false (B + 1) (Z.max 0 (B - 52)) (round_quotient a b).
Proof.
  intros Ha Hlt HB Hb. unfold round_quotient, SFdiv_core_binary.
  rewrite (Z.abs_eq a), (Z.abs_eq b) by lia.
  replace (a <? 0) with false by (symmetry; apply Z.ltb_ge; lia).
  replace (b <? 0) with false by (symmetry; apply Z.ltb_ge; lia).
  cbn [xorb].
  set (e' := Z.min (fexp prec emax (Zdigits2 a + 0 - (Zdigits2 b + 0))) (0 - 0)).
  set (m' := match 0 - 0 - e' with
             | 0 => a
             | Z.pos _ => Z.shiftl a (0 - 0 - e')
             | Z.neg _ => 0
             end).
  assert (He' : e' <= 0) by (unfold e'; lia).
  assert (Hm' : 0 <= m' /\ Zdigits2 m' + e' <= Zdigits2 a).
  { unfold m'. destruct (0 - 0 - e') as [ | s | s ] eqn:Es.
    - split; lia.
    - rewrite Z.shiftl_mul_pow2 by lia.
      assert (0 < 2 ^ Z.pos s) by (apply Z.pow_pos_nonneg; lia).
      split; [nia | ].
      assert (Zdigits2 (a * 2 ^ Z.pos s) <= Zdigits2 a + Z.pos s); [ | lia ].
      pose proof (Zdigits2_gt a Ha). pose proof (Zdigits2_nonneg a).
      apply Zdigits2_le; [nia | lia | ]. rewrite Z.pow_add_r by lia.
      apply Z.mul_lt_mono_pos_r; lia.
    - lia. }
  destruct Hm' as [Hm0 Hmd].
  pose proof (Z_div_mod m' b ltac:(lia)) as DM.
  destruct (Z.div_eucl m' b) as [q r]. destruct DM as [DM R].
  assert (Hq : 0 <= q <= m') by nia.
  assert (D : Zdigits2 a <= B) by (apply Zdigits2_le; lia).
  pose proof (Zdigits2_mono q m' Hq). pose proof (Zdigits2_nonneg q).
  eapply within_weaken; [apply binary_round_aux_within | | ]; lia.
Qed.

Lemma true_divide_ok a b B :
  0 <= a -> a < 2 ^ B -> 0 <= B <= 1023 -> 0 < b ->
  exists f, true_divide a b = Ok f /\ within false (B + 1) (Z.max 0 (B - 52)) f.
Proof.
  intros Ha Hlt HB Hb. pose proof (round_quotient_within a b B Ha Hlt HB Hb) as W.
  unfold true_divide. destruct (Z.eqb_spec b 0); [lia | ].
  destruct (round_quotient a b) as [ s' | s' | | s' m e ];
    try contradiction; eexists; split; reflexivity || exact W.
Qed.

(** *** The literals of the source *)

Lemma literals_within :
  Forall (within false (-1) (-54))
    [ literal 1 10; literal 35 100; literal 25 100; literal 20 100;
      literal 15 100; literal 5 100 ].
Proof. repeat constructor; vm_compute; intros; discriminate. Qed.

(** *** The 10% test below [2 ^ 52] *)

(** *** The round bit *)

Lemma Zdigits2_ge m j : 2 ^ (j - 1) <= m -> 0 < m -> j <= Zdigits2 m.
Proof.
  intros H Hm. pose proof (Zdigits2_gt m ltac:(lia)) as G.
  pose proof (Zdigits2_nonneg m).
  destruct (Z.le_gt_cases j (Zdigits2 m)) as [ | C ]; [assumption | exfalso ].
  assert (2 ^ Zdigits2 m <= 2 ^ (j - 1)) by (apply Z.pow_le_mono_r; lia). lia.
Qed.

(** [round_bit M K mrs]: [mrs] is [M] shifted right by [K] bits, and its
    round bit is set only when the bits shifted out are at least half. *)
Definition round_bit (M K : Z) (mrs : shr_record) : Prop :=
  shr_m mrs = M / 2 ^ K /\ (shr_r mrs = true -> 2 ^ K <= 2 * (M mod 2 ^ K)).

Lemma shr_1_round_bit M K mrs :
  0 <= M -> 0 <= K -> round_bit M K mrs -> round_bit M (K + 1) (shr_1 mrs).
Proof.
  intros HM HK [Hm Hr].
  assert (P : 0 < 2 ^ K) by (apply Z.pow_pos_nonneg; lia).
  assert (N : 0 <= shr_m mrs) by (rewrite Hm; apply Z.div_pos; lia).
  split.
  - rewrite shr_1_m, Hm by assumption. rewrite Z.div_div by lia.
    rewrite Z.pow_add_r by lia. reflexivity.
  - intros R.
    assert (O : shr_m mrs mod 2 = 1).
    { destruct mrs as [m r s]. cbn [shr_m] in *. clear Hr Hm.
      destruct m as [ | [ p | p | ] | p ]; cbn in R; try discriminate; try lia.
      - rewrite Pos2Z.inj_xI. rewrite Z.add_comm, Z.mul_comm, Z.mod_add by lia. reflexivity.
      - reflexivity. }
    rewrite Z.pow_add_r by lia. change (2 ^ 1) with 2.
    rewrite Z.rem_mul_r by lia. rewrite <- Hm, O.
    pose proof (Z.mod_pos_bound M (2 ^ K) P). lia.
Qed.

Lemma iter_shr_1_round_bit M p : forall K mrs,
  0 <= M -> 0 <= K -> round_bit M K mrs ->
  round_bit M (K + Z.pos p) (iter_pos shr_1 p mrs).
Proof.
  induction p as [ p IH | p IH | ]; intros K mrs HM HK I; cbn [iter_pos].
  - replace (K + Z.pos p~1) with (K + 1 + Z.pos p + Z.pos p) by lia.
    apply IH; [assumption | lia | ]. apply IH; [assumption | lia | ].
    apply shr_1_round_bit; assumption.
  - replace (K + Z.pos p~0) with (K + Z.pos p + Z.pos p) by lia.
    apply IH; [assumption | lia | ]. apply IH; assumption.
  - apply shr_1_round_bit; assumption.
Qed.

(** Rounding an exact [M] after a shift by [k]: the mantissa is the
    quotient, or its successor when the remainder is at least half. *)
Lemma shr_fexp_exact_round M e :
  0 <= M ->
  let k := Z.max 0 (fexp prec emax (Zdigits2 M + e) - e) in
  let mrs := fst (shr_fexp prec emax M e loc_Exact) in
  let m' := round_nearest_even (shr_m mrs) (loc_of_shr_record mrs) in
  shr_m mrs = M / 2 ^ k
  /\ (m' = M / 2 ^ k \/ (m' = M / 2 ^ k + 1 /\ 2 ^ k <= 2 * (M mod 2 ^ k))).
Proof.
  intros HM k mrs m'.
  assert (I : round_bit M k mrs).
  { subst mrs k. unfold shr_fexp, shr.
    destruct (fexp prec emax (Zdigits2 M + e) - e) as [ | p | p ]; cbn [fst].
    - split; cbn; [rewrite Z.div_1_r; reflexivity | discriminate].
    - rewrite Z.max_r by lia.
      apply (iter_shr_1_round_bit M p 0); [assumption | lia | ].
      split; cbn; [rewrite Z.div_1_r; reflexivity | discriminate].
    - split; cbn; [rewrite Z.div_1_r; reflexivity | discriminate]. }
  destruct I as [Hm Hr]. split; [exact Hm | ].
  subst m'. rewrite <- Hm. destruct mrs as [m r s]. cbn [shr_m shr_r] in *.
  destruct r, s; cbn; auto.
  destruct (Z.even m); auto.
Qed.

Lemma Zdigits2_lower m : 0 < m -> 2 ^ (Zdigits2 m - 1) <= m.
Proof.
  destruct m as [ | p | p ]; cbn [Zdigits2]; intros H; try lia.
  rewrite digits2_pos_size. pose proof (Pos.size_le p) as L.
  assert (Z.pos (2 ^ Pos.size p) <= Z.pos p~0) by lia.
  rewrite Pos2Z.inj_pow in H0.
  replace (Z.pos (Pos.size p)) with (Z.pos (Pos.size p) - 1 + 1) in H0 by lia.
  rewrite Z.pow_add_r in H0 by lia. lia.
Qed.

Lemma Zdigits2_eq m j : 2 ^ (j - 1) <= m < 2 ^ j -> 0 < j -> Zdigits2 m = j.
Proof.
  intros [L G] Hj.
  assert (0 < m) by (pose proof (Z.pow_pos_nonneg 2 (j - 1)); lia).
  pose proof (Zdigits2_le m j). pose proof (Zdigits2_ge m j). lia.
Qed.

Lemma shl_align_exact mx ex ex' :
  Z.pos (fst (shl_align mx ex ex')) = Z.pos mx * 2 ^ (ex - snd (shl_align mx ex ex'))
  /\ snd (shl_align mx ex ex') = Z.min ex ex'.
Proof.
  unfold shl_align. destruct (ex' - ex) as [ | d | d ] eqn:E; cbn [fst snd].
  - rewrite Z.sub_diag. cbn. lia.
  - rewrite Z.sub_diag. cbn. lia.
  - rewrite iter_xO. replace (ex - ex') with (Z.pos d) by lia. lia.
Qed.

(** A mantissa of 53 bits with an exponent in range is kept as it is. *)
Lemma binary_round_aux_exact s m e :
  2 ^ 52 <= Z.pos m < 2 ^ 53 -> -1074 <= e <= 971 ->
  binary_round_aux prec emax s (Z.pos m) e loc_Exact = S754_finite s m e.
Proof.
  intros Hm He.
  assert (D : Zdigits2 (Z.pos m) = 53) by (apply Zdigits2_eq; lia).
  assert (S : shr_fexp prec emax (Z.pos m) e loc_Exact
              = ({| shr_m := Z.pos m; shr_r := false; shr_s := false |}, e)).
  { unfold shr_fexp. rewrite D.
    replace (fexp prec emax (53 + e) - e) with 0
      by (unfold fexp, emin, prec, emax; lia).
    reflexivity. }
  unfold binary_round_aux. rewrite S. cbn [shr_m loc_of_shr_record round_nearest_even].
  rewrite S. cbn [shr_m].
  destruct (Z.leb_spec e (emax - prec)); [reflexivity | unfold emax, prec in *; lia].
Qed.

(** An int below [2 ^ 53] is converted exactly. *)
Lemma float_of_int_exact u :
  0 < u < 2 ^ 53 ->
  exists m,
    float_of_int u = Ok (S754_finite false m (Zdigits2 u - 53))
    /\ Z.pos m = u * 2 ^ (53 - Zdigits2 u)
    /\ 2 ^ 52 <= Z.pos m < 2 ^ 53.
Proof.
  intros Hu. destruct u as [ | p | p ]; try lia.
  pose proof (Zdigits2_lower (Z.pos p) ltac:(lia)) as L.
  pose proof (Zdigits2_gt (Z.pos p) ltac:(lia)) as G.
  assert (D : 1 <= Zdigits2 (Z.pos p) <= 53).
  { split; [cbn; lia | apply Zdigits2_le; lia]. }
  unfold float_of_int, round_int, binary_normalize, binary_round.
  pose proof (shl_align_exact p 0 (fexp prec emax (Z.pos (digits2_pos p) + 0))) as [A1 A2].
  destruct (shl_align p 0 _) as [mz ez]. cbn [fst snd] in A1, A2.
  change (Z.pos (digits2_pos p)) with (Zdigits2 (Z.pos p)) in *.
  set (d := Zdigits2 (Z.pos p)) in *.
  assert (Ez : ez = d - 53) by (unfold fexp, emin, prec, emax in A2; lia).
  clear A2. subst ez. replace (0 - (d - 53)) with (53 - d) in A1 by lia.
  assert (B : 2 ^ 52 <= Z.pos mz < 2 ^ 53).
  { assert (E52 : 2 ^ 52 = 2 ^ (d - 1) * 2 ^ (53 - d))
      by (rewrite <- Z.pow_add_r by lia; f_equal; lia).
    assert (E53 : 2 ^ 53 = 2 ^ d * 2 ^ (53 - d))
      by (rewrite <- Z.pow_add_r by lia; f_equal; lia).
    assert (0 < 2 ^ (53 - d)) by (apply Z.pow_pos_nonneg; lia).
    rewrite A1, E52, E53.
    split; [apply Z.mul_le_mono_nonneg_r | apply Z.mul_lt_mono_pos_r]; lia. }
  rewrite binary_round_aux_exact by lia.
  exists mz. repeat split; assumption || lia.
Qed.

Lemma literal_tenth : literal 1 10 = S754_finite false 7205759403792794 (-56).
Proof. vm_compute. reflexivity. Qed.

(** The heart of the 10% test: the mantissa [m'] the product is rounded to
    is below [n] scaled exactly when [u < 10 * n]. *)
Lemma tenth_mantissa (U Bn P M m1 rem m' k c16 : Z) :
  2 <= P -> 0 <= Bn ->
  M = U * 7205759403792794 ->
  M = 2 ^ k * m1 + rem -> 0 <= rem < 2 ^ k ->
  (m' = m1 \/ (m' = m1 + 1 /\ 2 ^ k <= 2 * rem)) ->
  m' <= 2 ^ 53 ->
  (k = 52 /\ c16 = 16) \/ (k = 53 /\ c16 = 8) ->
  ((U + P <= 10 * Bn) \/ (10 * Bn <= U)) ->
  (m' < c16 * Bn <-> U + P <= 10 * Bn).
Proof.
  intros HP HB HM HD HR Hm' Hle Hk Hcase.
  destruct Hk as [[-> ->] | [-> ->]];
    change (2 ^ 52) with 4503599627370496 in *;
    change (2 ^ 53) with 9007199254740992 in *;
    lia.
Qed.

(** The product of a 53-bit mantissa with the mantissa of 0.1 is rounded to
    [m'], at exponent [e1]: the facts the test needs. *)
Lemma tenth_product (mz : positive) (ez : Z) :
  2 ^ 52 <= Z.pos mz < 2 ^ 53 -> -52 <= ez <= -1 ->
  exists m2 e2 m' m1 rem k,
    binary_round_aux prec emax false (Z.pos (mz * 7205759403792794)) (ez + -56) loc_Exact
    = S754_finite false m2 e2
    /\ e2 < 0
    /\ Z.pos mz * 7205759403792794 = 2 ^ k * m1 + rem
    /\ 0 <= rem < 2 ^ k
    /\ (m' = m1 \/ (m' = m1 + 1 /\ 2 ^ k <= 2 * rem))
    /\ m' <= 2 ^ 53
    /\ ((k = 52 /\ 2 ^ (- e2) * (m' / Z.pos m2) = 2 ^ (-ez) * 16)
        \/ (k = 53 /\ 2 ^ (- e2) * (m' / Z.pos m2) = 2 ^ (-ez) * 8))
    /\ m' = Z.pos m2 * (m' / Z.pos m2).
Proof.
  intros Bz Hez.
  remember (Z.pos (mz * 7205759403792794)) as M eqn:HM.
  rewrite Pos2Z.inj_mul in HM.
  change (2 ^ 52) with 4503599627370496 in Bz.
  change (2 ^ 53) with 9007199254740992 in Bz.
  assert (BM : 20282409603651670423947251286016 <= M < 81129638414606681695789005144064) by lia.
  assert (HdM : Zdigits2 M = 105 \/ Zdigits2 M = 106).
  { pose proof (Zdigits2_ge M 105) as A. pose proof (Zdigits2_le M 106) as B.
    change (2 ^ (105 - 1)) with 20282409603651670423947251286016 in A.
    change (2 ^ 106) with 81129638414606681695789005144064 in B. lia. }
  pose proof (Zdigits2_lower M ltac:(lia)) as LM.
  pose proof (Zdigits2_gt M ltac:(lia)) as GM.
  unfold binary_round_aux.
  pose proof (shr_fexp_exact_round M (ez + -56) ltac:(lia)) as R1. cbv zeta in R1.
  pose proof (shr_fexp_spec M (ez + -56) loc_Exact ltac:(lia)) as S1. cbv zeta in S1.
  destruct (shr_fexp prec emax M (ez + -56) loc_Exact) as [mrs1 e1]. cbn [fst snd] in R1, S1.
  destruct R1 as [M1 R1]. destruct S1 as [_ E1].
  remember (round_nearest_even (shr_m mrs1) (loc_of_shr_record mrs1)) as m' eqn:Hm'.
  remember (Z.max 0 (fexp prec emax (Zdigits2 M + (ez + -56)) - (ez + -56))) as k eqn:Hk0.
  assert (Hk : k = Zdigits2 M - 53) by (unfold fexp, emin, prec, emax in Hk0; lia).
  clear Hk0.
  assert (Pk : 0 < 2 ^ k) by (apply Z.pow_pos_nonneg; lia).
  pose proof (Z.div_mod M (2 ^ k) ltac:(lia)) as DM.
  pose proof (Z.mod_pos_bound M (2 ^ k) Pk) as RB.
  remember (M / 2 ^ k) as m1 eqn:Hm1. remember (M mod 2 ^ k) as rem eqn:Hrem.
  clear Hm1 Hrem Hm' M1.
  assert (Hkv : (k = 52 /\ 2 ^ k = 4503599627370496) \/ (k = 53 /\ 2 ^ k = 9007199254740992)).
  { destruct HdM as [Q | Q]; rewrite Q in Hk; [left | right]; subst k; split; reflexivity. }
  assert (B1 : 4503599627370496 <= m1 < 9007199254740992).
  { destruct HdM as [Q | Q]; rewrite Q in LM, GM;
      [ change (2 ^ (105 - 1)) with 20282409603651670423947251286016 in LM;
        change (2 ^ 105) with 40564819207303340847894502572032 in GM
      | change (2 ^ (106 - 1)) with 40564819207303340847894502572032 in LM;
        change (2 ^ 106) with 81129638414606681695789005144064 in GM ];
      destruct Hkv as [[K V] | [K V]]; rewrite V in *; lia. }
  assert (Bm' : 4503599627370496 <= m' <= 9007199254740992) by lia.
  pose proof (shr_fexp_spec m' e1 loc_Exact ltac:(lia)) as S2. cbv zeta in S2.
  destruct (shr_fexp prec emax m' e1 loc_Exact) as [mrs2 e2]. cbn [fst snd] in S2.
  destruct S2 as [M2 E2].
  destruct (Z.eq_dec m' 9007199254740992) as [Top | NotTop].
  - assert (D54 : Zdigits2 m' = 54) by (rewrite Top; reflexivity).
    rewrite D54 in *.
    replace (Z.max 0 (fexp prec emax (54 + e1) - e1)) with 1 in *
      by (unfold fexp, emin, prec, emax; lia).
    rewrite Top in M2. change (9007199254740992 / 2 ^ 1) with (Z.pos 4503599627370496) in M2.
    rewrite M2.
    destruct (Z.leb_spec e2 (emax - prec)); [ | unfold emax, prec in *; lia ].
    exists 4503599627370496%positive, e2, m', m1, rem, k.
    rewrite Top. change (9007199254740992 / 4503599627370496) with 2.
    split; [reflexivity | ]. split; [lia | ]. split; [lia | ]. split; [lia | ].
    split; [rewrite <- Top; exact R1 | ]. split; [reflexivity | ].
    split; [ | reflexivity ].
    replace (- e2) with (- ez + (55 - k)) by lia.
    rewrite Z.pow_add_r by lia.
    destruct Hkv as [[K V] | [K V]]; [left | right]; (split; [exact K | ]); rewrite K.
    + change (2 ^ (55 - 52)) with 8. lia.
    + change (2 ^ (55 - 53)) with 4. lia.
  - assert (D53 : Zdigits2 m' = 53).
    { apply Zdigits2_eq; [ | lia ].
      change (2 ^ (53 - 1)) with 4503599627370496.
      change (2 ^ 53) with 9007199254740992. lia. }
    rewrite D53 in *.
    replace (Z.max 0 (fexp prec emax (53 + e1) - e1)) with 0 in *
      by (unfold fexp, emin, prec, emax; lia).
    rewrite Z.pow_0_r, Z.div_1_r in M2. rewrite M2.
    destruct m' as [ | pm | pm ]; [lia | | lia].
    destruct (Z.leb_spec e2 (emax - prec)); [ | unfold emax, prec in *; lia ].
    exists pm, e2, (Z.pos pm), m1, rem, k.
    rewrite Z.div_same by lia.
    split; [reflexivity | ]. split; [lia | ]. split; [lia | ]. split; [lia | ].
    split; [exact R1 | ]. split; [change (2 ^ 53) with 9007199254740992; lia | ].
    split; [ | lia ].
    replace (- e2) with (- ez + (56 - k)) by lia.
    rewrite Z.pow_add_r by lia.
    destruct Hkv as [[K V] | [K V]]; [left | right]; (split; [exact K | ]); rewrite K.
    + change (2 ^ (56 - 52)) with 16. lia.
    + change (2 ^ (56 - 53)) with 8. lia.
Qed.

(** Below [2 ^ 52] the test of line 69 is the exact comparison. *)
Lemma tenth_test u n :
  0 < u < 2 ^ 52 -> 0 <= n ->
  exists x, int_mul_float u (literal 1 10) = Ok x
            /\ int_gt_float n x = (u <? 10 * n).
Proof.
  intros Hu Hn.
  destruct (float_of_int_exact u ltac:(lia)) as (mz & Ef & Vz & Bz).
  assert (D : 1 <= Zdigits2 u <= 52).
  { split; [apply Zdigits2_ge; cbn; lia | apply Zdigits2_le; lia]. }
  remember (Zdigits2 u - 53) as ez eqn:Hez.
  replace (53 - Zdigits2 u) with (- ez) in Vz by lia.
  assert (Rz : -52 <= ez <= -1) by lia. clear Hez D.
  unfold int_mul_float. rewrite Ef. cbn [bind]. eexists. split; [reflexivity | ].
  rewrite literal_tenth. cbn [SFmul xorb].
  destruct (tenth_product mz ez Bz Rz)
    as (m2 & e2 & m' & m1 & rem & k & -> & He2 & HM & HR & Hm' & Hle & Hk & Hq).
  cbn [int_gt_float cond_Zopp].
  destruct (Z.leb_spec 0 e2); [lia | ].
  rewrite Z.shiftl_mul_pow2 by lia.
  assert (HP : 2 <= 2 ^ (- ez)).
  { change 2 with (2 ^ 1) at 1. apply Z.pow_le_mono_r; lia. }
  assert (HT : 0 < 2 ^ (- e2)) by (apply Z.pow_pos_nonneg; lia).
  remember (2 ^ (- ez)) as P eqn:HeqP. remember (2 ^ (- e2)) as T eqn:HeqT.
  remember (m' / Z.pos m2) as q eqn:Heqq. clear HeqP HeqT Heqq.
  assert (HnP : 0 <= n * P) by (apply Z.mul_nonneg_nonneg; lia).
  assert (Hiff : Z.pos mz + P <= 10 * (n * P) <-> u < 10 * n).
  { rewrite Vz. replace (u * P + P) with ((u + 1) * P) by ring.
    replace (10 * (n * P)) with (10 * n * P) by ring.
    rewrite <- Z.mul_le_mono_pos_r by lia. lia. }
  assert (Hcase : (Z.pos mz + P <= 10 * (n * P)) \/ (10 * (n * P) <= Z.pos mz)).
  { destruct (Z.lt_ge_cases u (10 * n)) as [L | G]; [left; apply Hiff, L | right].
    rewrite Vz. replace (10 * (n * P)) with (10 * n * P) by ring.
    apply Z.mul_le_mono_nonneg_r; lia. }
  assert (Key : exists c16, 0 < c16 /\ T * q = P * c16
                  /\ (m' < c16 * (n * P) <-> Z.pos mz + P <= 10 * (n * P))).
  { destruct Hk as [[K Q] | [K Q]].
    - exists 16. split; [lia | ]. split; [exact Q | ].
      exact (tenth_mantissa (Z.pos mz) (n * P) P (Z.pos mz * 7205759403792794)
               m1 rem m' k 16 HP HnP eq_refl HM HR Hm' Hle
               (or_introl (conj K eq_refl)) Hcase).
    - exists 8. split; [lia | ]. split; [exact Q | ].
      exact (tenth_mantissa (Z.pos mz) (n * P) P (Z.pos mz * 7205759403792794)
               m1 rem m' k 8 HP HnP eq_refl HM HR Hm' Hle
               (or_intror (conj K eq_refl)) Hcase). }
  destruct Key as (c16 & Hc & Q & Key).
  assert (Hq0 : 0 < q).
  { apply (Z.mul_pos_cancel_l T q HT). rewrite Q. apply Z.mul_pos_pos; lia. }
  assert (Scale : Z.pos m2 < n * T <-> m' < c16 * (n * P)).
  { rewrite Hq. replace (c16 * (n * P)) with (n * T * q)
      by (rewrite <- Z.mul_assoc, Q; ring).
    apply Z.mul_lt_mono_pos_r, Hq0. }
  destruct (Z.ltb_spec (Z.pos m2) (n * T)); destruct (Z.ltb_spec u (10 * n));
    try reflexivity; exfalso; tauto || lia.
Qed.

End NumFacts.

(** ** Which exceptions the arithmetic can raise *)









(** ** Consequences for the reconciliation *)

(** Below [2 ^ 52] the test of line 69 compares exactly. *)
Lemma differs_significantly_exact response_total budget :
  0 < budget < 2 ^ 52 ->
  differs_significantly response_total budget
  = Ok (budget <? 10 * Z.abs (response_total - budget)).
Proof.
  intros H. unfold differs_significantly.
  destruct (NumFacts.tenth_test budget (Z.abs (response_total - budget)) H
              (Z.abs_nonneg _)) as (x & -> & E).
  cbn [bind]. rewrite E. reflexivity.
Qed.

Lemma sum_nonneg xs : Forall (fun x => 0 <= x) xs -> 0 <= sum xs.
Proof.
  induction 1 as [ | x xs Hx _ IH ]; [cbn; lia | ]. rewrite sum_cons. lia.
Qed.

Lemma amounts_within_sum d :
  Forall (fun kv => 0 <= snd kv) d ->
  Forall (fun kv => 0 <= snd kv <= sum (values d)) d.
Proof.
  induction 1 as [ | [k v] d Hv Hd IH ]; [constructor | ].
  unfold values. cbn [map snd]. rewrite sum_cons. cbn [snd] in Hv.
  assert (0 <= sum (map snd d)).
  { apply sum_nonneg. rewrite Forall_map. exact Hd. }
  constructor; [cbn; lia | ].
  eapply Forall_impl; [ | exact IH ]. cbn. unfold values. intros kv. lia.
Qed.

Lemma above_threshold_nonneg d :
  above_threshold d -> Forall (fun kv => 0 <= snd kv) d.
Proof. apply Forall_impl. intros kv. lia. Qed.

(** The comprehension of lines 72-75 returns when the numbers are in range. *)
Lemma scale_breakdown_ok breakdown f B Lf Ef :
  Forall (fun kv => 0 <= snd kv < 2 ^ B) breakdown ->
  0 <= B <= 1023 ->
  NumFacts.within false Lf Ef f ->
  Z.max 0 (B - 52) + Ef <= 971 -> B + 1 + Lf <= 1023 ->
  exists budget_data,
    scale_breakdown breakdown f = Ok budget_data
    /\ Forall2 (fun old new =>
                  fst new = fst old
                  /\ int_of_product (snd old) f = Ok (snd new)
                  /\ 0 <= snd new)
         breakdown budget_data.
Proof.
  intros Hb HB Wf HE HL.
  induction Hb as [ | [c a] breakdown Ha _ IH ]; cbn [scale_breakdown].
  - exists []. split; [reflexivity | constructor].
  - cbn [snd] in Ha.
    destruct (NumFacts.int_of_product_ok a B f Lf Ef) as (v & Ev & Hv);
      try assumption; try lia.
    destruct IH as (data & Ed & F). rewrite Ev, Ed. cbn [bind].
    exists ((c, v) :: data). split; [reflexivity | ].
    constructor; [cbn; auto | exact F].
Qed.

(** The three branches of lines 62-89, on the outcome of the test. *)
Lemma reconcile_far budget kv breakdown :
  budget <> 0 ->
  differs_significantly (sum (values (kv :: breakdown))) budget = Ok true ->
  reconcile (Some budget) (kv :: breakdown)
  = (scale_factor <- Num.true_divide budget (sum (values (kv :: breakdown))) ;;
     budget_data <- scale_breakdown (kv :: breakdown) scale_factor ;;
     Ok (Some (budget_data, budget, scaled))).
Proof.
  intros Hn Hd. unfold reconcile. rewrite (stated_positive budget Hn), Hd.
  reflexivity.
Qed.

Lemma reconcile_close budget kv breakdown :
  differs_significantly (sum (values (kv :: breakdown))) budget = Ok false ->
  reconcile (Some budget) (kv :: breakdown)
  = Ok (Some (kv :: breakdown, sum (values (kv :: breakdown)), specific)).
Proof.
  intros Hd. unfold reconcile.
  destruct (stated (Some budget)) as [ n | ] eqn:E; [ | reflexivity ].
  apply stated_some in E. destruct E as [[= <-] _]. rewrite Hd. reflexivity.
Qed.

Lemma reconcile_nothing_parsed budget :
  budget <> 0 ->
  reconcile (Some budget) []
  = (budget_data <- estimated_breakdown budget ;;
     Ok (Some (budget_data, budget, estimated))).
Proof. intros Hn. unfold reconcile. rewrite (stated_positive budget Hn). reflexivity. Qed.

(** ** Sample conversations, in Basic Latin *)

Definition run : text -> text -> result extraction :=
  @extract_budget_from_response basic_latin.

Definition trip_for_text (amount : text) : text :=
  lit "Plan a trip to Goa for " ++ rupee :: amount.
Definition trip_for (amount : string) : text := trip_for_text (lit amount).

Definition reply_4000_2000 : text := lit "Accommodation: 4000, Transport: 2000".
Definition reply_5000_4800 : text := lit "Accommodation: 5,000 and Food - 4800".
Definition reply_3900 : text := lit "Food: 3900".
Definition reply_without_amounts : text := lit "Goa is lovely in winter.".
Definition reply_food_thrice : text :=
  lit "Food: 300, food 700 for 2 people, " ++ rupee :: lit "600 per food".

(** The digits of [10 ^ 400], a number too large for a float. *)
Definition digits_of_10_to_400 : text := lit "1" ++ repeat (N_of_ascii "0") 400.

(** The arithmetic of the specification's words, in exact integers: an amount
    "multiplied by userTotal / responseTotal, truncated", and a share of
    "35%, 25%, ... of userTotal, truncated". *)
Definition exact_scaled (amount userTotal responseTotal : Z) : Z :=
  Z.quot (amount * userTotal) responseTotal.

Definition exact_share (percent userTotal : Z) : Z :=
  Z.quot (percent * userTotal) 100.

Definition fresh_session : session_state :=
  {| latest_budget := None; budget_total := None; show_budget_input := true |}.

Section Claims.
Context {U : UnicodeData}.

(** C7. For every reply text, no amount below 500 is a value of what the
    parser returns: every value is an amount found by a pattern of its
    category and is at least 500. *)
Theorem amounts_below_threshold_discarded (response_text : text) (breakdown : dict) :
  response_breakdown response_text = Ok breakdown ->
  (forall c a, In (c, a) breakdown -> 500 <= a)
  /\ (forall c a, dict_get breakdown c = Some a ->
        In a (amounts_found (pattern_list c) (str_lower response_text))
        /\ ~ a < 500).
Proof.
  intros E. apply response_breakdown_parsed in E. subst breakdown. split.
  - intros c a I. pose proof (parsed_above response_text) as A.
    unfold above_threshold in A. rewrite Forall_forall in A.
    apply (A (c, a) I).
  - intros c a G. rewrite parsed_get in G. apply maximum_in in G.
    unfold surviving in G. apply filter_In in G. destruct G as [I T].
    split; [exact I | ]. apply Z.leb_le in T. lia.
Qed.

(** C10. When the first rupee amount of the user's input is 0, the call
    behaves as with an input that states no amount at all: it is the call
    with such an input, whatever the reply. When the parser returns, the
    parsed breakdown is returned as it is, tagged specific, when it is not
    empty, and nothing is returned otherwise; when the parser raises, so
    does the call. Nothing is scaled or estimated. *)
Theorem zero_budget_is_no_budget (response_text user_input : text) :
  user_budget user_input = Ok (Some 0) ->
  (forall other_input,
     user_budget other_input = Ok None ->
     extract_budget_from_response response_text user_input
     = extract_budget_from_response response_text other_input)
  /\ (forall breakdown,
        response_breakdown response_text = Ok breakdown ->
        extract_budget_from_response response_text user_input
        = Ok match breakdown with
             | [] => None
             | _ :: _ => Some (breakdown, sum (values breakdown), specific)
             end)
  /\ (forall e,
        response_breakdown response_text = Raise e ->
        extract_budget_from_response response_text user_input = Raise e).
Proof.
  intros Hu. unfold extract_budget_from_response. rewrite Hu. cbn [bind].
  split; [ | split ].
  - intros other Ho. rewrite Ho. cbn [bind].
    destruct (response_breakdown response_text); reflexivity.
  - intros breakdown ->. cbn [bind]. unfold reconcile.
    change (stated (Some 0)) with (@None Z). destruct breakdown; reflexivity.
  - intros e ->. reflexivity.
Qed.

(** What the user's budget and the parsed breakdown are known to satisfy. *)
Lemma parsed_inputs (response_text user_input : text) (budget : Z) (breakdown : dict) :
  user_budget user_input = Ok (Some budget) ->
  response_breakdown response_text = Ok breakdown ->
  0 <= budget /\ above_threshold breakdown.
Proof.
  intros Hu Hb. split.
  - apply (user_budget_nonneg user_input), Hu.
  - apply response_breakdown_parsed in Hb. subst breakdown. apply parsed_above.
Qed.

(** C6, as amended. With a stated total below [2 ^ 52] and a parsed
    breakdown that is not empty whose total differs from the stated one by
    at most 10% of the stated one, the parsed breakdown is returned unchanged,
    tagged specific, with the total of the reply. *)
Theorem close_breakdown_returned_as_is
    (response_text user_input : text) (budget : Z) (breakdown : dict) :
  user_budget user_input = Ok (Some budget) ->
  budget < 2 ^ 52 ->
  response_breakdown response_text = Ok breakdown ->
  breakdown <> [] ->
  10 * Z.abs (sum (values breakdown) - budget) <= budget ->
  extract_budget_from_response response_text user_input
  = Ok (Some (breakdown, sum (values breakdown), specific)).
Proof.
  intros Hu Hlt Hb Hne Hclose.
  destruct (parsed_inputs _ _ _ _ Hu Hb) as [H0 Habove].
  pose proof (sum_above breakdown Habove Hne) as Hsum.
  unfold extract_budget_from_response. rewrite Hu, Hb. cbn [bind].
  destruct breakdown as [ | kv breakdown ]; [contradiction | ].
  apply reconcile_close. rewrite differs_significantly_exact by lia.
  destruct (Z.ltb_spec budget (10 * Z.abs (sum (values (kv :: breakdown)) - budget)));
    [lia | reflexivity].
Qed.

(** C1, as amended. For every result that is not absent: tagged specific,
    the returned total is the sum of the returned amounts; tagged scaled or
    estimated, the returned total is the total the user stated, whatever the
    returned amounts add up to. *)
Theorem returned_total
    (response_text user_input : text) (budget_data : dict) (total : Z)
    (budget_type : provenance) :
  extract_budget_from_response response_text user_input
  = Ok (Some (budget_data, total, budget_type)) ->
  match budget_type with
  | specific => total = sum (values budget_data)
  | scaled | estimated => user_budget user_input = Ok (Some total) /\ total <> 0
  end.
Proof.
  unfold extract_budget_from_response. intros H.
  destruct (user_budget user_input) as [ budget | ] eqn:Hu; [ | discriminate ].
  destruct (response_breakdown response_text) as [ breakdown | ]; [ | discriminate ].
  cbn [bind] in H. unfold reconcile in H.
  destruct (stated budget) as [ n | ] eqn:Hs.
  - apply stated_some in Hs. destruct Hs as [-> Hn].
    destruct breakdown as [ | kv breakdown ].
    + destruct (estimated_breakdown n); [ | discriminate ].
      cbn in H. injection H as <- <- <-. auto.
    + destruct (differs_significantly _ n) as [ [ | ] | ]; cbn [bind] in H;
        [ | | discriminate ].
      * destruct (Num.true_divide n _); [ | discriminate ]. cbn [bind] in H.
        destruct (scale_breakdown _ _); [ | discriminate ].
        cbn in H. injection H as <- <- <-. auto.
      * injection H as <- <- <-. reflexivity.
  - destruct breakdown as [ | kv breakdown ]; [discriminate | ].
    injection H as <- <- <-. reflexivity.
Qed.



(** C2, as amended. With a stated total that is not zero and is below
    [2 ^ 52], and a parsed breakdown that is not empty whose total is below
    [2 ^ 500] and differs from the stated one by more than 10% of the stated
    one, the call divides the stated total by the total of the reply, which
    gives a float [scale_factor], and returns, tagged scaled with the stated
    total, the breakdown in which each amount is replaced by the integer part
    of its float product with [scale_factor]; no amount is negative. *)
Theorem far_breakdown_scaled
    (response_text user_input : text) (budget : Z) (breakdown : dict) :
  user_budget user_input = Ok (Some budget) ->
  budget <> 0 ->
  budget < 2 ^ 52 ->
  response_breakdown response_text = Ok breakdown ->
  breakdown <> [] ->
  sum (values breakdown) < 2 ^ 500 ->
  budget < 10 * Z.abs (sum (values breakdown) - budget) ->
  exists scale_factor budget_data,
    Num.true_divide budget (sum (values breakdown)) = Ok scale_factor
    /\ extract_budget_from_response response_text user_input
       = Ok (Some (budget_data, budget, scaled))
    /\ Forall2 (fun old new =>
                  fst new = fst old
                  /\ int_of_product (snd old) scale_factor = Ok (snd new)
                  /\ 0 <= snd new)
         breakdown budget_data.
Proof.
  intros Hu Hn Hlt Hb Hne Hsumlt Hfar.
  destruct (parsed_inputs _ _ _ _ Hu Hb) as [H0 Habove].
  pose proof (sum_above breakdown Habove Hne) as Hsum.
  assert (P52 : 2 ^ 52 < 2 ^ 500) by (apply Z.pow_lt_mono_r; lia).
  destruct (NumFacts.true_divide_ok budget (sum (values breakdown)) 500)
    as (f & Ef & Wf); try lia.
  destruct (scale_breakdown_ok breakdown f 500 501 448) as (data & Ed & F);
    try assumption; try lia.
  { pose proof (amounts_within_sum breakdown (above_threshold_nonneg _ Habove)) as A.
    eapply Forall_impl; [ | exact A ]. cbn. intros kv. lia. }
  exists f, data. split; [exact Ef | ]. split; [ | exact F ].
  unfold extract_budget_from_response. rewrite Hu, Hb. cbn [bind].
  destruct breakdown as [ | kv breakdown ]; [contradiction | ].
  rewrite reconcile_far, Ef; [ cbn [bind]; rewrite Ed; reflexivity | exact Hn | ].
  rewrite differs_significantly_exact by lia.
  destruct (Z.ltb_spec budget (10 * Z.abs (sum (values (kv :: breakdown)) - budget)));
    [reflexivity | lia].
Qed.

(** C5, as amended. With a stated total that is not zero and is below
    [2 ^ 1023], and no amount parsed from the reply, the call returns the
    estimated breakdown, tagged estimated, with the stated total: each share
    is the integer part of the float product of the total with the float
    nearest to 0.35, 0.25, 0.20, 0.15 and 0.05, and is not negative. *)
Theorem nothing_parsed_estimated
    (response_text user_input : text) (budget : Z) :
  user_budget user_input = Ok (Some budget) ->
  budget <> 0 ->
  budget < 2 ^ 1023 ->
  response_breakdown response_text = Ok [] ->
  exists a t f v m,
    int_of_product budget (Num.literal 35 100) = Ok a
    /\ int_of_product budget (Num.literal 25 100) = Ok t
    /\ int_of_product budget (Num.literal 20 100) = Ok f
    /\ int_of_product budget (Num.literal 15 100) = Ok v
    /\ int_of_product budget (Num.literal 5 100) = Ok m
    /\ extract_budget_from_response response_text user_input
       = Ok (Some ([ (accommodation, a); (transport, t); (food, f);
                     (activities, v); (miscellaneous, m) ],
                   budget, estimated))
    /\ 0 <= a /\ 0 <= t /\ 0 <= f /\ 0 <= v /\ 0 <= m.
Proof.
  intros Hu Hn Hlt Hb.
  destruct (parsed_inputs _ _ _ _ Hu Hb) as [H0 _].
  pose proof NumFacts.literals_within as LW. rewrite Forall_forall in LW.
  assert (S : forall num den,
             In (Num.literal num den)
                [ Num.literal 1 10; Num.literal 35 100; Num.literal 25 100;
                  Num.literal 20 100; Num.literal 15 100; Num.literal 5 100 ] ->
             exists x, int_of_product budget (Num.literal num den) = Ok x /\ 0 <= x).
  { intros num den I.
    apply (NumFacts.int_of_product_ok budget 1023 _ (-1) (-54));
      try lia; apply LW, I. }
  destruct (S 35 100) as (a & Ea & Ha); [cbn; auto | ].
  destruct (S 25 100) as (t & Et & Ht); [cbn; auto | ].
  destruct (S 20 100) as (f & Ef & Hf); [cbn; auto 6 | ].
  destruct (S 15 100) as (v & Ev & Hv); [cbn; auto 6 | ].
  destruct (S 5 100) as (m & Em & Hm); [cbn; auto 7 | ].
  exists a, t, f, v, m. repeat (split; [assumption | ]).
  split; [ | auto ].
  unfold extract_budget_from_response. rewrite Hu, Hb. cbn [bind].
  rewrite (reconcile_nothing_parsed budget Hn). unfold estimated_breakdown.
  rewrite Ea, Et, Ef, Ev, Em. reflexivity.
Qed.

End Claims.

(** The handler of the form (lines 560-574), when it runs. The entries that
    are not positive are dropped and the others kept, in the order of the
    form. When one is left, the session's latest budget becomes the entries
    left, the form is closed and the page is run again; no total and no
    provenance are recorded and nothing is drawn. When none is left the
    session is unchanged and nothing happens. *)
Lemma generate_visualization_stores (st : session_state) (a t f v m : Z) :
  0 <= a -> 0 <= t -> 0 <= f -> 0 <= v -> 0 <= m ->
  (forall c x, In (c, x) (manual_budget a t f v m)
               <-> In (c, x) (manual_entries a t f v m) /\ x <> 0)
  /\ (a + t + f + v + m <> 0 ->
      manual_budget a t f v m <> []
      /\ generate_visualization st a t f v m
         = ({| latest_budget := Some (manual_budget a t f v m);
               budget_total := budget_total st;
               show_budget_input := false |}, [], true))
  /\ (a + t + f + v + m = 0 -> generate_visualization st a t f v m = (st, [], false)).
Proof.
  intros Ha Ht Hf Hv Hm. split; [ | split ].
  - intros c x. unfold manual_budget. rewrite filter_In. cbn [snd].
    rewrite Z.ltb_lt. split; intros [I P]; (split; [exact I | ]).
    + lia.
    + cbn in I.
      repeat (destruct I as [ [= <- <-] | I ]; [lia | ]). contradiction.
  - intros N.
    assert (Hne : manual_budget a t f v m <> []).
    { unfold manual_budget, manual_entries. cbn.
      destruct (Z.ltb_spec 0 a); [discriminate | ].
      destruct (Z.ltb_spec 0 t); [discriminate | ].
      destruct (Z.ltb_spec 0 f); [discriminate | ].
      destruct (Z.ltb_spec 0 v); [discriminate | ].
      destruct (Z.ltb_spec 0 m); [discriminate | ]. lia. }
    split; [exact Hne | ]. unfold generate_visualization. cbv zeta.
    destruct (manual_budget a t f v m); [contradiction | reflexivity].
  - intros Z0. assert (a = 0 /\ t = 0 /\ f = 0 /\ v = 0 /\ m = 0) as (-> & -> & -> & -> & ->) by lia.
    reflexivity.
Qed.

(** ** The claims at sample conversations *)

(** C1 fails where the amounts are scaled: for a reply that gives 4000 and
    2000 to a user who stated 10000, the returned total is 10000 and the
    returned amounts, 6666 and 3333, add up to 9999. *)
Lemma scaled_total_differs_from_sum :
  exists budget_data total,
    run reply_4000_2000 (trip_for "10000") = Ok (Some (budget_data, total, scaled))
    /\ total <> sum (values budget_data).
Proof.
  exists [(accommodation, 6666); (transport, 3333)], 10000.
  split; [vm_compute; reflexivity | vm_compute; discriminate].
Qed.

Lemma returned_total_witness :
  run reply_5000_4800 (trip_for "10000")
  = Ok (Some ([(accommodation, 5000); (food, 4800)], 9800, specific))
  /\ 9800 = sum (values [(accommodation, 5000); (food, 4800)]).
Proof.
  split; [vm_compute; reflexivity | ].
  apply (returned_total (U := basic_latin) reply_5000_4800 (trip_for "10000")
           [(accommodation, 5000); (food, 4800)] 9800 specific).
  vm_compute. reflexivity.
Defined.

(** C2 fails on the amounts, and on numbers too large for a float. A reply
    that gives 3900 to food alone, to a user who stated 1000, is scaled to
    999, where 3900 multiplied by 1000 / 3900 is 1000; and for an amount of
    [10 ^ 400] the call raises [OverflowError]. *)
Lemma scaled_amount_differs_from_exact_quotient :
  (user_budget (U := basic_latin) (trip_for "1000") = Ok (Some 1000)
   /\ response_breakdown (U := basic_latin) reply_3900 = Ok [(food, 3900)]
   /\ 1000 < 10 * Z.abs (3900 - 1000)
   /\ run reply_3900 (trip_for "1000") = Ok (Some ([(food, 999)], 1000, scaled))
   /\ 999 <> exact_scaled 3900 1000 3900)
  /\ (response_breakdown (U := basic_latin) (lit "Food: " ++ digits_of_10_to_400)
      = Ok [(food, 10 ^ 400)]
      /\ run (lit "Food: " ++ digits_of_10_to_400) (trip_for "1000")
         = Raise OverflowError).
Proof. repeat split; vm_compute; (reflexivity || discriminate). Qed.

Lemma far_breakdown_scaled_witness :
  run reply_4000_2000 (trip_for "10000")
  = Ok (Some ([(accommodation, 6666); (transport, 3333)], 10000, scaled)).
Proof.
  destruct (far_breakdown_scaled (U := basic_latin) reply_4000_2000 (trip_for "10000")
              10000 [(accommodation, 4000); (transport, 2000)])
    as (scale_factor & budget_data & _ & E & _).
  - vm_compute. reflexivity.
  - discriminate.
  - vm_compute. reflexivity.
  - vm_compute. reflexivity.
  - discriminate.
  - vm_compute. reflexivity.
  - vm_compute. reflexivity.
  - pose proof E as E'. vm_compute in E'. injection E' as <-. exact E.
Defined.


(** C4. For a user who states one rupee and a reply without amounts, the
    estimated breakdown holds five amounts, all zero. *)
Theorem estimate_of_one_rupee :
  run reply_without_amounts (trip_for "1")
  = Ok (Some ([ (accommodation, 0); (transport, 0); (food, 0);
                (activities, 0); (miscellaneous, 0) ], 1, estimated)).
Proof. vm_compute. reflexivity. Qed.

(** C5 fails on the shares, and on totals too large for a float. For a user
    who states 180 the share of accommodation is 62, where 35% of 180 is 63;
    and for a stated total of [10 ^ 400] the call raises [OverflowError]. *)
Lemma estimated_share_differs_from_exact_percentage :
  (user_budget (U := basic_latin) (trip_for "180") = Ok (Some 180)
   /\ response_breakdown (U := basic_latin) reply_without_amounts = Ok []
   /\ run reply_without_amounts (trip_for "180")
      = Ok (Some ([ (accommodation, 62); (transport, 45); (food, 36);
                    (activities, 27); (miscellaneous, 9) ], 180, estimated))
   /\ 62 <> exact_share 35 180)
  /\ (user_budget (U := basic_latin) (trip_for_text digits_of_10_to_400)
      = Ok (Some (10 ^ 400))
      /\ run reply_without_amounts (trip_for_text digits_of_10_to_400)
         = Raise OverflowError).
Proof. repeat split; vm_compute; (reflexivity || discriminate). Qed.

Lemma nothing_parsed_estimated_witness :
  run reply_without_amounts (trip_for "20000")
  = Ok (Some ([ (accommodation, 7000); (transport, 5000); (food, 4000);
                (activities, 3000); (miscellaneous, 1000) ], 20000, estimated))
  /\ sum [7000; 5000; 4000; 3000; 1000] = 20000.
Proof.
  split; [ | reflexivity ].
  destruct (nothing_parsed_estimated (U := basic_latin) reply_without_amounts
              (trip_for "20000") 20000)
    as (a & t & f & v & m & Ea & Et & Ef & Ev & Em & E & _).
  - vm_compute. reflexivity.
  - discriminate.
  - vm_compute. reflexivity.
  - vm_compute. reflexivity.
  - vm_compute in Ea, Et, Ef, Ev, Em.
    injection Ea as <-. injection Et as <-. injection Ef as <-.
    injection Ev as <-. injection Em as <-. exact E.
Defined.

(** C6 fails at the boundary for a large total. With a stated total of
    360287970189639690 and a reply that gives 396316767208603659, the
    difference is exactly 10% of the stated total, and the breakdown is
    scaled: the float product of the stated total with 0.1 is below the
    difference. *)
Lemma boundary_total_is_scaled :
  user_budget (U := basic_latin) (trip_for "360287970189639690")
  = Ok (Some 360287970189639690)
  /\ response_breakdown (U := basic_latin) (lit "Accommodation: 396316767208603659")
     = Ok [(accommodation, 396316767208603659)]
  /\ 10 * Z.abs (396316767208603659 - 360287970189639690) = 360287970189639690
  /\ run (lit "Accommodation: 396316767208603659") (trip_for "360287970189639690")
     = Ok (Some ([(accommodation, 360287970189639680)], 360287970189639690, scaled)).
Proof. repeat split; vm_compute; reflexivity. Qed.

Lemma close_breakdown_returned_as_is_witness :
  10 * Z.abs (9800 - 10000) <= 10000
  /\ run reply_5000_4800 (trip_for "10000")
     = Ok (Some ([(accommodation, 5000); (food, 4800)], 9800, specific)).
Proof.
  split; [vm_compute; discriminate | ].
  apply (close_breakdown_returned_as_is (U := basic_latin) reply_5000_4800
           (trip_for "10000") 10000 [(accommodation, 5000); (food, 4800)]).
  - vm_compute. reflexivity.
  - vm_compute. reflexivity.
  - vm_compute. reflexivity.
  - discriminate.
  - vm_compute. discriminate.
Defined.

Lemma zero_budget_is_no_budget_witness :
  run reply_5000_4800 (trip_for "0") = run reply_5000_4800 []
  /\ run reply_5000_4800 (trip_for "0")
     = Ok (Some ([(accommodation, 5000); (food, 4800)], 9800, specific)).
Proof.
  unfold run.
  destruct (zero_budget_is_no_budget (U := basic_latin) reply_5000_4800 (trip_for "0"))
    as (Same & Returned & _).
  - vm_compute. reflexivity.
  - split; [apply Same; reflexivity | ].
    apply (Returned [(accommodation, 5000); (food, 4800)]). vm_compute. reflexivity.
Defined.

(** The parser on a reply that names food three times: 300 is dropped and
    700 is kept over 600. *)
Lemma amounts_below_threshold_discarded_witness :
  response_breakdown (U := basic_latin) reply_food_thrice = Ok [(food, 700)]
  /\ amounts_found (U := basic_latin) (pattern_list (U := basic_latin) food)
       (str_lower (UnicodeData := basic_latin) reply_food_thrice) = [300; 700; 600]
  /\ forall c a, In (c, a) [(food, 700)] -> 500 <= a.
Proof.
  split; [vm_compute; reflexivity | ]. split; [vm_compute; reflexivity | ].
  apply (amounts_below_threshold_discarded (U := basic_latin) reply_food_thrice).
  vm_compute. reflexivity.
Defined.

(** An amount of 4301 digits: the parser raises at line 55, and so does the
    search for the user's budget at line 23. *)
Definition digits_over_the_limit : text := repeat (N_of_ascii "9") 4301.

Lemma amount_over_the_limit :
  response_breakdown (U := basic_latin) (lit "Food: " ++ digits_over_the_limit)
  = Raise ValueError
  /\ user_budget (U := basic_latin) (trip_for_text digits_over_the_limit)
     = Raise ValueError.
Proof. split; vm_compute; reflexivity. Qed.

(** * Further properties of [extract_budget_from_response] *)

(** ** The categories of a result *)

(** The place of a category in [patterns]. *)
Definition category_index (c : category) : nat :=
  match c with
  | accommodation => 0
  | transport => 1
  | food => 2
  | activities => 3
  | miscellaneous => 4
  end.

(** The keys come in the order of [patterns], each at most once. *)
Definition in_pattern_order (ks : list category) : Prop :=
  StronglySorted lt (map category_index ks).

Lemma category_index_inj a b : category_index a = category_index b -> a = b.
Proof. destruct a, b; cbn; congruence. Qed.

Lemma in_pattern_order_nodup ks : in_pattern_order ks -> NoDup ks.
Proof.
  unfold in_pattern_order. induction ks as [ | k ks IH ]; cbn; intros H.
  - constructor.
  - inversion H as [ | ? ? S F ]; subst. constructor; [ | apply IH, S ].
    intros I. rewrite Forall_forall in F.
    specialize (F (category_index k) (in_map _ _ _ I)). lia.
Qed.

Lemma keys_dict_set d k v :
  keys (dict_set d k v) = if existsb (category_eqb k) (keys d) then keys d else keys d ++ [k].
Proof.
  induction d as [ | [k' v'] d IH ]; cbn; [reflexivity | ].
  destruct (category_eqb k k') eqn:E; cbn; [reflexivity | ].
  unfold keys in IH. rewrite IH. destruct (existsb _ _); reflexivity.
Qed.

Lemma dict_get_some_key d c a : dict_get d c = Some a -> In c (keys d).
Proof. intros H. apply dict_get_in in H. apply (in_map fst) in H. exact H. Qed.

Lemma dict_get_none_key d c : dict_get d c = None -> ~ In c (keys d).
Proof.
  induction d as [ | [k v] d IH ]; cbn; [tauto | ].
  destruct (category_eqb c k) eqn:E; [discriminate | ].
  intros H [-> | I]; [rewrite category_eqb_refl in E; discriminate | ].
  apply (IH H I).
Qed.

Lemma existsb_key c ks : existsb (category_eqb c) ks = true <-> In c ks.
Proof.
  rewrite existsb_exists. split.
  - intros (x & I & E). apply category_eqb_eq in E. subst. exact I.
  - intros I. exists c. split; [exact I | apply category_eqb_refl].
Qed.

(** Recording amounts for [c] leaves the keys as they are, or adds [c] last
    when it was not a key. *)
Lemma keys_record_all c amounts : forall d,
  keys (record_all c amounts d) = keys d
  \/ (~ In c (keys d) /\ keys (record_all c amounts d) = keys d ++ [c]).
Proof.
  induction amounts as [ | a amounts IH ]; intros d; [cbn; auto | ].
  change (record_all c (a :: amounts) d)
    with (record_all c amounts (record_amount c a d)).
  assert (S : keys (record_amount c a d) = keys d
              \/ (~ In c (keys d) /\ keys (record_amount c a d) = keys d ++ [c])).
  { unfold record_amount. destruct (500 <=? a); [ | auto ].
    destruct (dict_get d c) as [ h | ] eqn:G.
    - destruct (h <? a); [ | auto ]. rewrite keys_dict_set.
      apply dict_get_some_key in G. apply existsb_key in G. rewrite G. auto.
    - rewrite keys_dict_set. apply dict_get_none_key in G.
      destruct (existsb (category_eqb c) (keys d)) eqn:X; [auto | ].
      right. auto. }
  destruct (IH (record_amount c a d)) as [E | [N E]]; rewrite E.
  - exact S.
  - destruct S as [S | [N' S]]; rewrite S in *.
    + right. auto.
    + exfalso. apply N. apply in_or_app. right. left. reflexivity.
Qed.

Lemma StronglySorted_app_remove (l1 : list nat) x l2 :
  StronglySorted lt (l1 ++ x :: l2) -> StronglySorted lt (l1 ++ l2).
Proof.
  induction l1 as [ | y l1 IH ]; cbn; intros H.
  - inversion H; assumption.
  - inversion H as [ | ? ? S F ]; subst. constructor; [apply IH, S | ].
    rewrite Forall_app in *. destruct F as [F1 F2]. inversion F2; auto.
Qed.

Section Keys.
Context {U : UnicodeData}.

Lemma keys_record_categories items lowered : forall d,
  in_pattern_order (keys d ++ map fst items) ->
  in_pattern_order (keys (record_categories items lowered d)).
Proof.
  unfold in_pattern_order.
  induction items as [ | [c ps] items IH ]; intros d H; cbn [map fst] in *.
  - rewrite app_nil_r in H. exact H.
  - cbn [record_categories fold_left fst snd].
    change (fold_left _ items ?b) with (record_categories items lowered b).
    apply IH.
    destruct (keys_record_all c (amounts_found ps lowered) d) as [E | [_ E]]; rewrite E.
    + rewrite map_app in *. cbn [map] in H.
      eapply StronglySorted_app_remove. exact H.
    + rewrite <- app_assoc. exact H.
Qed.

Lemma parsed_keys response_text : in_pattern_order (keys (parsed response_text)).
Proof.
  apply keys_record_categories. cbn [keys map app]. rewrite patterns_keys.
  unfold in_pattern_order. cbn.
  repeat (constructor; [ | repeat constructor ]). constructor.
Qed.

End Keys.

Lemma keys_scale_breakdown breakdown f : forall data,
  scale_breakdown breakdown f = Ok data -> keys data = keys breakdown.
Proof.
  induction breakdown as [ | [c a] breakdown IH ]; intros data H; cbn in H.
  - injection H as <-. reflexivity.
  - destruct (int_of_product a f); [ | discriminate ]. cbn [bind] in H.
    destruct (scale_breakdown breakdown f) as [ rest | ]; [ | discriminate ].
    injection H as <-. cbn. f_equal. apply IH. reflexivity.
Qed.

Lemma keys_estimated_breakdown budget data :
  estimated_breakdown budget = Ok data ->
  keys data = [accommodation; transport; food; activities; miscellaneous].
Proof.
  unfold estimated_breakdown. intros H.
  repeat match type of H with
         | bind ?c _ = _ => destruct c; [cbn [bind] in H | discriminate]
         end.
  injection H as <-. reflexivity.
Qed.

Lemma increasing_length (l : list nat) (n : nat) : forall lo,
  StronglySorted lt l -> Forall (fun x => (lo <= x < n)%nat) l ->
  (List.length l + lo <= Nat.max n lo)%nat.
Proof.
  induction l as [ | x l IH ]; intros lo HS F; cbn; [lia | ].
  inversion HS as [ | ? ? S' F' ]; subst. inversion F as [ | ? ? Hx Fl ]; subst.
  assert (G : Forall (fun y => (x + 1 <= y < n)%nat) l).
  { rewrite Forall_forall in *. intros y I.
    specialize (F' y I). specialize (Fl y I). lia. }
  specialize (IH (x + 1)%nat S' G). lia.
Qed.

Lemma in_pattern_order_length ks : in_pattern_order ks -> (List.length ks <= 5)%nat.
Proof.
  intros H. pose proof (increasing_length (map category_index ks) 5 0 H) as L.
  rewrite length_map in L.
  assert (F : Forall (fun x => (0 <= x < 5)%nat) (map category_index ks)).
  { rewrite Forall_map. apply Forall_forall. intros c _. destruct c; cbn; lia. }
  specialize (L F). lia.
Qed.

(** ** The sign of the floats *)

Definition not_negative (x : Num.float) : Prop :=
  match x with
  | S754_finite s _ _ => s = false
  | _ => True
  end.

Lemma binary_round_aux_sign s m e l :
  match binary_round_aux Num.prec Num.emax s m e l with
  | S754_finite s' _ _ => s' = s
  | _ => True
  end.
Proof.
  unfold binary_round_aux.
  destruct (shr_fexp Num.prec Num.emax m e l) as [mrs1 e1].
  destruct (shr_fexp Num.prec Num.emax _ e1 loc_Exact) as [mrs2 e2].
  destruct (shr_m mrs2); [exact I | | exact I].
  destruct (e2 <=? Num.emax - Num.prec); [reflexivity | exact I].
Qed.

Lemma float_of_int_not_negative n x :
  0 <= n -> Num.float_of_int n = Ok x -> not_negative x.
Proof.
  intros Hn. unfold Num.float_of_int, Num.round_int, binary_normalize.
  destruct n as [ | p | p ]; [ | | lia ].
  - intros [= <-]. exact I.
  - unfold binary_round. destruct (shl_align p 0 _) as [mz ez].
    pose proof (binary_round_aux_sign false (Z.pos mz) ez loc_Exact) as S.
    destruct (binary_round_aux _ _ false (Z.pos mz) ez loc_Exact);
      intros [= <-]; cbn; auto.
Qed.

Lemma true_divide_not_negative a b f :
  0 <= a -> 0 < b -> Num.true_divide a b = Ok f -> not_negative f.
Proof.
  intros Ha Hb. unfold Num.true_divide, Num.round_quotient.
  destruct (Z.eqb_spec b 0); [lia | ].
  replace (a <? 0) with false by (symmetry; apply Z.ltb_ge; lia).
  replace (b <? 0) with false by (symmetry; apply Z.ltb_ge; lia).
  destruct (SFdiv_core_binary _ _ _ _ _ _) as [[q e] l]. cbn [xorb].
  pose proof (binary_round_aux_sign false q e l) as S.
  destruct (binary_round_aux _ _ false q e l); intros [= <-]; cbn; auto.
Qed.

Lemma SFmul_not_negative x y :
  not_negative x -> not_negative y -> not_negative (SFmul Num.prec Num.emax x y).
Proof.
  destruct x as [ sx | sx | | sx mx ex ], y as [ sy | sy | | sy my ey ];
    cbn [not_negative SFmul]; auto.
  intros -> ->. cbn [xorb].
  pose proof (binary_round_aux_sign false (Z.pos (mx * my)) (ex + ey) loc_Exact) as S.
  destruct (binary_round_aux _ _ false _ _ _); cbn; auto.
Qed.

Lemma int_of_product_not_negative n y v :
  0 <= n -> not_negative y -> int_of_product n y = Ok v -> 0 <= v.
Proof.
  intros Hn Hy. unfold int_of_product, Num.int_mul_float.
  destruct (Num.float_of_int n) as [ x | ] eqn:E; [ | discriminate ].
  cbn [bind]. apply float_of_int_not_negative in E; [ | exact Hn ].
  pose proof (SFmul_not_negative x y E Hy) as P.
  destruct (SFmul Num.prec Num.emax x y) as [ s | s | | s m e ]; cbn;
    try discriminate; intros [= <-]; [lia | ].
  cbn in P. subst s. cbn. apply Z.shiftl_nonneg. lia.
Qed.

Lemma scale_breakdown_not_negative breakdown f : forall data,
  Forall (fun kv => 0 <= snd kv) breakdown -> not_negative f ->
  scale_breakdown breakdown f = Ok data -> Forall (fun kv => 0 <= snd kv) data.
Proof.
  induction breakdown as [ | [c a] breakdown IH ]; intros data Hb Hf H; cbn in H.
  - injection H as <-. constructor.
  - inversion Hb as [ | ? ? Ha Hb' ]; subst. cbn [snd] in Ha.
    destruct (int_of_product a f) as [ v | ] eqn:Ev; [ | discriminate ].
    cbn [bind] in H.
    destruct (scale_breakdown breakdown f) as [ rest | ] eqn:Er; [ | discriminate ].
    injection H as <-. constructor.
    + cbn. eapply int_of_product_not_negative; eassumption.
    + apply (IH rest Hb' Hf eq_refl).
Qed.

Lemma estimated_breakdown_not_negative budget data :
  0 <= budget -> estimated_breakdown budget = Ok data ->
  Forall (fun kv => 0 <= snd kv) data.
Proof.
  intros Hb. unfold estimated_breakdown. intros H.
  repeat match type of H with
         | bind (int_of_product budget ?y) _ = _ =>
             let E := fresh "E" in
             destruct (int_of_product budget y) eqn:E; [cbn [bind] in H | discriminate];
             apply int_of_product_not_negative in E; [ | exact Hb | vm_compute; reflexivity ]
         end.
  injection H as <-. repeat constructor; assumption.
Qed.

Section Results.
Context {U : UnicodeData}.

(** What a call that returns a result went through. *)
Lemma extraction_cases (response_text user_input : text)
    (budget_data : dict) (total : Z) (budget_type : provenance) :
  extract_budget_from_response response_text user_input
  = Ok (Some (budget_data, total, budget_type)) ->
  exists budget,
    user_budget user_input = Ok budget
    /\ (forall n, budget = Some n -> 0 <= n)
    /\ match budget_type with
       | specific =>
           budget_data = parsed response_text /\ budget_data <> []
           /\ total = sum (values budget_data)
       | scaled =>
           exists scale_factor,
             budget = Some total /\ total <> 0 /\ parsed response_text <> []
             /\ Num.true_divide total (sum (values (parsed response_text)))
                = Ok scale_factor
             /\ scale_breakdown (parsed response_text) scale_factor = Ok budget_data
       | estimated =>
           budget = Some total /\ total <> 0 /\ parsed response_text = []
           /\ estimated_breakdown total = Ok budget_data
       end.
Proof.
  unfold extract_budget_from_response. intros H.
  destruct (user_budget_cases user_input) as [(budget & Eu & Hb) | Eu];
    rewrite Eu in H; [ | discriminate ].
  cbn [bind] in H.
  destruct (response_breakdown response_text) as [ found | e ] eqn:Eb;
    [ | discriminate ].
  apply response_breakdown_parsed in Eb. subst found.
  cbn [bind] in H. unfold reconcile in H.
  exists budget. split; [exact Eu | ]. split; [exact Hb | ].
  destruct (stated budget) as [ n | ] eqn:Hs.
  - apply stated_some in Hs. destruct Hs as [-> Hn].
    destruct (parsed response_text) as [ | kv breakdown ] eqn:Hp.
    + destruct (estimated_breakdown n) eqn:Ee; [ | discriminate ].
      cbn in H. injection H as <- <- <-. auto.
    + destruct (differs_significantly _ n) as [ [ | ] | ]; cbn [bind] in H;
        [ | | discriminate ].
      * destruct (Num.true_divide n _) as [ f | ] eqn:Ef; [ | discriminate ].
        cbn [bind] in H.
        destruct (scale_breakdown _ f) eqn:Es; [ | discriminate ].
        cbn in H. injection H as <- <- <-. exists f.
        repeat split; auto. discriminate.
      * injection H as <- <- <-. repeat split. discriminate.
  - destruct (parsed response_text) as [ | kv breakdown ] eqn:Hp; [discriminate | ].
    injection H as <- <- <-. repeat split. discriminate.
Qed.

(** A call that returns has parsed the reply. *)
Lemma extraction_parsed (response_text user_input : text) (x : extraction) :
  extract_budget_from_response response_text user_input = Ok x ->
  response_breakdown response_text = Ok (parsed response_text).
Proof.
  unfold extract_budget_from_response. intros H.
  destruct (user_budget user_input); [ | discriminate ]. cbn [bind] in H.
  destruct (response_breakdown response_text) as [ found | e ] eqn:Eb;
    [ | discriminate ].
  rewrite (response_breakdown_parsed _ _ Eb). reflexivity.
Qed.

End Results.

Section ResultTheorems.
Context {U : UnicodeData}.

(** X1. A result is never an empty breakdown: its categories are distinct,
    at most five, and listed in the order accommodation, transport, food,
    activities, miscellaneous. *)
Theorem result_categories_in_order
    (response_text user_input : text) (budget_data : dict) (total : Z)
    (budget_type : provenance) :
  extract_budget_from_response response_text user_input
  = Ok (Some (budget_data, total, budget_type)) ->
  budget_data <> []
  /\ in_pattern_order (keys budget_data)
  /\ NoDup (keys budget_data)
  /\ (List.length budget_data <= 5)%nat.
Proof.
  intros H. apply extraction_cases in H. destruct H as (budget & _ & _ & H).
  assert (K : budget_data <> [] /\ in_pattern_order (keys budget_data)).
  { destruct budget_type.
    - destruct H as (-> & N & _). split; [exact N | apply parsed_keys].
    - destruct H as (f & _ & _ & N & _ & S). apply keys_scale_breakdown in S.
      split; [ | rewrite S; apply parsed_keys ].
      intros ->. destruct (parsed response_text); [contradiction | discriminate].
    - destruct H as (_ & _ & _ & E). apply keys_estimated_breakdown in E.
      split; [intros ->; discriminate | ]. rewrite E.
      unfold in_pattern_order. cbn.
      repeat (constructor; [ | repeat constructor ]). constructor. }
  destruct K as [N O]. repeat split; try assumption.
  - apply in_pattern_order_nodup, O.
  - pose proof (in_pattern_order_length _ O) as L. unfold keys in L.
    rewrite length_map in L. exact L.
Qed.

(** X2. No returned amount is negative and the returned total is positive. *)
Theorem result_amounts_not_negative
    (response_text user_input : text) (budget_data : dict) (total : Z)
    (budget_type : provenance) :
  extract_budget_from_response response_text user_input
  = Ok (Some (budget_data, total, budget_type)) ->
  Forall (fun kv => 0 <= snd kv) budget_data /\ 0 < total.
Proof.
  intros H. apply extraction_cases in H. destruct H as (budget & _ & Hb & H).
  pose proof (parsed_above response_text) as A.
  destruct budget_type.
  - destruct H as (-> & N & ->). split; [apply above_threshold_nonneg, A | ].
    pose proof (sum_above _ A N). lia.
  - destruct H as (f & -> & Hn & N & Ef & Es).
    specialize (Hb total eq_refl). pose proof (sum_above _ A N) as S.
    split; [ | lia ].
    eapply scale_breakdown_not_negative; [ | | exact Es ].
    + apply above_threshold_nonneg, A.
    + eapply true_divide_not_negative; [ | | exact Ef ]; lia.
  - destruct H as (-> & Hn & _ & E). specialize (Hb total eq_refl).
    split; [ | lia ]. eapply estimated_breakdown_not_negative; [ | exact E ]. lia.
Qed.

(** X3. What each provenance stands for. A specific result is the parsed
    breakdown itself, every amount at least 500; a scaled result has the
    categories of the parsed breakdown, in its order; an estimated result
    has all five categories and comes only when nothing was parsed. *)
Theorem provenance_meaning
    (response_text user_input : text) (budget_data : dict) (total : Z)
    (budget_type : provenance) :
  extract_budget_from_response response_text user_input
  = Ok (Some (budget_data, total, budget_type)) ->
  exists breakdown,
    response_breakdown response_text = Ok breakdown
    /\ match budget_type with
       | specific =>
           budget_data = breakdown /\ Forall (fun kv => 500 <= snd kv) budget_data
       | scaled => breakdown <> [] /\ keys budget_data = keys breakdown
       | estimated =>
           breakdown = []
           /\ keys budget_data
              = [accommodation; transport; food; activities; miscellaneous]
       end.
Proof.
  intros H. pose proof (extraction_parsed _ _ _ H) as Parsed.
  apply extraction_cases in H. destruct H as (budget & _ & _ & H).
  exists (parsed response_text). split; [exact Parsed | ].
  destruct budget_type.
  - destruct H as (-> & _ & _). split; [reflexivity | apply parsed_above].
  - destruct H as (f & _ & _ & N & _ & S). split; [exact N | ].
    apply (keys_scale_breakdown _ f), S.
  - destruct H as (_ & _ & P & E). split; [exact P | ].
    eapply keys_estimated_breakdown, E.
Qed.

(** X4. The call returns nothing exactly when no amount is parsed from the
    reply and the user states no total, or a total of zero. *)
Theorem absent_exactly_when_nothing_found (response_text user_input : text) :
  extract_budget_from_response response_text user_input = Ok None
  <-> response_breakdown response_text = Ok []
      /\ (user_budget user_input = Ok None \/ user_budget user_input = Ok (Some 0)).
Proof.
  unfold extract_budget_from_response.
  destruct (user_budget user_input) as [ budget | e ];
    [ | split; [discriminate | intros [_ [B | B]]; discriminate] ].
  cbn [bind].
  destruct (response_breakdown response_text) as [ found | e ] eqn:Eb;
    [ | split; [discriminate | intros [B _]; discriminate] ].
  apply response_breakdown_parsed in Eb. subst found.
  cbn [bind]. unfold reconcile. split.
  - intros H. destruct (stated budget) as [ n | ] eqn:Hs.
    + exfalso. destruct (parsed response_text) as [ | kv breakdown ].
      * destruct (estimated_breakdown n); discriminate.
      * destruct (differs_significantly _ n) as [ [ | ] | ]; cbn [bind] in H;
          try discriminate.
        destruct (Num.true_divide n _); [ | discriminate ]. cbn [bind] in H.
        destruct (scale_breakdown _ _); discriminate.
    + destruct (parsed response_text) as [ | kv breakdown ]; [ | discriminate ].
      split; [reflexivity | ]. unfold stated in Hs.
      destruct budget as [ b | ]; [ | auto ].
      destruct (Z.eqb_spec b 0); [subst; auto | discriminate].
  - intros [P B]. injection P as ->.
    assert (S : stated budget = None).
    { destruct B as [B | B]; injection B as ->; reflexivity. }
    rewrite S. reflexivity.
Qed.

End ResultTheorems.

(** Samples for the statements above. *)
Lemma result_categories_in_order_witness :
  keys [(accommodation, 6666); (transport, 3333)] = [accommodation; transport]
  /\ NoDup (keys [(accommodation, 6666); (transport, 3333)]).
Proof.
  split; [reflexivity | ].
  apply (result_categories_in_order (U := basic_latin) reply_4000_2000
           (trip_for "10000") _ 10000 scaled).
  vm_compute. reflexivity.
Defined.

Lemma result_amounts_not_negative_witness :
  Forall (fun kv => 0 <= snd kv)
    [ (accommodation, 0); (transport, 0); (food, 0);
      (activities, 0); (miscellaneous, 0) ] /\ 0 < 1.
Proof.
  apply (result_amounts_not_negative (U := basic_latin) reply_without_amounts
           (trip_for "1") _ 1 estimated).
  vm_compute. reflexivity.
Defined.

Lemma provenance_meaning_witness :
  exists breakdown,
    response_breakdown (U := basic_latin) reply_4000_2000 = Ok breakdown
    /\ breakdown <> []
    /\ keys [(accommodation, 6666); (transport, 3333)] = keys breakdown.
Proof.
  apply (provenance_meaning (U := basic_latin) reply_4000_2000
           (trip_for "10000") [(accommodation, 6666); (transport, 3333)] 10000 scaled).
  vm_compute. reflexivity.
Defined.

Import Re ReFacts.

(** ** What the patterns need from a text *)

Section Needs.
Context {U : UnicodeData}.

Lemma user_budget_pattern_head c t :
  c <> rupee -> match_at user_budget_pattern (c :: t) = None.
Proof.
  intros N. unfold match_at, user_budget_pattern, seqs. cbn [fold_right exec].
  destruct (N.eqb_spec c rupee); [contradiction | reflexivity].
Qed.

Lemma search_user_budget_skip pre : forall t,
  Forall (fun c => c <> rupee) pre ->
  search user_budget_pattern (pre ++ t) = search user_budget_pattern t.
Proof.
  induction pre as [ | c pre IH ]; intros t F; [reflexivity | ].
  inversion F as [ | ? ? Hc F' ]; subst. cbn [app search].
  rewrite (user_budget_pattern_head c (pre ++ t) Hc). apply IH, F'.
Qed.

Lemma search_user_budget_nil : search user_budget_pattern [] = None.
Proof. reflexivity. Qed.

(** X5. Only a rupee sign opens the user's total: the text before the first
    rupee sign is ignored, and a text without one states no total, so that
    the call is the call with the default, empty, user input. *)
Theorem no_rupee_no_budget (response_text before after : text) :
  Forall (fun c => c <> rupee) before ->
  user_budget (before ++ after) = user_budget after
  /\ user_budget before = Ok None
  /\ extract_budget_from_response response_text before
     = extract_budget_from_response response_text [].
Proof.
  intros F.
  assert (S : forall t, user_budget (before ++ t) = user_budget t).
  { intros t. unfold user_budget. rewrite search_user_budget_skip by exact F.
    reflexivity. }
  assert (N : user_budget before = Ok None).
  { rewrite <- (app_nil_r before), S. reflexivity. }
  split; [apply S | ]. split; [exact N | ].
  unfold extract_budget_from_response. rewrite N. reflexivity.
Qed.

(** A match of a pattern of the source runs over a digit. *)
Lemma matches_over_digit r p g g' :
  Matches r p g g' -> groups_are_numbers r ->
  g' = g \/ Exists (fun c => isdigit c = true) p.
Proof.
  induction 1; cbn [groups_are_numbers]; intros W; auto.
  - destruct (IHMatches1 (proj1 W)) as [-> | E];
      [ | right; apply Exists_app; auto ].
    destruct (IHMatches2 (proj2 W)) as [-> | E]; [auto | ].
    right. apply Exists_app. auto.
  - apply IHMatches, W.
  - apply IHMatches, W.
  - destruct (IHMatches1 W) as [-> | E];
      [ | right; apply Exists_app; auto ].
    destruct (IHMatches2 W) as [-> | E]; [auto | ].
    right. apply Exists_app. auto.
  - right.
    assert (M : Matches number p g (Some p)) by (rewrite <- W; econstructor; eassumption).
    apply number_matches in M. destruct M as (_ & c & t' & -> & Hc & _).
    left. exact Hc.
Qed.

Lemma match_at_over_digit r t m :
  amount_pattern r -> match_at r t = Some m -> Exists (fun c => isdigit c = true) t.
Proof.
  intros [W S] H. unfold match_at in H. apply exec_sound in H.
  destruct H as (p & s' & g' & -> & M & _).
  destruct (matches_over_digit _ _ _ _ M W) as [-> | E].
  - exfalso. eapply group_set; [exact M | exact S | reflexivity].
  - apply Exists_app. auto.
Qed.

Lemma search_without_digit r t :
  amount_pattern r -> Forall (fun c => isdigit c = false) t -> search r t = None.
Proof.
  intros A. induction t as [ | c t IH ]; intros F; cbn [search].
  - destruct (match_at r []) as [ m | ] eqn:E; [ | reflexivity ].
    apply (match_at_over_digit r [] m A) in E. inversion E.
  - destruct (match_at r (c :: t)) as [ m | ] eqn:E.
    + exfalso. apply (match_at_over_digit r _ m A) in E.
      rewrite Exists_exists in E. destruct E as (x & I & D).
      rewrite Forall_forall in F. rewrite (F x I) in D. discriminate.
    + apply IH. inversion F; assumption.
Qed.

Lemma finditer_without_digit r t :
  amount_pattern r -> Forall (fun c => isdigit c = false) t -> finditer r t = [].
Proof.
  intros A F. unfold finditer. cbn [finditer_from].
  rewrite (search_without_digit r t A F). reflexivity.
Qed.

Lemma amounts_found_without_digit ps t :
  Forall amount_pattern ps -> Forall (fun c => isdigit c = false) t ->
  amounts_found ps t = [].
Proof.
  intros P F. unfold amounts_found.
  induction P as [ | r ps Hr _ IH ]; cbn [flat_map]; [reflexivity | ].
  rewrite (finditer_without_digit r t Hr F), IH. reflexivity.
Qed.

(** X6. A reply in which no character is a decimal digit gives no
    breakdown: the parser returns the empty dictionary, and the call returns
    the estimate for a user who states a total and nothing otherwise. *)
Theorem reply_without_digit (response_text user_input : text) :
  Forall (fun c => isdigit c = false) (str_lower response_text) ->
  response_breakdown response_text = Ok []
  /\ extract_budget_from_response response_text user_input
     = (budget <- user_budget user_input ;;
        match stated budget with
        | Some n =>
            budget_data <- estimated_breakdown n ;;
            Ok (Some (budget_data, n, estimated))
        | None => Ok None
        end).
Proof.
  intros F.
  assert (P : parsed response_text = []).
  { unfold parsed, record_categories.
    pose proof patterns_carry_amounts as C.
    induction C as [ | [c ps] items Hc _ IH ]; cbn [fold_left fst snd]; [reflexivity | ].
    rewrite (amounts_found_without_digit ps _ Hc F). cbn. exact IH. }
  assert (Rd : readable_reply response_text).
  { unfold readable_reply, readable_items, readable_matches.
    pose proof patterns_carry_amounts as C.
    induction C as [ | [c ps] items Hc _ IH ]; constructor; [ | exact IH ].
    cbn [snd] in *. induction Hc as [ | r ps Hr _ IHr ]; constructor; [ | exact IHr ].
    rewrite (finditer_without_digit r _ Hr F). constructor. }
  split; [rewrite (response_breakdown_ok _ Rd), P; reflexivity | ].
  unfold extract_budget_from_response. rewrite (response_breakdown_ok _ Rd), P.
  destruct (user_budget user_input) as [ budget | ]; [ | reflexivity ].
  cbn [bind]. unfold reconcile. destruct (stated budget); reflexivity.
Qed.

End Needs.

Lemma no_rupee_no_budget_witness :
  user_budget (U := basic_latin) (lit "about 20000 rupees, or " ++ trip_for "5,000")
  = Ok (Some 5000).
Proof.
  destruct (no_rupee_no_budget (U := basic_latin) [] (lit "about 20000 rupees, or ")
              (trip_for "5,000")) as (E & _).
  - repeat constructor; discriminate.
  - rewrite E.
    destruct (no_rupee_no_budget (U := basic_latin) [] (lit "Plan a trip to Goa for ")
                (rupee :: lit "5,000")) as (E' & _).
    + repeat constructor; discriminate.
    + unfold trip_for, trip_for_text. rewrite E'. vm_compute. reflexivity.
Defined.

Lemma reply_without_digit_witness :
  response_breakdown (U := basic_latin) reply_without_amounts = Ok [].
Proof.
  apply (reply_without_digit (U := basic_latin) reply_without_amounts []).
  vm_compute. repeat constructor.
Defined.

(** * The page around the extraction *)

(** ** Percentages (app.py, lines 533 and 600) *)

(** [x * n] for a float [x] and an int [n]: [n] is converted. *)
Definition float_mul_int (x : Num.float) (n : Z) : result Num.float :=
  f <- Num.float_of_int n ;; Ok (SFmul Num.prec Num.emax x f).

(** [(amount / total) * 100] *)
Definition percentage (amount total : Z) : result Num.float :=
  share <- Num.true_divide amount total ;; float_mul_int share 100.

(** [for category, amount in items]: the percentage of lines 533 and 600,
    then the row of lines 534-538 and 601-606, which prints the title of
    the category, [f'{amount:,}'] and the percentage. A row is kept as the
    category, the amount and the percentage; the decimal form of the amount
    is taken for the error it can raise, and the percentage is printed with
    [.1f] or [.0f], which raises nothing. *)
Fixpoint percentages (items : dict) (total : Z)
    : result (list (category * Z * Num.float)) :=
  match items with
  | [] => Ok []
  | (c, amount) :: items' =>
      p <- percentage amount total ;;
      _ <- format_thousands amount ;;
      rest <- percentages items' total ;;
      Ok ((c, amount, p) :: rest)
  end.

(** ** [sorted(items, key=lambda x: x[1], reverse=True)] (line 598)

    Python's sort is stable, also with [reverse=True]: the result is the one
    arrangement of the items by amount, largest first, in which items of
    equal amount keep their order. An insertion sort builds it. *)
Fixpoint insert_by_amount (x : category * Z) (l : dict) : dict :=
  match l with
  | [] => [x]
  | y :: l' => if snd x <? snd y then y :: insert_by_amount x l' else x :: y :: l'
  end.

Definition sorted_by_amount (d : dict) : dict := fold_right insert_by_amount [] d.

(** ** The figures (lines 98-153) *)

(** *** [str.title], on the keys of the dictionaries

    The keys are ASCII; on ASCII a letter that follows a letter is lowered
    and any other letter is raised. *)
Definition ascii_letter (c : char) : bool :=
  (((65 <=? c) && (c <=? 90)) || ((97 <=? c) && (c <=? 122)))%N.

Definition ascii_upper (c : char) : char :=
  if ((97 <=? c) && (c <=? 122))%N then (c - 32)%N else c.

Fixpoint title_from (previous_is_cased : bool) (s : text) : text :=
  match s with
  | [] => []
  | c :: s' =>
      (if previous_is_cased then ascii_lower c else ascii_upper c)
      :: title_from (ascii_letter c) s'
  end.

Definition title (s : text) : text := title_from false s.

(** The keys of [budget_data]. *)
Definition category_key (c : category) : text :=
  match c with
  | accommodation => lit "accommodation"
  | transport => lit "transport"
  | food => lit "food"
  | activities => lit "activities"
  | miscellaneous => lit "miscellaneous"
  end.

(** *** [create_budget_visualization] *)

Definition colors : list string :=
  [ "#667eea"; "#764ba2"; "#f093fb"; "#f5576c"; "#4facfe"; "#00f2fe" ]%string.

(** The data of [go.Pie] and of [go.Bar]. *)
Record pie : Type := {
  pie_labels : list text;
  pie_values : list Z;
  pie_colors : list string
}.

Record bar : Type := {
  bar_x : list text;
  bar_y : list Z;
  bar_color : list string;
  bar_text : list text
}.

(** [[f'₹{amount:,}' for amount in amounts]] (line 137) *)
Fixpoint bar_texts (amounts : list Z) : result (list text) :=
  match amounts with
  | [] => Ok []
  | amount :: amounts' =>
      printed <- rupees amount ;;
      rest <- bar_texts amounts' ;;
      Ok (printed :: rest)
  end.

(** [None] stands for the pair [(None, None)] of line 101. *)
Definition create_budget_visualization (budget_data : dict)
    : result (option (pie * bar)) :=
  match budget_data with
  | [] => Ok None
  | _ :: _ =>
      let categories := keys budget_data in
      let amounts := values budget_data in
      let pie_fig :=
        {| pie_labels := map (fun cat => title (category_key cat)) categories;
           pie_values := amounts;
           pie_colors := firstn (List.length categories) colors |} in
      texts <- bar_texts amounts ;;
      Ok (Some (pie_fig,
                {| bar_x := map (fun cat => title (category_key cat)) categories;
                   bar_y := amounts;
                   bar_color := firstn (List.length categories) colors;
                   bar_text := texts |}))
  end.

(** ** The sidebar card (lines 582-607)

    The card is drawn when a budget is stored and is not empty; it prints the
    total as [f'{total:,}'] (line 592) and then, for the three largest
    amounts, the rows of [percentages]. The value below is what it prints,
    the numbers before their formatting. *)
Definition sidebar_card (st : session_state)
    : result (option (Z * list (category * Z * Num.float))) :=
  match latest_budget st with
  | None => Ok None
  | Some [] => Ok None
  | Some budget =>
      let total := sum (values budget) in
      _ <- format_thousands total ;;
      rows <- percentages (firstn 3 (sorted_by_amount budget)) total ;;
      Ok (Some (total, rows))
  end.

(** ** The budget of a chat turn (lines 495-538, 576-578)

    How the part of the handler that deals with the budget ends: the
    breakdown is shown with its total and one row per category, or nothing
    was found and the manual entry is offered, or an exception reached the
    [except] of line 576. *)
Inductive ending : Type :=
  | completed (actual_total : Z) (details : list (category * Z * Num.float))
  | manual_offered
  | raised (e : exn).

(** Lines 503-508: the notice of an estimated or scaled budget prints the
    total with ['{:,}'.format(total_budget)]; the notice of a specific one
    prints no number. *)
Definition format_notice (budget_type : provenance) (total_budget : Z)
    : result (option text) :=
  match budget_type with
  | specific => Ok None
  | scaled | estimated =>
      printed <- format_thousands total_budget ;; Ok (Some printed)
  end.

(** Lines 521-538: the total of the amounts, printed, and the rows. *)
Definition budget_summary (budget_data : dict)
    : result (Z * list (category * Z * Num.float)) :=
  let actual_total := sum (values budget_data) in
  _ <- format_thousands actual_total ;;
  details <- percentages budget_data actual_total ;;
  Ok (actual_total, details).

Section Turn.
Context {U : UnicodeData}.

(** The budget is stored first (lines 497-498); then come the notice, the
    figures and the summary, and what is drawn is what came before an
    exception. *)
Definition budget_of_turn (st : session_state) (reply user_input : text)
    : session_state * list widget * ending :=
  match extract_budget_from_response reply user_input with
  | Raise e => (st, [], raised e)
  | Ok None => (st, [], manual_offered)
  | Ok (Some ([], _, _)) => (st, [], manual_offered)
  | Ok (Some (budget_data, total_budget, budget_type)) =>
      let st' := {| latest_budget := Some budget_data;
                    budget_total := Some total_budget;
                    show_budget_input := show_budget_input st |} in
      match format_notice budget_type total_budget with
      | Raise e => (st', [], raised e)
      | Ok _ =>
          match create_budget_visualization budget_data with
          | Raise e => (st', [notice budget_type], raised e)
          | Ok _ =>
              match budget_summary budget_data with
              | Raise e =>
                  (st', [notice budget_type; figures budget_data], raised e)
              | Ok (actual_total, details) =>
                  (st', [notice budget_type; figures budget_data],
                   completed actual_total details)
              end
          end
      end
  end.

End Turn.

(** * Properties of the page *)

(** ** Decimal digits and the limit *)

Definition ascii_digit (c : char) : Prop := exists d, 0 <= d <= 9 /\ c = digit_char d.

Lemma decimal_digits_app fuel : forall n acc,
  0 <= n ->
  exists ds, decimal_digits fuel n acc = ds ++ acc
             /\ Forall ascii_digit ds
             /\ (fuel <> O -> ds <> []).
Proof.
  induction fuel as [ | fuel IH ]; intros n acc Hn; cbn [decimal_digits].
  - exists []. repeat split; [constructor | congruence].
  - assert (D : ascii_digit (digit_char (n mod 10))).
    { exists (n mod 10). split; [ | reflexivity ].
      pose proof (Z.mod_pos_bound n 10). lia. }
    destruct (n <? 10).
    + exists [digit_char (n mod 10)]. repeat split; [ | discriminate ].
      constructor; [exact D | constructor].
    + destruct (IH (n / 10) (digit_char (n mod 10) :: acc)) as (ds & -> & F & _).
      { apply Z.div_pos; lia. }
      exists (ds ++ [digit_char (n mod 10)]). rewrite <- app_assoc.
      repeat split.
      * apply Forall_app. split; [exact F | constructor; [exact D | constructor]].
      * intros _ E. apply app_eq_nil in E. destruct E; discriminate.
Qed.

Lemma str_of_nat_digits n :
  0 <= n -> Forall ascii_digit (str_of_nat n) /\ str_of_nat n <> [].
Proof.
  intros Hn. unfold str_of_nat.
  destruct (decimal_digits_app (S (Z.to_nat (Z.log2 n))) n [] Hn) as (ds & -> & F & N).
  rewrite app_nil_r. split; [exact F | apply N; discriminate].
Qed.

(** The number of digits of [n] is at most [k] when [n < 10 ^ k], and more
    than [k] when [10 ^ k <= n]. *)
Lemma decimal_digits_length_le fuel : forall n acc k,
  0 <= n < 10 ^ k -> 1 <= k ->
  Z.of_nat (List.length (decimal_digits fuel n acc)) <= k + Z.of_nat (List.length acc).
Proof.
  induction fuel as [ | fuel IH ]; intros n acc k Hn Hk; cbn [decimal_digits].
  - lia.
  - destruct (Z.ltb_spec n 10); [cbn [List.length]; lia | ].
    assert (K : 2 <= k).
    { destruct (Z.eq_dec k 1) as [-> | ]; [ | lia ]. cbn in Hn. lia. }
    specialize (IH (n / 10) (digit_char (n mod 10) :: acc) (k - 1)).
    cbn [List.length] in IH. rewrite Nat2Z.inj_succ in IH.
    assert (0 <= n / 10 < 10 ^ (k - 1)); [ | lia ].
    split; [apply Z.div_pos; lia | ].
    apply Z.div_lt_upper_bound; [lia | ].
    replace k with (Z.succ (k - 1)) in Hn by lia.
    rewrite Z.pow_succ_r in Hn by lia. lia.
Qed.

Lemma decimal_digits_length_gt fuel : forall n acc k,
  0 <= k -> 10 ^ k <= n -> n < 10 ^ Z.of_nat fuel ->
  k + Z.of_nat (List.length acc) < Z.of_nat (List.length (decimal_digits fuel n acc)).
Proof.
  induction fuel as [ | fuel IH ]; intros n acc k Hk Hn Hf; cbn [decimal_digits].
  - cbn in Hf. assert (0 < 10 ^ k) by (apply Z.pow_pos_nonneg; lia). lia.
  - rewrite Nat2Z.inj_succ, Z.pow_succ_r in Hf by lia.
    destruct (Z.ltb_spec n 10).
    + assert (k = 0).
      { destruct (Z.eq_dec k 0); [assumption | exfalso ].
        assert (10 ^ 1 <= 10 ^ k) by (apply Z.pow_le_mono_r; lia). lia. }
      subst k. cbn [List.length]. lia.
    + destruct (Z.eq_dec k 0) as [-> | NZ ].
      * destruct (decimal_digits_app fuel (n / 10) (digit_char (n mod 10) :: acc))
          as (ds & -> & _); [apply Z.div_pos; lia | ].
        rewrite length_app. cbn [List.length]. lia.
      * specialize (IH (n / 10) (digit_char (n mod 10) :: acc) (k - 1)).
        cbn [List.length] in IH. rewrite Nat2Z.inj_succ in IH.
        assert (10 ^ (k - 1) <= n / 10 /\ n / 10 < 10 ^ Z.of_nat fuel); [ | lia ].
        replace k with (Z.succ (k - 1)) in Hn by lia.
        rewrite Z.pow_succ_r in Hn by lia. split.
        -- apply Z.div_le_lower_bound; lia.
        -- apply Z.div_lt_upper_bound; lia.
Qed.

Lemma str_of_nat_fuel n :
  0 <= n -> n < 10 ^ Z.of_nat (S (Z.to_nat (Z.log2 n))).
Proof.
  intros Hn. rewrite Nat2Z.inj_succ, Z2Nat.id by apply Z.log2_nonneg.
  destruct (Z.eq_dec n 0) as [ -> | NZ ]; [cbn; lia | ].
  pose proof (Z.log2_spec n ltac:(lia)) as L.
  assert (2 ^ Z.succ (Z.log2 n) <= 10 ^ Z.succ (Z.log2 n)).
  { apply Z.pow_le_mono_l. lia. }
  lia.
Qed.

Lemma str_of_nat_length n k :
  0 <= n -> 1 <= k ->
  (n < 10 ^ k <-> Z.of_nat (List.length (str_of_nat n)) <= k).
Proof.
  intros Hn Hk. unfold str_of_nat. split.
  - intros Lt.
    pose proof (decimal_digits_length_le (S (Z.to_nat (Z.log2 n))) n [] k
                  ltac:(lia) Hk) as L.
    cbn [List.length] in L. lia.
  - intros Le. destruct (Z.lt_ge_cases n (10 ^ k)) as [ | Ge ]; [assumption | exfalso ].
    pose proof (decimal_digits_length_gt (S (Z.to_nat (Z.log2 n))) n [] k
                  ltac:(lia) Ge (str_of_nat_fuel n Hn)) as G.
    cbn [List.length] in G. lia.
Qed.

(** The amounts that can be printed. *)
Definition printable (n : Z) : Prop := 0 <= n < 10 ^ max_str_digits.

Lemma format_thousands_ok n :
  printable n -> format_thousands n = Ok (group_thousands (str_of_nat n)).
Proof.
  intros [Hn Lt]. unfold format_thousands. rewrite Z.abs_eq by exact Hn.
  apply (str_of_nat_length n max_str_digits Hn) in Lt; [ | unfold max_str_digits; lia ].
  destruct (Z.ltb_spec max_str_digits (Z.of_nat (List.length (str_of_nat n))));
    [lia | ].
  destruct (Z.ltb_spec n 0); [lia | reflexivity].
Qed.

Lemma format_thousands_long n :
  10 ^ max_str_digits <= n -> format_thousands n = Raise ValueError.
Proof.
  intros Ge. assert (P : 0 < 10 ^ max_str_digits) by (apply Z.pow_pos_nonneg; unfold max_str_digits; lia).
  unfold format_thousands. rewrite Z.abs_eq by lia.
  destruct (Z.ltb_spec max_str_digits (Z.of_nat (List.length (str_of_nat n))))
    as [ | Le ]; [reflexivity | exfalso ].
  apply (str_of_nat_length n max_str_digits) in Le; [lia | lia | unfold max_str_digits; lia].
Qed.

Lemma format_thousands_raises n e : format_thousands n = Raise e -> e = ValueError.
Proof.
  unfold format_thousands.
  destruct (max_str_digits <? _); [intros [= <-]; reflexivity | discriminate].
Qed.

Lemma rupees_ok n :
  printable n -> rupees n = Ok (rupee :: group_thousands (str_of_nat n)).
Proof. intros P. unfold rupees. rewrite (format_thousands_ok n P). reflexivity. Qed.

Lemma bar_texts_ok amounts :
  Forall printable amounts ->
  bar_texts amounts
  = Ok (map (fun amount => rupee :: group_thousands (str_of_nat amount)) amounts).
Proof.
  induction 1 as [ | a amounts Ha _ IH ]; cbn [bar_texts map]; [reflexivity | ].
  rewrite (rupees_ok a Ha), IH. reflexivity.
Qed.

Lemma bar_texts_raises amounts e : bar_texts amounts = Raise e -> e = ValueError.
Proof.
  induction amounts as [ | a amounts IH ]; cbn [bar_texts]; [discriminate | ].
  unfold rupees. destruct (format_thousands a) eqn:F; cbn [bind].
  - destruct (bar_texts amounts); cbn [bind]; [discriminate | ].
    intros [= <-]. apply IH. reflexivity.
  - intros [= <-]. apply (format_thousands_raises a), F.
Qed.

Lemma create_budget_visualization_raises budget_data e :
  create_budget_visualization budget_data = Raise e -> e = ValueError.
Proof.
  destruct budget_data as [ | kv budget ]; [discriminate | ].
  unfold create_budget_visualization. cbv zeta.
  destruct (bar_texts (values (kv :: budget))) eqn:B; cbn [bind]; [discriminate | ].
  intros [= <-]. apply (bar_texts_raises _ _ B).
Qed.

Lemma format_notice_raises budget_type total e :
  format_notice budget_type total = Raise e -> e = ValueError.
Proof.
  destruct budget_type; cbn [format_notice]; [discriminate | | ];
    destruct (format_thousands total) eqn:F; cbn [bind]; try discriminate;
    intros [= <-]; apply (format_thousands_raises total), F.
Qed.

(** ** Percentages *)

Lemma percentage_of_nothing amount : percentage amount 0 = Raise ZeroDivisionError.
Proof. reflexivity. Qed.

(** A quotient of at most one is rounded to a float of at most two. *)
Lemma round_quotient_fraction a b :
  0 <= a <= b -> 0 < b ->
  NumFacts.within false 2 0 (Num.round_quotient a b).
Proof.
  intros Ha Hb. unfold Num.round_quotient, SFdiv_core_binary.
  rewrite (Z.abs_eq a), (Z.abs_eq b) by lia.
  replace (a <? 0) with false by (symmetry; apply Z.ltb_ge; lia).
  replace (b <? 0) with false by (symmetry; apply Z.ltb_ge; lia).
  cbn [xorb].
  set (e' := Z.min (fexp Num.prec Num.emax (Zdigits2 a + 0 - (Zdigits2 b + 0))) (0 - 0)).
  set (m' := match 0 - 0 - e' with
             | 0 => a
             | Z.pos _ => Z.shiftl a (0 - 0 - e')
             | Z.neg _ => 0
             end).
  assert (He' : e' <= 0) by (unfold e'; lia).
  assert (P : 0 < 2 ^ (- e')) by (apply Z.pow_pos_nonneg; lia).
  assert (Hm' : m' = a * 2 ^ (- e')).
  { unfold m'. destruct (0 - 0 - e') as [ | s | s ] eqn:Es.
    - replace (- e') with 0 by lia. cbn. lia.
    - rewrite Z.shiftl_mul_pow2 by lia. f_equal. f_equal. lia.
    - lia. }
  pose proof (Z_div_mod m' b ltac:(lia)) as DM.
  destruct (Z.div_eucl m' b) as [q r]. destruct DM as [DM R].
  assert (Hq : 0 <= q <= 2 ^ (- e')) by nia.
  assert (D : Zdigits2 q <= - e' + 1).
  { apply NumFacts.Zdigits2_le; [lia | lia | ].
    rewrite Z.pow_add_r by lia. lia. }
  pose proof (NumFacts.Zdigits2_nonneg q).
  eapply NumFacts.within_weaken; [apply NumFacts.binary_round_aux_within | | ]; lia.
Qed.

Lemma true_divide_fraction a b :
  0 <= a <= b -> 0 < b ->
  exists f, Num.true_divide a b = Ok f /\ NumFacts.within false 2 0 f.
Proof.
  intros Ha Hb. pose proof (round_quotient_fraction a b Ha Hb) as W.
  unfold Num.true_divide. destruct (Z.eqb_spec b 0); [lia | ].
  destruct (Num.round_quotient a b) as [ s' | s' | | s' m e ];
    try contradiction; eexists; split; reflexivity || exact W.
Qed.

Lemma percentage_ok amount total :
  0 <= amount <= total -> 0 < total -> exists p, percentage amount total = Ok p.
Proof.
  intros Ha Ht. unfold percentage.
  destruct (true_divide_fraction amount total Ha Ht) as (share & -> & Ws).
  cbn [bind]. unfold float_mul_int.
  destruct (NumFacts.float_of_int_ok 100 7) as (f & -> & Wf); try lia.
  cbn [bind]. eexists. reflexivity.
Qed.

Lemma percentages_ok items total :
  Forall (fun kv => 0 <= snd kv <= total) items -> 0 < total -> printable total ->
  exists rows, percentages items total = Ok rows
               /\ map fst rows = items.
Proof.
  intros F Ht Pt. induction F as [ | [c a] items Ha _ IH ]; cbn [percentages].
  - exists []. split; reflexivity.
  - cbn [snd] in Ha. destruct (percentage_ok a total Ha Ht) as (p & ->).
    rewrite (format_thousands_ok a) by (unfold printable in *; lia).
    destruct IH as (rows & -> & E). cbn [bind].
    exists ((c, a, p) :: rows). split; [reflexivity | cbn; rewrite E; reflexivity].
Qed.

Lemma percentages_of_nothing items :
  items <> [] -> percentages items 0 = Raise ZeroDivisionError.
Proof. destruct items as [ | [c a] items ]; [contradiction | reflexivity]. Qed.

Lemma percentages_rows items total rows :
  percentages items total = Ok rows -> map fst rows = items.
Proof.
  revert rows. induction items as [ | [c a] items IH ]; intros rows H; cbn in H.
  - injection H as <-. reflexivity.
  - destruct (percentage a total); [ | discriminate ]. cbn [bind] in H.
    destruct (format_thousands a); [ | discriminate ]. cbn [bind] in H.
    destruct (percentages items total) as [ rest | ]; [ | discriminate ].
    injection H as <-. cbn. f_equal. apply IH. reflexivity.
Qed.

(** ** The sort *)

Definition by_amount_desc (x y : category * Z) : Prop := snd y <= snd x.

Lemma insert_by_amount_perm x l : Permutation (x :: l) (insert_by_amount x l).
Proof.
  induction l as [ | y l IH ]; cbn; [reflexivity | ].
  destruct (snd x <? snd y); [ | reflexivity ].
  rewrite perm_swap. apply perm_skip, IH.
Qed.

Lemma sorted_by_amount_perm d : Permutation d (sorted_by_amount d).
Proof.
  induction d as [ | x d IH ]; cbn; [constructor | ].
  rewrite <- insert_by_amount_perm. apply perm_skip, IH.
Qed.

Lemma insert_by_amount_sorted x l :
  StronglySorted by_amount_desc l -> StronglySorted by_amount_desc (insert_by_amount x l).
Proof.
  induction 1 as [ | y l S IH F ]; cbn.
  - repeat constructor.
  - destruct (Z.ltb_spec (snd x) (snd y)).
    + constructor; [exact IH | ].
      rewrite <- insert_by_amount_perm. constructor; [unfold by_amount_desc; lia | exact F].
    + constructor; [constructor; assumption | ].
      constructor; [unfold by_amount_desc; lia | ].
      eapply Forall_impl; [ | exact F ]. unfold by_amount_desc. intros z. lia.
Qed.

Lemma sorted_by_amount_sorted d : StronglySorted by_amount_desc (sorted_by_amount d).
Proof.
  induction d as [ | x d IH ]; cbn; [constructor | ].
  apply insert_by_amount_sorted, IH.
Qed.

Lemma sorted_split (l : dict) n :
  StronglySorted by_amount_desc l ->
  StronglySorted by_amount_desc (firstn n l)
  /\ forall x y, In x (firstn n l) -> In y (skipn n l) -> snd y <= snd x.
Proof.
  revert n. induction l as [ | z l IH ]; intros n S.
  - rewrite firstn_nil, skipn_nil. split; [constructor | intros ? ? []].
  - destruct n as [ | n ]; cbn [firstn skipn].
    + split; [constructor | intros ? ? []].
    + inversion S as [ | ? ? S' F ]; subst. destruct (IH n S') as [S1 L].
      split.
      * constructor; [exact S1 | ].
        rewrite Forall_forall in *. intros w I. apply F.
        rewrite <- (firstn_skipn n l). apply in_or_app. auto.
      * intros x y [<- | I] J; [ | apply L; assumption ].
        rewrite Forall_forall in F. apply (F y).
        rewrite <- (firstn_skipn n l). apply in_or_app. auto.
Qed.

(** ** The budgets that are stored *)

(** A budget as the page stores it: not empty, its categories in the order
    of the patterns (so distinct, five at most), no amount negative. *)
Definition well_formed (budget : dict) : Prop :=
  budget <> []
  /\ in_pattern_order (keys budget)
  /\ Forall (fun kv => 0 <= snd kv) budget.

Lemma extraction_well_formed {U : UnicodeData}
    (response_text user_input : text) (budget_data : dict) (total : Z)
    (budget_type : provenance) :
  extract_budget_from_response response_text user_input
  = Ok (Some (budget_data, total, budget_type)) ->
  well_formed budget_data.
Proof.
  intros H. apply extraction_cases in H. destruct H as (budget & _ & Hb & H).
  pose proof (parsed_above response_text) as A.
  pose proof (parsed_keys response_text) as K.
  unfold well_formed. destruct budget_type.
  - destruct H as (-> & N & _). auto using above_threshold_nonneg.
  - destruct H as (f & -> & Hn & N & Ef & Es).
    specialize (Hb total eq_refl). pose proof (sum_above _ A N) as S.
    pose proof (keys_scale_breakdown _ _ _ Es) as E. repeat split.
    + intros ->. destruct (parsed response_text); [contradiction | discriminate].
    + rewrite E. exact K.
    + eapply scale_breakdown_not_negative; [ | | exact Es ].
      * apply above_threshold_nonneg, A.
      * eapply true_divide_not_negative; [ | | exact Ef ]; lia.
  - destruct H as (-> & Hn & _ & E). specialize (Hb total eq_refl).
    pose proof (keys_estimated_breakdown _ _ E) as Ek. repeat split.
    + intros ->. discriminate.
    + rewrite Ek. unfold in_pattern_order. cbn.
      repeat (constructor; [ | repeat constructor ]). constructor.
    + eapply estimated_breakdown_not_negative; [ | exact E ]. lia.
Qed.

Lemma sorted_filter {A} (R : A -> A -> Prop) (p : A -> bool) l :
  StronglySorted R l -> StronglySorted R (filter p l).
Proof.
  induction 1 as [ | x l S IH F ]; cbn; [constructor | ].
  destruct (p x); [ | exact IH ]. constructor; [exact IH | ].
  rewrite Forall_forall in *. intros y I. apply filter_In in I. apply F, I.
Qed.

Lemma manual_budget_positive a t f v m :
  Forall (fun kv => 0 < snd kv) (manual_budget a t f v m).
Proof.
  apply Forall_forall. intros kv I. apply filter_In in I. destruct I as [_ P].
  apply Z.ltb_lt, P.
Qed.

Lemma manual_budget_keys a t f v m : in_pattern_order (keys (manual_budget a t f v m)).
Proof.
  unfold in_pattern_order, keys, manual_budget.
  assert (G : forall l : dict,
             StronglySorted (fun x y => (category_index (fst x) < category_index (fst y))%nat) l ->
             StronglySorted lt (map category_index (map fst l))).
  { induction 1 as [ | x l S IH F ]; cbn; constructor; [exact IH | ].
    rewrite !Forall_map. exact F. }
  apply G, sorted_filter. unfold manual_entries. cbn.
  repeat (constructor; [ | repeat constructor ]). constructor.
Qed.

Lemma manual_budget_well_formed a t f v m :
  manual_budget a t f v m <> [] -> well_formed (manual_budget a t f v m).
Proof.
  intros N. repeat split; [exact N | apply manual_budget_keys | ].
  eapply Forall_impl; [ | apply manual_budget_positive ]. cbn. intros kv. lia.
Qed.

Lemma sum_positive d :
  d <> [] -> Forall (fun kv : category * Z => 0 < snd kv) d -> 0 < sum (values d).
Proof.
  intros N F. destruct F as [ | [k x] d Hx F ]; [contradiction | ].
  unfold values. cbn [map snd]. rewrite sum_cons. cbn [snd] in Hx.
  assert (0 <= sum (map snd d)); [ | lia ].
  apply sum_nonneg. rewrite Forall_map. eapply Forall_impl; [ | exact F ].
  cbn. intros kv. lia.
Qed.

(** ** The sidebar card *)

Lemma firstn_sorted_incl (budget : dict) n :
  incl (firstn n (sorted_by_amount budget)) budget.
Proof.
  intros x I. apply (Permutation_in x (Permutation_sym (sorted_by_amount_perm budget))).
  rewrite <- (firstn_skipn n (sorted_by_amount budget)). apply in_or_app. auto.
Qed.

Lemma sidebar_card_of_budget st budget :
  latest_budget st = Some budget -> budget <> [] ->
  sidebar_card st
  = (_ <- format_thousands (sum (values budget)) ;;
     rows <- percentages (firstn 3 (sorted_by_amount budget)) (sum (values budget)) ;;
     Ok (Some (sum (values budget), rows))).
Proof.
  intros E N. unfold sidebar_card. rewrite E.
  destruct budget; [contradiction | reflexivity].
Qed.

Lemma power_of_limit : 0 < 10 ^ max_str_digits.
Proof. apply Z.pow_pos_nonneg; unfold max_str_digits; lia. Qed.

(** The card of a stored budget ends in an error in two cases: the amounts
    add up to nothing, and line 600 divides by zero; or their sum has more
    than 4300 digits, and line 592 cannot print it. *)
Lemma sidebar_card_well_formed st budget :
  latest_budget st = Some budget -> well_formed budget ->
  if sum (values budget) =? 0
  then sidebar_card st = Raise ZeroDivisionError
  else if sum (values budget) <? 10 ^ max_str_digits
       then exists rows,
           sidebar_card st = Ok (Some (sum (values budget), rows))
           /\ map fst rows = firstn 3 (sorted_by_amount budget)
       else sidebar_card st = Raise ValueError.
Proof.
  intros E (N & _ & F). rewrite (sidebar_card_of_budget st budget E N).
  pose proof (amounts_within_sum budget F) as W.
  pose proof power_of_limit as P10.
  assert (S0 : 0 <= sum (values budget)).
  { apply sum_nonneg. unfold values. rewrite Forall_map. exact F. }
  destruct (Z.eqb_spec (sum (values budget)) 0) as [ Z0 | NZ ].
  - rewrite Z0, format_thousands_ok by (unfold printable; lia). cbn [bind].
    rewrite percentages_of_nothing; [reflexivity | ].
    pose proof (sorted_by_amount_perm budget) as P.
    destruct (sorted_by_amount budget) as [ | x l ].
    + apply Permutation_sym, Permutation_nil in P. contradiction.
    + discriminate.
  - destruct (Z.ltb_spec (sum (values budget)) (10 ^ max_str_digits)) as [ Lt | Ge ].
    + rewrite format_thousands_ok by (unfold printable; lia). cbn [bind].
      destruct (percentages_ok (firstn 3 (sorted_by_amount budget)) (sum (values budget)))
        as (rows & -> & R); [ | lia | unfold printable; lia | ].
      * apply Forall_forall. intros x I. rewrite Forall_forall in W.
        apply W, (firstn_sorted_incl budget 3), I.
      * cbn [bind]. eauto.
    + rewrite (format_thousands_long _ Ge). reflexivity.
Qed.

(** ** The budget of a turn *)

Lemma budget_summary_well_formed budget :
  well_formed budget ->
  if sum (values budget) =? 0
  then budget_summary budget = Raise ZeroDivisionError
  else if sum (values budget) <? 10 ^ max_str_digits
       then exists details,
           budget_summary budget = Ok (sum (values budget), details)
           /\ map fst details = budget
       else budget_summary budget = Raise ValueError.
Proof.
  intros (N & _ & F). unfold budget_summary. cbv zeta.
  pose proof (amounts_within_sum budget F) as W.
  pose proof power_of_limit as P10.
  assert (S0 : 0 <= sum (values budget)).
  { apply sum_nonneg. unfold values. rewrite Forall_map. exact F. }
  destruct (Z.eqb_spec (sum (values budget)) 0) as [ Z0 | NZ ].
  - rewrite Z0, format_thousands_ok by (unfold printable; lia). cbn [bind].
    rewrite percentages_of_nothing by exact N. reflexivity.
  - destruct (Z.ltb_spec (sum (values budget)) (10 ^ max_str_digits)) as [ Lt | Ge ].
    + rewrite format_thousands_ok by (unfold printable; lia). cbn [bind].
      destruct (percentages_ok budget (sum (values budget)) W)
        as (rows & -> & R); [lia | unfold printable; lia | ].
      cbn [bind]. eauto.
    + rewrite (format_thousands_long _ Ge). reflexivity.
Qed.

Lemma figures_well_formed budget :
  well_formed budget -> sum (values budget) < 10 ^ max_str_digits ->
  exists figs, create_budget_visualization budget = Ok (Some figs).
Proof.
  intros (N & _ & F) Lt. destruct budget as [ | kv budget ]; [contradiction | ].
  unfold create_budget_visualization. cbv zeta.
  rewrite bar_texts_ok; [cbn [bind]; eauto | ].
  pose proof (amounts_within_sum _ F) as W. unfold values at 1. rewrite Forall_map.
  apply Forall_forall. intros x I. rewrite Forall_forall in W.
  specialize (W x I). cbv beta in W. unfold printable. lia.
Qed.

Section PageTheorems.
Context {U : UnicodeData}.

Lemma extraction_total_positive
    (response_text question : text) (budget_data : dict) (total : Z)
    (budget_type : provenance) :
  extract_budget_from_response response_text question
  = Ok (Some (budget_data, total, budget_type)) ->
  0 < total /\ (budget_type = specific -> total = sum (values budget_data)).
Proof.
  intros H. apply extraction_cases in H. destruct H as (budget & _ & Hb & H).
  destruct budget_type.
  - destruct H as (-> & N & ->).
    pose proof (sum_above _ (parsed_above response_text) N). split; [lia | reflexivity].
  - destruct H as (f & -> & Hn & _). specialize (Hb total eq_refl).
    split; [lia | discriminate].
  - destruct H as (-> & Hn & _). specialize (Hb total eq_refl).
    split; [lia | discriminate].
Qed.

(** X7. The card shows the three largest amounts of the stored budget, the
    largest first, or all of them when there are fewer: the rows are in
    descending order of amount, and together with the entries left out they
    are the stored budget, no entry left out being larger than one shown.
    The total printed is the sum of all the amounts. *)
Theorem sidebar_three_largest (st : session_state) (budget : dict) (total : Z)
    (rows : list (category * Z * Num.float)) :
  latest_budget st = Some budget ->
  sidebar_card st = Ok (Some (total, rows)) ->
  total = sum (values budget)
  /\ List.length rows = Nat.min 3 (List.length budget)
  /\ StronglySorted by_amount_desc (map fst rows)
  /\ exists others,
       Permutation (map fst rows ++ others) budget
       /\ forall x y, In x (map fst rows) -> In y others -> snd y <= snd x.
Proof.
  intros E H. unfold sidebar_card in H. rewrite E in H.
  destruct budget as [ | kv budget ]; [discriminate | ].
  set (b := kv :: budget) in *. cbv zeta in H.
  destruct (format_thousands (sum (values b))); [ | discriminate ].
  cbn [bind] in H.
  destruct (percentages (firstn 3 (sorted_by_amount b)) (sum (values b)))
    as [ rows' | ] eqn:P; [ | discriminate ].
  cbn [bind] in H. injection H as <- <-. apply percentages_rows in P.
  destruct (sorted_split (sorted_by_amount b) 3 (sorted_by_amount_sorted b)) as [S L].
  split; [reflexivity | ]. split.
  { rewrite <- (length_map fst), P, length_firstn.
    rewrite <- (Permutation_length (sorted_by_amount_perm b)). reflexivity. }
  split; [rewrite P; exact S | ].
  exists (skipn 3 (sorted_by_amount b)). rewrite P, firstn_skipn.
  split; [apply Permutation_sym, sorted_by_amount_perm | exact L].
Qed.

(** X8. The card of an extracted budget. Once a turn has stored what
    [extract_budget_from_response] returned, the card is drawn with the sum
    of the amounts as its total, but for two cases: when the sum is zero
    line 600 divides by zero, and when it has more than 4300 digits line 592
    cannot print it and raises [ValueError]; both outside any [try]. A
    specific result is never in the first case. *)
Theorem sidebar_after_extraction (st : session_state)
    (response_text user_input : text) (budget_data : dict) (total : Z)
    (budget_type : provenance) :
  extract_budget_from_response response_text user_input
  = Ok (Some (budget_data, total, budget_type)) ->
  latest_budget st = Some budget_data ->
  (if sum (values budget_data) =? 0
   then sidebar_card st = Raise ZeroDivisionError
   else if sum (values budget_data) <? 10 ^ max_str_digits
        then exists rows, sidebar_card st = Ok (Some (sum (values budget_data), rows))
        else sidebar_card st = Raise ValueError)
  /\ (budget_type = specific -> sum (values budget_data) <> 0).
Proof.
  intros H E. split.
  - pose proof (sidebar_card_well_formed st budget_data E
                  (extraction_well_formed _ _ _ _ _ H)) as C.
    destruct (sum (values budget_data) =? 0); [exact C | ].
    destruct (sum (values budget_data) <? 10 ^ max_str_digits); [ | exact C ].
    destruct C as (rows & C & _). eauto.
  - intros ->. destruct (extraction_total_positive _ _ _ _ _ H) as [P S].
    rewrite <- (S eq_refl). lia.
Qed.

(** X10. The budget of a turn. When the reply yields a budget, the turn
    stores it with its total and then draws the notice, the figures and the
    summary. When the stated total or the sum of the amounts has more than
    4300 digits, a number cannot be printed and the turn ends in the
    [except] of line 576 with [ValueError]. Otherwise the notice and the
    figures are drawn, and one row per category is printed in the order of
    the breakdown, unless the amounts add up to zero: then line 533 divides
    by zero and the turn ends in the [except], the budget already stored. *)
Theorem turn_with_budget (st : session_state)
    (reply user_input : text) (budget_data : dict) (total : Z)
    (budget_type : provenance) :
  extract_budget_from_response reply user_input
  = Ok (Some (budget_data, total, budget_type)) ->
  exists drawn e,
    budget_of_turn st reply user_input
    = ({| latest_budget := Some budget_data;
          budget_total := Some total;
          show_budget_input := show_budget_input st |}, drawn, e)
    /\ if (10 ^ max_str_digits <=? total)
          || (10 ^ max_str_digits <=? sum (values budget_data))
       then e = raised ValueError
       else drawn = [notice budget_type; figures budget_data]
            /\ if sum (values budget_data) =? 0
               then e = raised ZeroDivisionError
               else exists details,
                   e = completed (sum (values budget_data)) details
                   /\ map fst details = budget_data.
Proof.
  intros H. pose proof (extraction_well_formed _ _ _ _ _ H) as W.
  destruct (extraction_total_positive _ _ _ _ _ H) as [Tpos Tspec].
  pose proof (budget_summary_well_formed budget_data W) as Sm.
  pose proof (figures_well_formed budget_data W) as Fg.
  destruct W as (N & _ & F).
  unfold budget_of_turn. rewrite H.
  destruct budget_data as [ | kv budget ]; [contradiction | ].
  set (b := kv :: budget) in *.
  destruct (Z.leb_spec (10 ^ max_str_digits) total) as [ Tlong | Tshort ];
    cbn [orb].
  - (* the stated total cannot be printed *)
    destruct budget_type; cbn [format_notice].
    + specialize (Tspec eq_refl). rewrite <- Tspec in Sm.
      destruct (Z.eqb_spec total 0); [lia | ].
      destruct (Z.ltb_spec total (10 ^ max_str_digits)); [lia | ].
      destruct (create_budget_visualization b) as [ figs | e ] eqn:Ec.
      * rewrite Sm. eauto.
      * apply create_budget_visualization_raises in Ec. subst e. eauto.
    + rewrite (format_thousands_long _ Tlong). cbn [bind]. eauto.
    + rewrite (format_thousands_long _ Tlong). cbn [bind]. eauto.
  - assert (Nt : exists n, format_notice budget_type total = Ok n).
    { destruct budget_type; cbn [format_notice]; [eauto | | ];
        rewrite format_thousands_ok by (unfold printable; lia); cbn [bind]; eauto. }
    destruct Nt as (n & ->).
    destruct (Z.leb_spec (10 ^ max_str_digits) (sum (values b))) as [ Slong | Sshort ].
    + destruct (Z.eqb_spec (sum (values b)) 0); [pose proof power_of_limit; lia | ].
      destruct (Z.ltb_spec (sum (values b)) (10 ^ max_str_digits)); [lia | ].
      destruct (create_budget_visualization b) as [ figs | e ] eqn:Ec.
      * rewrite Sm. eauto.
      * apply create_budget_visualization_raises in Ec. subst e. eauto.
    + destruct (Fg Sshort) as (figs & ->).
      destruct (Z.eqb_spec (sum (values b)) 0) as [ Z0 | NZ ].
      * rewrite Sm. eauto.
      * destruct (Z.ltb_spec (sum (values b)) (10 ^ max_str_digits)); [ | lia ].
        destruct Sm as (details & -> & D). eauto 7.
Qed.

End PageTheorems.

(** A stored budget of four categories; a question that states one rupee,
    with the estimate made for it. *)
Definition four_categories : session_state :=
  {| latest_budget := Some [(accommodation, 500); (transport, 900);
                            (food, 700); (activities, 600)];
     budget_total := None;
     show_budget_input := false |}.

Definition nothing_for_one_rupee : dict :=
  [(accommodation, 0); (transport, 0); (food, 0); (activities, 0); (miscellaneous, 0)].

Lemma sidebar_three_largest_witness :
  exists rows,
    sidebar_card four_categories = Ok (Some (2700, rows))
    /\ map fst rows = [(transport, 900); (food, 700); (activities, 600)]
    /\ List.length rows = 3%nat.
Proof.
  eexists. split; [vm_compute; reflexivity | ].
  split; [reflexivity | ].
  refine (proj1 (proj2 (sidebar_three_largest four_categories _ 2700 _ eq_refl _))).
  vm_compute. reflexivity.
Defined.

Definition one_rupee_session : session_state :=
  {| latest_budget := Some nothing_for_one_rupee;
     budget_total := Some 1;
     show_budget_input := true |}.

Lemma sidebar_after_extraction_witness :
  sidebar_card one_rupee_session = Raise ZeroDivisionError.
Proof.
  refine (proj1 (sidebar_after_extraction (U := basic_latin) one_rupee_session
                   reply_without_amounts (trip_for "1")
                   nothing_for_one_rupee 1 estimated _ eq_refl)).
  vm_compute. reflexivity.
Defined.

Lemma turn_with_budget_witness :
  exists drawn e,
    budget_of_turn (U := basic_latin) fresh_session reply_without_amounts (trip_for "1")
    = (one_rupee_session, drawn, e)
    /\ drawn = [notice estimated; figures nothing_for_one_rupee]
    /\ e = raised ZeroDivisionError.
Proof.
  destruct (turn_with_budget (U := basic_latin) fresh_session reply_without_amounts
              (trip_for "1") nothing_for_one_rupee 1 estimated)
    as (drawn & e & E & H).
  - vm_compute. reflexivity.
  - exists drawn, e. split; [exact E | ].
    replace ((10 ^ max_str_digits <=? 1)
             || (10 ^ max_str_digits <=? sum (values nothing_for_one_rupee)))
      with false in H by (vm_compute; reflexivity).
    exact H.
Defined.

(** A reply that gives two amounts of 4300 digits, to a user who states no
    total: each amount is read and the breakdown is returned as it is, but
    the sum has 4301 digits; the turn stores the budget and ends in the
    [except] with [ValueError], and the card raises [ValueError] from then
    on. *)
Definition digits_at_the_limit : text := repeat (N_of_ascii "9") 4300.

Definition reply_at_the_limit : text :=
  lit "Accommodation: " ++ digits_at_the_limit ++ lit ", Food: " ++ digits_at_the_limit.

Definition largest_amount : Z := 10 ^ max_str_digits - 1.

Lemma budget_summary_long budget :
  10 ^ max_str_digits <= sum (values budget) -> budget_summary budget = Raise ValueError.
Proof.
  intros Ge. unfold budget_summary. cbv zeta. rewrite (format_thousands_long _ Ge).
  reflexivity.
Qed.

Lemma turn_over_the_limit {U : UnicodeData} st reply user_input budget_data total :
  extract_budget_from_response reply user_input
  = Ok (Some (budget_data, total, specific)) ->
  10 ^ max_str_digits <= sum (values budget_data) ->
  exists drawn,
    budget_of_turn st reply user_input
    = ({| latest_budget := Some budget_data;
          budget_total := Some total;
          show_budget_input := show_budget_input st |}, drawn, raised ValueError).
Proof.
  intros E G. destruct (extraction_well_formed _ _ _ _ _ E) as (N & _).
  unfold budget_of_turn. rewrite E.
  destruct budget_data as [ | kv budget ]; [contradiction | ].
  cbn [format_notice].
  destruct (create_budget_visualization _) as [ figs | e ] eqn:Ec.
  - rewrite (budget_summary_long _ G). eauto.
  - apply create_budget_visualization_raises in Ec. subst e. eauto.
Qed.

Lemma sum_over_the_limit :
  let budget_data := [(accommodation, largest_amount); (food, largest_amount)] in
  let stored := {| latest_budget := Some budget_data;
                   budget_total := Some (largest_amount + largest_amount);
                   show_budget_input := show_budget_input fresh_session |} in
  extract_budget_from_response (U := basic_latin) reply_at_the_limit []
  = Ok (Some (budget_data, largest_amount + largest_amount, specific))
  /\ (exists drawn,
        budget_of_turn (U := basic_latin) fresh_session reply_at_the_limit []
        = (stored, drawn, raised ValueError))
  /\ sidebar_card stored = Raise ValueError.
Proof.
  cbv zeta.
  assert (E : extract_budget_from_response (U := basic_latin) reply_at_the_limit []
              = Ok (Some ([(accommodation, largest_amount); (food, largest_amount)],
                          largest_amount + largest_amount, specific)))
    by (vm_compute; reflexivity).
  assert (G : 10 ^ max_str_digits
              <= sum (values [(accommodation, largest_amount); (food, largest_amount)])).
  { unfold values. cbn [map snd]. rewrite !sum_cons. unfold largest_amount.
    change (sum []) with 0.
    assert (10 <= 10 ^ max_str_digits); [ | lia ].
    change 10 with (10 ^ 1) at 1. apply Z.pow_le_mono_r; unfold max_str_digits; lia. }
  split; [exact E | ]. split.
  - exact (turn_over_the_limit fresh_session reply_at_the_limit [] _ _ E G).
  - unfold sidebar_card. cbn [latest_budget]. cbv zeta.
    rewrite (format_thousands_long _ G). reflexivity.
Qed.

(** * The runs of the script

    Streamlit runs app.py from top to bottom after every action of the user;
    [st.session_state] is what a run leaves to the next one. A page is that
    state, after the initialisation of lines 450-453: the messages of the
    conversation and the session of the budget. *)

Inductive role : Type := system | user | assistant.

Definition message : Type := (role * text)%type.

Record page : Type := {
  messages : list message;
  session : session_state
}.

(** What a run gets from outside: the buttons that were clicked, the text of
    the user (the chat input or a sample prompt of the sidebar, empty when
    there is none), the numbers of the form, and what [chat_with_openrouter]
    does with the request: a reply, or an exception. *)
Record run_inputs : Type := {
  clear_chat : bool;
  user_input : text;
  answer : result text;
  add_budget : bool;
  form : Z * Z * Z * Z * Z;
  generate : bool
}.

(** Lines 546-574: the form is drawn when [show_budget_input] is set; its
    numbers are the accommodation, the transport, the food, the activities
    and the miscellaneous. *)
Definition manual_input (st : session_state) (w : run_inputs) : session_state :=
  if show_budget_input st then
    if generate w then
      let '(accommodation_in, transport_in, food_in, activities_in, misc_in) := form w in
      fst (fst (generate_visualization st accommodation_in transport_in food_in
                  activities_in misc_in))
    else st
  else st.

Section Page.
Variable TRAVEL_ASSISTANT_PROMPT : text.
Context {U : UnicodeData}.

(** The page of a new session: lines 450-453; no key of the budget is set,
    and [st.session_state.get('show_budget_input', False)] is false. *)
Definition first_page : page :=
  {| messages := [(system, TRAVEL_ASSISTANT_PROMPT)];
     session := {| latest_budget := None; budget_total := None;
                   show_budget_input := false |} |}.

(** Lines 495-578, after a reply: the budget of the turn, then the button
    that offers the manual entry when no budget was found, then the form. An
    exception skips what follows it. *)
Definition chat_turn (st : session_state) (reply : text) (w : run_inputs)
    : session_state :=
  match budget_of_turn st reply (user_input w) with
  | (st', _, completed _ _) => manual_input st' w
  | (st', _, manual_offered) =>
      manual_input
        (if add_budget w
         then {| latest_budget := latest_budget st';
                 budget_total := budget_total st';
                 show_budget_input := true |}
         else st') w
  | (st', _, raised _) => st'
  end.

(** The messages passed to [chat_with_openrouter] (line 491), when the run
    calls it. *)
Definition request (p : page) (w : run_inputs) : option (list message) :=
  if clear_chat w then None
  else match user_input w with
       | [] => None
       | _ :: _ => Some (messages p ++ [(user, user_input w)])
       end.

(** One run: the button of lines 439-443 clears the conversation and starts
    the script again; otherwise a text of the user is appended, the model is
    asked, and its reply is appended and searched for a budget. *)
Definition script_run (p : page) (w : run_inputs) : page :=
  if clear_chat w then
    {| messages := [(system, TRAVEL_ASSISTANT_PROMPT)]; session := session p |}
  else
    match request p w with
    | None => p
    | Some asked =>
        match answer w with
        | Raise _ => {| messages := asked; session := session p |}
        | Ok reply =>
            {| messages := asked ++ [(assistant, reply)];
               session := chat_turn (session p) reply w |}
        end
    end.

Definition runs (ws : list run_inputs) : page := fold_left script_run ws first_page.

(** Line 616. *)
Definition total_messages (p : page) : Z := Z.of_nat (List.length (messages p)) - 1.

(** ** Conversations *)

(** The system prompt, then questions of the user, each followed by at most
    one answer. *)
Inductive conversation : list message -> Prop :=
  | conversation_start : conversation [(system, TRAVEL_ASSISTANT_PROMPT)]
  | conversation_question h q :
      conversation h -> q <> [] -> conversation (h ++ [(user, q)])
  | conversation_answer h q a :
      conversation (h ++ [(user, q)]) ->
      conversation ((h ++ [(user, q)]) ++ [(assistant, a)]).

Definition said_by (r : role) (h : list message) : nat :=
  List.length (filter (fun m => match fst m, r with
                                | system, system | user, user
                                | assistant, assistant => true
                                | _, _ => false
                                end) h).

Lemma said_by_app r h h' : said_by r (h ++ h') = (said_by r h + said_by r h')%nat.
Proof. unfold said_by. rewrite filter_app, length_app. reflexivity. Qed.

Lemma conversation_head h :
  conversation h -> exists turns, h = (system, TRAVEL_ASSISTANT_PROMPT) :: turns.
Proof.
  induction 1 as [ | h q _ (turns & ->) _ | h q a _ (turns & E) ].
  - eauto.
  - eexists. reflexivity.
  - rewrite E. eexists. reflexivity.
Qed.

(** The answers never outnumber the questions; they are as many exactly
    when the last message is not a question. *)
Lemma conversation_counts h :
  conversation h ->
  said_by system h = 1%nat
  /\ (said_by assistant h <= said_by user h)%nat
  /\ (forall h' q, h = h' ++ [(user, q)] ->
      (said_by assistant h < said_by user h)%nat).
Proof.
  induction 1 as [ | h q _ (S & L & _) _ | h q a _ (S & L & Q) ].
  - repeat split; try (cbn; lia). intros [ | m h' ] q E; [discriminate | ].
    injection E as _ E. destruct h'; discriminate.
  - rewrite !said_by_app. cbn. repeat split; try lia.
  - specialize (Q h q eq_refl). rewrite !said_by_app in *. cbn in *.
    repeat split; try lia. intros h' q' E. apply app_inj_tail in E.
    destruct E as [_ E]. discriminate.
Qed.

Lemma script_run_conversation p w :
  conversation (messages p) -> conversation (messages (script_run p w)).
Proof.
  intros C. unfold script_run, request. destruct (clear_chat w).
  - constructor.
  - destruct (user_input w) as [ | c q ] eqn:E; [exact C | ].
    assert (Q : conversation (messages p ++ [(user, c :: q)])).
    { constructor; [exact C | discriminate]. }
    destruct (answer w); cbn [messages]; [ | exact Q ].
    apply conversation_answer, Q.
Qed.

Lemma runs_from_conversation ws : forall p,
  conversation (messages p) -> conversation (messages (fold_left script_run ws p)).
Proof.
  induction ws as [ | w ws IH ]; intros p C; cbn; [exact C | ].
  apply IH, script_run_conversation, C.
Qed.

(** ** Stored budgets *)

(** What every run leaves in the session: a stored budget is well formed; a
    total is stored only with a budget, and is positive. *)
Definition session_ok (st : session_state) : Prop :=
  match latest_budget st with
  | Some budget => well_formed budget
  | None => budget_total st = None
  end
  /\ (forall total, budget_total st = Some total -> 0 < total).

(** What a turn leaves in the session: the budget of the reply with its
    total, when there is one, whatever the turn then draws. *)
Lemma budget_of_turn_session st reply question :
  fst (fst (budget_of_turn st reply question))
  = match extract_budget_from_response reply question with
    | Ok (Some (kv :: budget, total, _)) =>
        {| latest_budget := Some (kv :: budget);
           budget_total := Some total;
           show_budget_input := show_budget_input st |}
    | _ => st
    end.
Proof.
  unfold budget_of_turn.
  destruct (extract_budget_from_response reply question)
    as [ [ [ [ [ | kv budget ] total ] budget_type ] | ] | ]; try reflexivity.
  destruct (format_notice budget_type total); [ | reflexivity ].
  destruct (create_budget_visualization (kv :: budget)); [ | reflexivity ].
  destruct (budget_summary (kv :: budget)) as [ [ actual details ] | ]; reflexivity.
Qed.

Lemma budget_of_turn_ok st reply question :
  session_ok st -> session_ok (fst (fst (budget_of_turn st reply question))).
Proof.
  intros S. rewrite budget_of_turn_session.
  destruct (extract_budget_from_response reply question)
    as [ [ [ [ budget_data total ] budget_type ] | ] | ] eqn:E; try exact S.
  pose proof (extraction_well_formed _ _ _ _ _ E) as W.
  destruct (extraction_total_positive _ _ _ _ _ E) as [T _].
  destruct budget_data as [ | kv budget ]; [exact S | ].
  split; cbn; [exact W | intros total' [= <-]; exact T].
Qed.

Lemma budget_of_turn_flag st reply question :
  show_budget_input (fst (fst (budget_of_turn st reply question))) = show_budget_input st.
Proof.
  rewrite budget_of_turn_session.
  destruct (extract_budget_from_response reply question)
    as [ [ [ [ [ | kv budget ] total ] budget_type ] | ] | ]; reflexivity.
Qed.

Lemma manual_input_ok st w : session_ok st -> session_ok (manual_input st w).
Proof.
  intros S. unfold manual_input. destruct (show_budget_input st); [ | exact S ].
  destruct (generate w); [ | exact S ].
  destruct (form w) as [ [ [ [ a t ] f ] v ] m ].
  unfold generate_visualization. cbv zeta.
  destruct (manual_budget a t f v m) as [ | kv budget ] eqn:E; [exact S | ].
  cbn [fst]. split; cbn.
  - rewrite <- E. apply manual_budget_well_formed. rewrite E. discriminate.
  - apply S.
Qed.

Lemma chat_turn_ok st reply w : session_ok st -> session_ok (chat_turn st reply w).
Proof.
  intros S. unfold chat_turn.
  pose proof (budget_of_turn_ok st reply (user_input w) S) as T.
  destruct (budget_of_turn st reply (user_input w)) as [ [ st' drawn ] e ].
  cbn [fst] in T. destruct e; [apply manual_input_ok, T | | exact T].
  apply manual_input_ok. destruct (add_budget w); exact T.
Qed.

Lemma script_run_ok p w : session_ok (session p) -> session_ok (session (script_run p w)).
Proof.
  intros S. unfold script_run. destruct (clear_chat w); [exact S | ].
  destruct (request p w); [ | exact S ].
  destruct (answer w); cbn [session]; [ | exact S ].
  apply chat_turn_ok, S.
Qed.

Lemma runs_from_ok ws : forall p,
  session_ok (session p) -> session_ok (session (fold_left script_run ws p)).
Proof.
  induction ws as [ | w ws IH ]; intros p S; cbn; [exact S | ].
  apply IH, script_run_ok, S.
Qed.

(** X11. Whatever the user and the model do, the messages of a session are
    a conversation: the system prompt first and only once, then the
    questions of the user, none empty, each followed by at most one answer;
    so the answers never outnumber the questions, and the number shown as
    Messages (line 616) counts the questions and the answers. *)
Theorem messages_are_conversation (ws : list run_inputs) :
  let h := messages (runs ws) in
  conversation h
  /\ hd_error h = Some (system, TRAVEL_ASSISTANT_PROMPT)
  /\ said_by system h = 1%nat
  /\ (said_by assistant h <= said_by user h)%nat
  /\ total_messages (runs ws) = Z.of_nat (said_by user h + said_by assistant h).
Proof.
  cbv zeta. pose proof (runs_from_conversation ws first_page conversation_start) as C.
  fold (runs ws) in C. destruct (conversation_head _ C) as (turns & E).
  destruct (conversation_counts _ C) as (S & L & _).
  repeat split; try assumption; [rewrite E; reflexivity | ].
  unfold total_messages.
  assert (T : forall h : list message,
             List.length h = (said_by system h + said_by user h + said_by assistant h)%nat).
  { clear. unfold said_by. induction h as [ | [ [ | | ] c ] h IH ]; cbn in *; lia. }
  rewrite (T (messages (runs ws))), S. lia.
Qed.

(** X12. What the model is sent. In every run of a session that calls
    [chat_with_openrouter], the messages passed are a conversation that
    ends with the question just asked: the model never gets a list without
    the system prompt, nor one whose last message is an answer. *)
Theorem request_is_conversation (ws : list run_inputs) (w : run_inputs)
    (asked : list message) :
  request (runs ws) w = Some asked ->
  conversation asked
  /\ asked = messages (runs ws) ++ [(user, user_input w)]
  /\ user_input w <> []
  /\ (said_by assistant asked < said_by user asked)%nat.
Proof.
  intros H. pose proof (runs_from_conversation ws first_page conversation_start) as C.
  fold (runs ws) in C. unfold request in H.
  destruct (clear_chat w); [discriminate | ].
  destruct (user_input w) as [ | c q ] eqn:E; [discriminate | ].
  injection H as <-.
  assert (Q : conversation (messages (runs ws) ++ [(user, c :: q)])).
  { constructor; [exact C | discriminate]. }
  repeat split; [exact Q | discriminate | ].
  destruct (conversation_counts _ Q) as (_ & _ & L). eapply L. reflexivity.
Qed.

(** X13. What a session stores. After any runs, a stored budget is not
    empty, its categories are in the order of the patterns and its amounts
    are not negative; a stored total is positive and comes with a budget.
    So the card of the sidebar is left out exactly when no budget is stored,
    and it can end in two errors only: the division by a sum of zero, and
    the [ValueError] of a sum of more than 4300 digits, which line 592
    cannot print. *)
Theorem stored_budget_well_formed (ws : list run_inputs) :
  let st := session (runs ws) in
  session_ok st
  /\ match latest_budget st with
     | None => sidebar_card st = Ok None
     | Some budget =>
         if sum (values budget) =? 0
         then sidebar_card st = Raise ZeroDivisionError
         else if sum (values budget) <? 10 ^ max_str_digits
              then exists rows, sidebar_card st = Ok (Some (sum (values budget), rows))
              else sidebar_card st = Raise ValueError
     end.
Proof.
  cbv zeta.
  assert (S : session_ok (session (runs ws))).
  { apply runs_from_ok. split; [reflexivity | discriminate]. }
  split; [exact S | ].
  destruct (latest_budget (session (runs ws))) as [ budget | ] eqn:E.
  - destruct S as [W _]. rewrite E in W.
    pose proof (sidebar_card_well_formed _ budget E W) as C.
    destruct (sum (values budget) =? 0); [exact C | ].
    destruct (sum (values budget) <? 10 ^ max_str_digits); [ | exact C ].
    destruct C as (rows & C & _). eauto.
  - unfold sidebar_card. rewrite E. reflexivity.
Qed.

(** ** The manual form in a session

    Streamlit runs the script once for each action of the user, and a
    widget gives its value to that run only: [st.chat_input] returns the
    text in the run that its submission starts, and [st.button] is true in
    the run that its click starts. A sample prompt is a button of the
    sidebar whose run carries its text (lines 404-405 and 475-477). So a
    run has a text of the user or the click of one of the three other
    buttons, not both. *)
Definition one_action (w : run_inputs) : Prop :=
  user_input w = []
  \/ (clear_chat w = false /\ add_budget w = false /\ generate w = false).

(** No form is open, and every stored budget came from a reply, with its
    total. *)
Definition form_closed (st : session_state) : Prop :=
  show_budget_input st = false
  /\ forall budget, latest_budget st = Some budget ->
       exists total, budget_total st = Some total.

Lemma script_run_form_closed p w :
  one_action w -> form_closed (session p) -> form_closed (session (script_run p w)).
Proof.
  intros A C. unfold script_run, request. destruct (clear_chat w) eqn:Ec; [exact C | ].
  destruct (user_input w) as [ | c q ] eqn:Eq; [exact C | ].
  destruct A as [ A | (_ & Ea & Eg) ]; [congruence | ].
  destruct (answer w) as [ reply | ]; cbn [session]; [ | exact C ].
  unfold chat_turn. rewrite Ea, Eq.
  pose proof (budget_of_turn_session (session p) reply (c :: q)) as T.
  pose proof (budget_of_turn_flag (session p) reply (c :: q)) as Fl.
  destruct (budget_of_turn (session p) reply (c :: q)) as [ [ st' drawn ] e ].
  cbn [fst] in T, Fl.
  assert (C' : form_closed st').
  { destruct C as [C1 C2]. split; [rewrite Fl; exact C1 | ].
    rewrite T.
    destruct (extract_budget_from_response reply (c :: q))
      as [ [ [ [ [ | kv budget ] total ] budget_type ] | ] | ]; try exact C2.
    cbn. eauto. }
  assert (M : manual_input st' w = st').
  { unfold manual_input. rewrite (proj1 C'). reflexivity. }
  destruct e; rewrite ?M; exact C'.
Qed.

(** X9. The manual form in a session. Lines 542, 546 and 560, the button
    that offers the manual entry, the form and its button, are under
    [if user_input:], and the run that the click of a button starts has no
    text of the user. So in every session the flag [show_budget_input] stays
    false: the form never opens, its handler never runs, and every stored
    budget is one that a reply yielded, stored with its total. *)
Theorem manual_form_never_opens (ws : list run_inputs) :
  Forall one_action ws ->
  show_budget_input (session (runs ws)) = false
  /\ forall budget,
       latest_budget (session (runs ws)) = Some budget ->
       exists total, budget_total (session (runs ws)) = Some total.
Proof.
  intros A. unfold runs.
  assert (G : forall p, form_closed (session p) ->
                        form_closed (session (fold_left script_run ws p))).
  { induction A as [ | w ws Hw _ IH ]; intros p C; cbn [fold_left]; [exact C | ].
    apply IH, script_run_form_closed; assumption. }
  apply G. split; [reflexivity | discriminate].
Qed.

End Page.

(** A run in which the user asks a question, with what the model does. *)
Definition asks (question : text) (a : result text) : run_inputs :=
  {| clear_chat := false; user_input := question; answer := a;
     add_budget := false; form := (0, 0, 0, 0, 0); generate := false |}.

Lemma request_is_conversation_witness :
  let prompt := lit "You are a travel assistant." in
  let asked := [ (system, prompt);
                 (user, trip_for "5000"); (assistant, reply_4000_2000);
                 (user, lit "And for Hampi?") ] in
  conversation prompt asked
  /\ asked = messages (runs prompt (U := basic_latin)
                         [asks (trip_for "5000") (Ok reply_4000_2000)])
             ++ [(user, lit "And for Hampi?")]
  /\ lit "And for Hampi?" <> []
  /\ (said_by assistant asked < said_by user asked)%nat.
Proof.
  cbv zeta.
  apply (request_is_conversation (lit "You are a travel assistant.") (U := basic_latin)
           [asks (trip_for "5000") (Ok reply_4000_2000)]
           (asks (lit "And for Hampi?") (Ok reply_without_amounts))).
  vm_compute. reflexivity.
Defined.


(** The runs that the click of a button starts. *)
Definition clicks_add_budget : run_inputs :=
  {| clear_chat := false; user_input := []; answer := Ok [];
     add_budget := true; form := (0, 0, 0, 0, 0); generate := false |}.

Definition clicks_generate (numbers : Z * Z * Z * Z * Z) : run_inputs :=
  {| clear_chat := false; user_input := []; answer := Ok [];
     add_budget := false; form := numbers; generate := true |}.

Definition sample_prompt : text := lit "You are a travel assistant.".

(** A session in which the reply holds no amount and the user clicks on the
    button that offers the manual entry. *)
Definition manual_session : list run_inputs :=
  [ asks (lit "Tell me about Goa") (Ok reply_without_amounts);
    clicks_add_budget ].

(** The same, followed by the run that a click on the button of the form
    would start. *)
Definition manual_attempt : list run_inputs :=
  manual_session ++ [clicks_generate (1000, 0, 2500, 0, 0)].

Lemma manual_form_never_opens_witness :
  Forall one_action manual_attempt
  /\ show_budget_input (session (runs sample_prompt (U := basic_latin) manual_attempt))
     = false.
Proof.
  assert (A : Forall one_action manual_attempt).
  { unfold manual_attempt, manual_session, one_action. cbn [app].
    repeat (constructor; [cbn; auto | ]). constructor. }
  split; [exact A | ].
  apply (manual_form_never_opens sample_prompt (U := basic_latin) manual_attempt A).
Defined.

(** C9. The manual entry cannot be made. For a question whose reply holds no
    amount the turn offers the manual entry and stores nothing. After the
    click on the button that offers it the form is still closed and no
    budget is stored: the run that the click starts has no text of the
    user, and the button, the form and its handler (lines 542-574) are
    under [if user_input:] (line 481). So no entry of the user is ever
    taken, where the claim has the positive entries shown as a breakdown
    tagged specific. *)
Theorem manual_entry_is_never_made :
  budget_of_turn (U := basic_latin) (session (first_page sample_prompt))
    reply_without_amounts (lit "Tell me about Goa")
  = (session (first_page sample_prompt), [], manual_offered)
  /\ session (runs sample_prompt (U := basic_latin) manual_session)
     = {| latest_budget := None; budget_total := None; show_budget_input := false |}.
Proof. repeat split; vm_compute; reflexivity. Qed.

(** * Properties of the figures *)

(** ** The digits that are read *)

Section Digits.
Context {U : UnicodeData}.

(** The Unicode database on the ASCII digits: each has its decimal value
    and none is white space. *)
Definition reads_ascii_digits : Prop :=
  forall d, 0 <= d <= 9 ->
    decimal (digit_char d) = Some (Z.to_N d) /\ isspace (digit_char d) = false.

Hypothesis ascii : reads_ascii_digits.

Lemma ascii_digit_isdigit c : ascii_digit c -> isdigit c = true.
Proof.
  intros (d & Hd & ->). unfold isdigit. rewrite (proj1 (ascii d Hd)). reflexivity.
Qed.

Lemma ascii_digit_not_space c : ascii_digit c -> isspace c = false.
Proof. intros (d & Hd & ->). apply (ascii d Hd). Qed.

Lemma ascii_digit_not_comma c : ascii_digit c -> N.eqb c comma = false.
Proof.
  intros (d & Hd & ->). apply N.eqb_neq. unfold digit_char, comma. lia.
Qed.

Lemma decimal_digits_value fuel : forall n acc,
  0 <= n < 10 ^ Z.of_nat fuel ->
  digits_value 0 (decimal_digits fuel n acc) = digits_value n acc.
Proof.
  induction fuel as [ | fuel IH ]; intros n acc Hn; cbn [decimal_digits].
  - cbn in Hn. replace n with 0 by lia. reflexivity.
  - rewrite Nat2Z.inj_succ, Z.pow_succ_r in Hn by lia.
    pose proof (Z.mod_pos_bound n 10 ltac:(lia)) as M.
    pose proof (Z.div_mod n 10 ltac:(lia)) as DM.
    destruct (Z.ltb_spec n 10).
    + cbn [digits_value]. rewrite (proj1 (ascii (n mod 10) ltac:(lia))).
      rewrite Z2N.id by lia. rewrite Z.mod_small by lia.
      replace (10 * 0 + n) with n by lia. reflexivity.
    + rewrite IH.
      * cbn [digits_value]. rewrite (proj1 (ascii (n mod 10) ltac:(lia))).
        rewrite Z2N.id by lia. replace (10 * (n / 10) + n mod 10) with n by lia.
        reflexivity.
      * split; [apply Z.div_pos; lia | ].
        apply Z.div_lt_upper_bound; lia.
Qed.

(** [int(str(n)) = n] *)
Lemma str_of_nat_value n : 0 <= n -> digits_value 0 (str_of_nat n) = Ok n.
Proof.
  intros Hn. unfold str_of_nat. rewrite decimal_digits_value; [reflexivity | ].
  split; [exact Hn | ].
  rewrite Nat2Z.inj_succ, Z2Nat.id by apply Z.log2_nonneg.
  destruct (Z.eq_dec n 0) as [ -> | NZ ]; [cbn; lia | ].
  pose proof (Z.log2_spec n ltac:(lia)) as L.
  assert (2 ^ Z.succ (Z.log2 n) <= 10 ^ Z.succ (Z.log2 n)).
  { apply Z.pow_le_mono_l. lia. }
  lia.
Qed.

End Digits.

(** ** Groups of digits *)

(** What follows the first digits of a grouped number: nothing, or a comma,
    digits, and so on. *)
Inductive comma_groups : text -> Prop :=
  | no_group : comma_groups []
  | one_more_group ds t :
      ds <> [] -> Forall ascii_digit ds -> comma_groups t ->
      comma_groups (comma :: ds ++ t).

Definition grouped (w : text) : Prop :=
  exists ds t, w = ds ++ t /\ ds <> [] /\ Forall ascii_digit ds /\ comma_groups t.

Lemma grouped_digit d w : ascii_digit d -> grouped w -> grouped (d :: w).
Proof.
  intros D (ds & t & -> & N & F & G). exists (d :: ds), t.
  repeat split; [discriminate | constructor; assumption | exact G].
Qed.

Lemma grouped_comma d w : ascii_digit d -> grouped w -> grouped (d :: comma :: w).
Proof.
  intros D (ds & t & -> & N & F & G). exists [d], (comma :: ds ++ t).
  repeat split; [discriminate | constructor; [exact D | constructor] | ].
  constructor; assumption.
Qed.

Lemma group_thousands_grouped ds :
  ds <> [] -> Forall ascii_digit ds -> grouped (group_thousands ds).
Proof.
  induction ds as [ | d ds IH ]; intros N F; [contradiction | ].
  inversion F as [ | ? ? D F' ]; subst. cbn [group_thousands].
  destruct ds as [ | d' ds ].
  - exists [d], []. repeat split; [discriminate | exact F | constructor].
  - specialize (IH ltac:(discriminate) F').
    destruct (List.length (d' :: ds) mod 3 =? 0)%nat.
    + apply grouped_comma; assumption.
    + apply grouped_digit; assumption.
Qed.

Lemma ascii_digit_comma c : ascii_digit c -> N.eqb c comma = false.
Proof.
  intros (d & Hd & ->). apply N.eqb_neq. unfold digit_char, comma. lia.
Qed.

(** [format(n, ',').replace(',', '')] is [str(n)]. *)
Lemma remove_commas_group ds :
  Forall ascii_digit ds -> remove_commas (group_thousands ds) = ds.
Proof.
  induction 1 as [ | d ds D F IH ]; [reflexivity | ].
  cbn [group_thousands]. unfold remove_commas in *. cbn [filter].
  rewrite (ascii_digit_comma d D). cbn [negb].
  destruct ds as [ | d' ds ]; [reflexivity | ].
  destruct (List.length (d' :: ds) mod 3 =? 0)%nat; [ | rewrite IH; reflexivity ].
  cbn [filter]. rewrite N.eqb_refl. cbn [negb]. rewrite IH. reflexivity.
Qed.

(** ** The matcher on a grouped number *)

Section Loop.
Context {R : Type}.

(** The loop of [Star]. *)
Definition star_loop (r1 : regex) (k : text -> option text -> option R)
    : nat -> text -> option text -> option R :=
  fix loop (n : nat) (s : text) (g : option text) {struct n} : option R :=
    match n with
    | O => k s g
    | S n' =>
        match exec r1 s g (fun s1 g1 =>
                if (List.length s1 <? List.length s)%nat then loop n' s1 g1
                else None) with
        | Some x => Some x
        | None => k s g
        end
    end.

Lemma exec_Star r1 s g k : exec (Star r1) s g k = star_loop r1 k (List.length s) s g.
Proof. reflexivity. Qed.

Lemma exec_Seq r1 r2 s g (k : text -> option text -> option R) :
  exec (Seq r1 r2) s g k = exec r1 s g (fun s1 g1 => exec r2 s1 g1 k).
Proof. reflexivity. Qed.

Lemma exec_Group r1 s g (k : text -> option text -> option R) :
  exec (Group r1) s g k
  = exec r1 s g (fun s1 _ =>
      k s1 (Some (firstn (List.length s - List.length s1) s))).
Proof. reflexivity. Qed.

Context {U : UnicodeData}.
Hypothesis ascii : reads_ascii_digits.

(** A text that does not go on with a digit. *)
Definition no_digit_ahead (s : text) : Prop :=
  match s with
  | [] => True
  | c :: _ => isdigit c = false
  end.

(** A text that does not go on the number before it: neither with a digit
    nor with a comma and a digit. *)
Definition ends_amount (after : text) : Prop :=
  match after with
  | [] => True
  | c :: t => isdigit c = false /\ (c = comma -> no_digit_ahead t)
  end.

Lemma digit_fails s g (K : text -> option text -> option R) :
  no_digit_ahead s -> exec digit s g K = None.
Proof.
  destruct s as [ | c s ]; cbn; [reflexivity | ]. intros ->. reflexivity.
Qed.

Lemma star_loop_fails r1 k n s g :
  (forall K : text -> option text -> option R, exec r1 s g K = None) ->
  star_loop r1 k n s g = k s g.
Proof. intros F. destruct n; cbn; [reflexivity | ]. rewrite F. reflexivity. Qed.

(** [\d*] takes all the digits in front of it. *)
Lemma star_digits ds : forall s' n g (K : text -> option text -> option R) x,
  Forall ascii_digit ds -> no_digit_ahead s' ->
  (List.length (ds ++ s') <= n)%nat ->
  K s' g = Some x ->
  star_loop digit K n (ds ++ s') g = Some x.
Proof.
  induction ds as [ | d ds IH ]; intros s' n g K x F A L H.
  - cbn [app]. rewrite star_loop_fails; [exact H | ].
    intros K'. apply digit_fails, A.
  - inversion F as [ | ? ? D F' ]; subst.
    destruct n as [ | n ]; [cbn in L; lia | ].
    cbn [star_loop app]. unfold digit at 1. cbn [exec].
    rewrite (ascii_digit_isdigit ascii d D).
    replace (List.length (ds ++ s') <? List.length (d :: ds ++ s'))%nat with true
      by (symmetry; apply Nat.ltb_lt; cbn; lia).
    fold (star_loop digit K).
    rewrite (IH s' n g K x F' A); [reflexivity | cbn in L; lia | exact H].
Qed.

Lemma plus_digits ds s' g (K : text -> option text -> option R) x :
  ds <> [] -> Forall ascii_digit ds -> no_digit_ahead s' ->
  K s' g = Some x ->
  exec (Plus digit) (ds ++ s') g K = Some x.
Proof.
  intros N F A H. destruct ds as [ | d ds ]; [contradiction | ].
  inversion F as [ | ? ? D F' ]; subst.
  unfold Plus. cbn [exec app]. unfold digit at 1. cbn [exec].
  rewrite (ascii_digit_isdigit ascii d D).
  fold (star_loop digit K).
  apply star_digits; [exact F' | exact A | lia | exact H].
Qed.

Lemma plus_digit_fails s g (K : text -> option text -> option R) :
  no_digit_ahead s -> exec (Plus digit) s g K = None.
Proof. intros A. unfold Plus. cbn [exec]. apply (digit_fails s g _ A). Qed.

Lemma comma_group_fails after g (K : text -> option text -> option R) :
  ends_amount after -> exec (Seq (Chr comma) (Plus digit)) after g K = None.
Proof.
  intros E. destruct after as [ | c t ]; [reflexivity | ].
  destruct E as [_ E]. cbn [exec]. destruct (N.eqb_spec c comma); [ | reflexivity ].
  fold (Plus digit). apply plus_digit_fails, E. assumption.
Qed.

Lemma comma_groups_ahead t after :
  comma_groups t -> ends_amount after -> no_digit_ahead (t ++ after).
Proof.
  intros [ | ds t' _ _ _ ] E.
  - destruct after; [exact I | apply E].
  - cbn. unfold isdigit, comma. rewrite comma_not_decimal. reflexivity.
Qed.

(** [(?: , \d+ )*] takes all the groups in front of it. *)
Lemma star_groups t :
  comma_groups t ->
  forall after n g (k : text -> option text -> option R) x,
    ends_amount after ->
    (List.length (t ++ after) <= n)%nat ->
    k after g = Some x ->
    star_loop (Seq (Chr comma) (Plus digit)) k n (t ++ after) g = Some x.
Proof.
  induction 1 as [ | ds t N F G IH ]; intros after n g k x E L H.
  - cbn [app]. rewrite star_loop_fails; [exact H | ].
    intros K. apply comma_group_fails, E.
  - destruct n as [ | n ]; [cbn in L; lia | ].
    cbn [star_loop app]. cbn [exec]. rewrite N.eqb_refl.
    fold (Plus digit). fold (star_loop (Seq (Chr comma) (Plus digit)) k).
    rewrite <- app_assoc.
    rewrite (plus_digits ds (t ++ after) g _ x N F); [reflexivity | | ].
    + apply comma_groups_ahead; assumption.
    + replace (List.length (t ++ after)
               <? List.length (comma :: ds ++ t ++ after))%nat with true
        by (symmetry; apply Nat.ltb_lt; cbn; rewrite !length_app; lia).
      apply IH; [exact E | | exact H].
      cbn in L. rewrite <- app_assoc, !length_app in L. rewrite length_app. lia.
Qed.

(** The group takes a grouped number whole. *)
Lemma number_grouped w after g (k : text -> option text -> option R) x :
  grouped w -> ends_amount after ->
  k after (Some w) = Some x ->
  exec number (w ++ after) g k = Some x.
Proof.
  intros (ds & t & -> & N & F & G) E H. unfold number.
  rewrite exec_Group, exec_Seq, <- app_assoc.
  apply plus_digits; [exact N | exact F | apply comma_groups_ahead; assumption | ].
  rewrite exec_Star. apply star_groups; [exact G | exact E | lia | ].
  rewrite app_assoc.
  replace (List.length ((ds ++ t) ++ after) - List.length after)%nat
    with (List.length (ds ++ t)) by (rewrite (length_app (ds ++ t)); lia).
  rewrite firstn_app, Nat.sub_diag, firstn_all. cbn [firstn].
  rewrite app_nil_r. exact H.
Qed.

End Loop.

Section ReadBack.
Context {U : UnicodeData}.
Hypothesis ascii : reads_ascii_digits.

(** [int(f'{n:,}'.replace(',', '')) = n], for an amount that can be printed *)
Lemma int_of_printed n :
  printable n -> int_of_str (remove_commas (group_thousands (str_of_nat n))) = Ok n.
Proof.
  intros [Hn Lt]. destruct (str_of_nat_digits n Hn) as [F N].
  rewrite (remove_commas_group _ F). unfold int_of_str.
  apply (str_of_nat_length n max_str_digits Hn) in Lt; [ | unfold max_str_digits; lia ].
  destruct (str_of_nat n) as [ | c l ] eqn:S; [contradiction | ].
  destruct (Z.ltb_spec max_str_digits (Z.of_nat (List.length (c :: l))));
    [lia | ].
  rewrite <- S. apply (str_of_nat_value ascii n Hn).
Qed.

Lemma printed_grouped n : 0 <= n -> grouped (group_thousands (str_of_nat n)).
Proof.
  intros Hn. destruct (str_of_nat_digits n Hn) as [F N].
  apply group_thousands_grouped; assumption.
Qed.

Lemma match_at_rupee_grouped w after :
  grouped w -> ends_amount after ->
  match_at user_budget_pattern (rupee :: w ++ after)
  = Some {| group1 := Some w; rest := after |}.
Proof.
  intros G E. unfold match_at, user_budget_pattern, seqs.
  cbn [fold_right]. cbn [exec]. rewrite N.eqb_refl.
  fold (star_loop space
          (fun s1 g1 => exec number s1 g1
             (fun s2 g2 => Some {| group1 := g2; rest := s2 |}))).
  rewrite star_loop_fails.
  - apply (number_grouped ascii); [exact G | exact E | reflexivity].
  - intros K. destruct G as (ds & t & -> & N & F & _).
    destruct ds as [ | d ds ]; [contradiction | ].
    inversion F as [ | ? ? D _ ]; subst. cbn.
    rewrite (ascii_digit_not_space ascii d D). reflexivity.
Qed.

Lemma user_budget_printed n before after :
  printable n -> Forall (fun c => c <> rupee) before -> ends_amount after ->
  user_budget (before ++ (rupee :: group_thousands (str_of_nat n)) ++ after)
  = Ok (Some n).
Proof.
  intros P B E. unfold user_budget.
  rewrite search_user_budget_skip by exact B. cbn [app search].
  rewrite (match_at_rupee_grouped _ after (printed_grouped n (proj1 P)) E).
  unfold amount_of_match. cbn [group1]. rewrite (int_of_printed n P). reflexivity.
Qed.

End ReadBack.

(** ** The figures of a budget *)

Lemma basic_latin_reads_ascii_digits : reads_ascii_digits (U := basic_latin).
Proof.
  intros d Hd.
  assert (C : d = 0 \/ d = 1 \/ d = 2 \/ d = 3 \/ d = 4 \/ d = 5 \/ d = 6
              \/ d = 7 \/ d = 8 \/ d = 9) by lia.
  repeat (destruct C as [ -> | C ]; [split; reflexivity | ]).
  subst. split; reflexivity.
Qed.

Lemma label_inj a b : title (category_key a) = title (category_key b) -> a = b.
Proof. destruct a, b; intros H; reflexivity || (vm_compute in H; discriminate H). Qed.

Lemma NoDup_map_inj {A B} (f : A -> B) l :
  (forall a b, f a = f b -> a = b) -> NoDup l -> NoDup (map f l).
Proof.
  intros I. induction 1 as [ | x l N _ IH ]; cbn; constructor; [ | exact IH ].
  intros J. apply in_map_iff in J. destruct J as (y & E & J).
  apply I in E. subst. contradiction.
Qed.

Lemma NoDup_firstn {A} n (l : list A) : NoDup l -> NoDup (firstn n l).
Proof.
  intros N. rewrite <- (firstn_skipn n l) in N. apply NoDup_app_remove_r in N.
  exact N.
Qed.

Lemma colors_distinct : NoDup colors.
Proof.
  unfold colors.
  repeat (constructor; [cbn; intuition discriminate | ]). constructor.
Qed.

Section FigureTheorems.
Context {U : UnicodeData}.
Hypothesis ascii : reads_ascii_digits.

(** X14. What the page prints can be read back. An amount that is not
    negative and has at most 4300 digits is printed as a rupee sign and the
    number with its commas, and that text is read as the same amount by the
    pattern of the user's budget, in a text where it is the first thing
    after a rupee sign and is not followed by a digit or by a comma and a
    digit. An amount of more digits cannot be printed: [ValueError]. *)
Theorem printed_amount_read_back (amount : Z) (before after : text) :
  0 <= amount ->
  Forall (fun c => c <> rupee) before ->
  ends_amount after ->
  if amount <? 10 ^ max_str_digits
  then exists printed,
      rupees amount = Ok printed
      /\ user_budget (before ++ printed ++ after) = Ok (Some amount)
  else rupees amount = Raise ValueError.
Proof.
  intros Hn B E. destruct (Z.ltb_spec amount (10 ^ max_str_digits)) as [ Lt | Ge ].
  - exists (rupee :: group_thousands (str_of_nat amount)).
    split; [apply rupees_ok; split; assumption | ].
    apply (user_budget_printed ascii); [split | | ]; assumption.
  - unfold rupees. rewrite (format_thousands_long _ Ge). reflexivity.
Qed.

(** X15. The figures of a stored budget. For a budget as the page stores
    them whose amounts have at most 4300 digits, the figures are drawn, and
    the pie and the bars have one label, one value and one colour per
    category, no label and no colour twice: six colours are enough. Each
    text on a bar, read as the budget of a user, gives the amount of the
    bar. *)
Theorem figures_of_budget (budget_data : dict) :
  well_formed budget_data ->
  Forall (fun kv => snd kv < 10 ^ max_str_digits) budget_data ->
  exists pie_fig bar_fig,
    create_budget_visualization budget_data = Ok (Some (pie_fig, bar_fig))
    /\ pie_values pie_fig = values budget_data
    /\ bar_y bar_fig = values budget_data
    /\ pie_labels pie_fig = bar_x bar_fig
    /\ pie_colors pie_fig = bar_color bar_fig
    /\ List.length (bar_x bar_fig) = List.length budget_data
    /\ List.length (bar_color bar_fig) = List.length budget_data
    /\ NoDup (bar_x bar_fig)
    /\ NoDup (bar_color bar_fig)
    /\ map user_budget (bar_text bar_fig)
       = map (fun amount => Ok (Some amount)) (bar_y bar_fig).
Proof.
  intros (N & O & F) Short.
  assert (P : Forall printable (values budget_data)).
  { unfold values. rewrite Forall_map. apply Forall_forall. intros kv J.
    rewrite Forall_forall in F, Short. split; [apply F, J | apply Short, J]. }
  unfold create_budget_visualization.
  destruct budget_data as [ | kv budget ]; [contradiction | ].
  set (b := kv :: budget) in *. cbv zeta. rewrite (bar_texts_ok _ P). cbn [bind].
  eexists. eexists.
  split; [reflexivity | ]. cbn [pie_values pie_labels pie_colors bar_x bar_y
                                bar_color bar_text].
  pose proof (in_pattern_order_length _ O) as L.
  repeat split.
  - rewrite length_map. unfold keys. apply length_map.
  - rewrite length_firstn. unfold keys in *. rewrite length_map in *.
    cbn [colors List.length]. lia.
  - apply NoDup_map_inj; [exact label_inj | apply in_pattern_order_nodup, O].
  - apply NoDup_firstn, colors_distinct.
  - rewrite map_map. apply map_ext_in. intros amount J.
    rewrite Forall_forall in P.
    pose proof (user_budget_printed ascii amount [] [] (P _ J) (Forall_nil _) I) as H.
    cbn [app] in H. rewrite app_nil_r in H. exact H.
Qed.

(** An amount of more than 4300 digits leaves the page without figures:
    line 137 raises [ValueError]. *)
Lemma figures_of_long_amount (budget_data : dict) :
  Exists (fun kv => 10 ^ max_str_digits <= snd kv) budget_data ->
  create_budget_visualization budget_data = Raise ValueError.
Proof.
  intros X. destruct budget_data as [ | kv budget ]; [inversion X | ].
  unfold create_budget_visualization. cbv zeta.
  assert (B : bar_texts (values (kv :: budget)) = Raise ValueError).
  { unfold values. induction X as [ [c a] l Ha | [c a] l _ IH ]; cbn [map snd bar_texts].
    - cbn [snd] in Ha. unfold rupees. rewrite (format_thousands_long _ Ha). reflexivity.
    - destruct (rupees a) eqn:R; cbn [bind]; [rewrite IH; reflexivity | ].
      unfold rupees in R. destruct (format_thousands a) eqn:Fa; [discriminate | ].
      apply format_thousands_raises in Fa. subst. cbn in R. injection R as <-. reflexivity. }
  rewrite B. reflexivity.
Qed.

End FigureTheorems.

Lemma printed_amount_read_back_witness :
  rupees 1234567 = Ok (rupee :: lit "1,234,567")
  /\ user_budget (U := basic_latin)
       (lit "We have " ++ (rupee :: lit "1,234,567") ++ lit ", for four people")
     = Ok (Some 1234567).
Proof.
  pose proof (printed_amount_read_back (U := basic_latin) basic_latin_reads_ascii_digits
                1234567 (lit "We have ") (lit ", for four people")) as H.
  replace (1234567 <? 10 ^ max_str_digits) with true in H by (vm_compute; reflexivity).
  destruct H as (printed & P & R).
  - lia.
  - repeat constructor; discriminate.
  - split; [reflexivity | ]. intros _. reflexivity.
  - assert (E : printed = rupee :: lit "1,234,567").
    { vm_compute in P. injection P as <-. reflexivity. }
    subst printed. split; [reflexivity | exact R].
Defined.

Lemma figures_of_budget_witness :
  exists pie_fig bar_fig,
    create_budget_visualization [(transport, 2000); (food, 12500)]
    = Ok (Some (pie_fig, bar_fig))
    /\ bar_x bar_fig = [lit "Transport"; lit "Food"]
    /\ bar_text bar_fig = [rupee :: lit "2,000"; rupee :: lit "12,500"]
    /\ map (user_budget (U := basic_latin)) (bar_text bar_fig)
       = [Ok (Some 2000); Ok (Some 12500)].
Proof.
  destruct (figures_of_budget (U := basic_latin) basic_latin_reads_ascii_digits
              [(transport, 2000); (food, 12500)])
    as (pie_fig & bar_fig & E & _ & Y & _ & _ & _ & _ & _ & _ & T).
  - repeat split; [discriminate | | repeat constructor; cbn; lia ].
    unfold in_pattern_order. cbn. repeat constructor.
  - repeat constructor; cbn; vm_compute; reflexivity.
  - exists pie_fig, bar_fig. split; [exact E | ].
    rewrite T, Y. vm_compute in E. injection E as _ <-. repeat split.
Defined.

(** * Further properties of the card and of the parser *)

(** ** Equal amounts in the card *)

(** The order of the card: the larger amount first, and of two equal
    amounts the one whose category comes first in the dictionary. *)
Definition shown_before (x y : category * Z) : Prop :=
  snd y <= snd x
  /\ (snd x = snd y -> (category_index (fst x) < category_index (fst y))%nat).

Lemma insert_by_amount_stable x l :
  Forall (fun y => (category_index (fst x) < category_index (fst y))%nat) l ->
  StronglySorted shown_before l ->
  StronglySorted shown_before (insert_by_amount x l).
Proof.
  intros L S. induction S as [ | y l S IH F ]; cbn.
  - repeat constructor.
  - inversion L as [ | ? ? Ly Ll ]; subst.
    destruct (Z.ltb_spec (snd x) (snd y)).
    + constructor; [apply IH, Ll | ].
      rewrite <- insert_by_amount_perm. constructor; [ | exact F ].
      split; lia.
    + constructor; [constructor; assumption | ].
      constructor; [split; [lia | intros _; exact Ly] | ].
      rewrite Forall_forall in *. intros z J.
      destruct (F z J) as [A _]. split; [lia | intros _; apply Ll, J].
Qed.

Lemma sorted_by_amount_stable d :
  in_pattern_order (keys d) -> StronglySorted shown_before (sorted_by_amount d).
Proof.
  unfold in_pattern_order, keys.
  induction d as [ | x d IH ]; cbn; intros O; [constructor | ].
  inversion O as [ | ? ? O' F ]; subst.
  apply insert_by_amount_stable; [ | apply IH, O' ].
  rewrite Forall_forall in *. intros y J.
  apply (Permutation_in y (Permutation_sym (sorted_by_amount_perm d))) in J.
  apply F. apply in_map, (in_map fst), J.
Qed.

Lemma firstn_strongly_sorted {A} (R : A -> A -> Prop) n l :
  StronglySorted R l -> StronglySorted R (firstn n l).
Proof.
  revert n. induction l as [ | x l IH ]; intros n S.
  - rewrite firstn_nil. constructor.
  - destruct n as [ | n ]; cbn [firstn]; [constructor | ].
    inversion S as [ | ? ? S' F ]; subst. constructor; [apply IH, S' | ].
    rewrite Forall_forall in *. intros y J. apply F.
    rewrite <- (firstn_skipn n l). apply in_or_app. auto.
Qed.

(** X16. Equal amounts in the card. The sort of line 598 is stable also
    with [reverse=True]: of two stored categories with the same amount the
    card shows first the one that comes first in the dictionary, that is in
    the order accommodation, transport, food, activities, miscellaneous. *)
Theorem sidebar_ties_in_pattern_order (st : session_state) (budget : dict)
    (total : Z) (rows : list (category * Z * Num.float)) :
  latest_budget st = Some budget ->
  in_pattern_order (keys budget) ->
  sidebar_card st = Ok (Some (total, rows)) ->
  StronglySorted shown_before (map fst rows).
Proof.
  intros E O H. unfold sidebar_card in H. rewrite E in H.
  destruct budget as [ | kv budget ]; [discriminate | ].
  set (b := kv :: budget) in *. cbv zeta in H.
  destruct (format_thousands (sum (values b))); [ | discriminate ].
  cbn [bind] in H.
  destruct (percentages (firstn 3 (sorted_by_amount b)) (sum (values b)))
    as [ rows' | ] eqn:P; [ | discriminate ].
  cbn [bind] in H. injection H as <- <-. apply percentages_rows in P.
  rewrite P. apply firstn_strongly_sorted, sorted_by_amount_stable, O.
Qed.

Definition equal_amounts : session_state :=
  {| latest_budget := Some [(accommodation, 700); (transport, 900);
                            (food, 700); (activities, 900)];
     budget_total := None;
     show_budget_input := false |}.

Lemma sidebar_ties_in_pattern_order_witness :
  exists rows,
    sidebar_card equal_amounts = Ok (Some (3200, rows))
    /\ map fst rows = [(transport, 900); (activities, 900); (accommodation, 700)]
    /\ StronglySorted shown_before (map fst rows).
Proof.
  eexists. split; [vm_compute; reflexivity | ].
  split; [reflexivity | ].
  refine (sidebar_ties_in_pattern_order equal_amounts _ 3200 _ eq_refl _ _).
  - unfold in_pattern_order. cbn. repeat constructor.
  - vm_compute. reflexivity.
Defined.

(** ** The scan of [re.finditer] *)

(** The successive matches of a pattern in a text: each is the first match
    in what the match before it left, and the last leaves a text without a
    match. *)
Inductive successive_matches (r : regex) : text -> list match_object -> Prop :=
  | no_more_match s : search r s = None -> successive_matches r s []
  | one_more_match s m ms :
      search r s = Some m ->
      (List.length (rest m) < List.length s)%nat ->
      successive_matches r (rest m) ms ->
      successive_matches r s (m :: ms).

Section Scan.
Context {U : UnicodeData}.

(** A match of a pattern of the source is not empty. *)
Lemma match_at_shorter r t m :
  amount_pattern r -> match_at r t = Some m ->
  (List.length (rest m) < List.length t)%nat.
Proof.
  intros [W S] H. unfold match_at in H. apply exec_sound in H.
  destruct H as (p & s' & g' & -> & M & H). injection H as <-. cbn [rest].
  destruct (matches_over_digit _ _ _ _ M W) as [-> | E].
  - exfalso. eapply group_set; [exact M | exact S | reflexivity].
  - rewrite length_app. destruct p; [inversion E | cbn; lia].
Qed.

Lemma search_shorter r t m :
  amount_pattern r -> search r t = Some m ->
  (List.length (rest m) < List.length t)%nat.
Proof.
  intros A. induction t as [ | a t IH ]; cbn [search]; intros H.
  - destruct (match_at r []) eqn:E; [ | discriminate ].
    injection H as <-. apply (match_at_shorter r [] _ A E).
  - destruct (match_at r (a :: t)) eqn:E.
    + injection H as <-. apply (match_at_shorter r _ _ A E).
    + specialize (IH H). cbn. lia.
Qed.

Lemma finditer_from_successive r :
  amount_pattern r ->
  forall fuel t, (List.length t < fuel)%nat ->
    successive_matches r t (finditer_from fuel r t).
Proof.
  intros A. induction fuel as [ | fuel IH ]; intros t L; [lia | ].
  cbn [finditer_from]. destruct (search r t) as [ m | ] eqn:E.
  - pose proof (search_shorter r t m A E) as S.
    replace (List.length (rest m) <? List.length t)%nat with true
      by (symmetry; apply Nat.ltb_lt, S).
    econstructor; [exact E | exact S | apply IH; lia].
  - constructor. exact E.
Qed.

Lemma successive_matches_unique r t ms :
  successive_matches r t ms -> forall ms', successive_matches r t ms' -> ms = ms'.
Proof.
  induction 1 as [ s N | s m ms E L _ IH ]; intros ms' H'.
  - destruct H' as [ | s' m' ms' E' ]; [reflexivity | congruence].
  - destruct H' as [ s' N' | s' m' ms' E' L' H' ]; [congruence | ].
    assert (m' = m) by congruence. subst m'. f_equal. apply IH, H'.
Qed.

(** X17. The loops of lines 50-54 see every match. A match of a pattern of
    the source holds a digit, so it is never empty and the scan of
    [re.finditer] always moves on: what it yields is the list of the
    successive matches up to the end of the text, each in what the match
    before it left, whatever the length of the reply. *)
Theorem finditer_yields_successive_matches
    (c : category) (pattern_list : list regex) (pattern : regex) (lowered : text) :
  In (c, pattern_list) patterns -> In pattern pattern_list ->
  successive_matches pattern lowered (finditer pattern lowered)
  /\ (forall fuel, (List.length lowered < fuel)%nat ->
      finditer_from fuel pattern lowered = finditer pattern lowered).
Proof.
  intros I J.
  assert (A : amount_pattern pattern).
  { pose proof patterns_carry_amounts as P. rewrite Forall_forall in P.
    specialize (P _ I). cbn [snd] in P. rewrite Forall_forall in P. apply P, J. }
  assert (S : successive_matches pattern lowered (finditer pattern lowered)).
  { apply finditer_from_successive; [exact A | lia]. }
  split; [exact S | ]. intros fuel L.
  apply (successive_matches_unique pattern lowered); [ | exact S ].
  apply finditer_from_successive; assumption.
Qed.

End Scan.

Lemma finditer_yields_successive_matches_witness :
  successive_matches (keyword_then_amount (U := basic_latin) (Str "food"))
    (lit "food 700, then food: 1,200 and tea")
    [ {| group1 := Some (lit "700"); rest := lit ", then food: 1,200 and tea" |};
      {| group1 := Some (lit "1,200"); rest := lit " and tea" |} ].
Proof.
  refine (proj1 (finditer_yields_successive_matches (U := basic_latin) food _
                   (keyword_then_amount (Str "food"))
                   (lit "food 700, then food: 1,200 and tea") _ _)).
  - unfold patterns. right. right. left. reflexivity.
  - left. reflexivity.
Defined.

(** ** Where a match can start *)

(** Whether a pattern matches the empty text, and whether a match that is
    not empty can start with [c]. *)
Fixpoint nullable (r : regex) : bool :=
  match r with
  | Eps => true
  | Chr _ => false
  | Cls _ => false
  | Seq r1 r2 => nullable r1 && nullable r2
  | Alt r1 r2 => nullable r1 || nullable r2
  | Star _ => true
  | Group r1 => nullable r1
  end.

Fixpoint starts (r : regex) (c : char) : bool :=
  match r with
  | Eps => false
  | Chr x => N.eqb c x
  | Cls p => p c
  | Seq r1 r2 => starts r1 c || (nullable r1 && starts r2 c)
  | Alt r1 r2 => starts r1 c || starts r2 c
  | Star r1 => starts r1 c
  | Group r1 => starts r1 c
  end.

Section Starts.
Context {R : Type}.

(** In front of a character with which it cannot start, a pattern fails
    when it has to take something, and otherwise goes on from where it is. *)
Lemma exec_cannot_start r c s :
  starts r c = false ->
  (nullable r = false ->
   forall g (K : text -> option text -> option R), exec r (c :: s) g K = None)
  /\ (forall g (k : text -> option text -> option R),
        (forall g', k (c :: s) g' = None) -> exec r (c :: s) g k = None).
Proof.
  induction r as [ | x | p | r1 IH1 r2 IH2 | r1 IH1 r2 IH2 | r1 IH1 | r1 IH1 ];
    cbn [starts nullable]; intros S.
  - split; [discriminate | ]. intros g k F. apply F.
  - split; intros; cbn [exec]; rewrite S; reflexivity.
  - split; intros; cbn [exec]; rewrite S; reflexivity.
  - apply orb_false_iff in S. destruct S as [S1 S2].
    destruct (IH1 S1) as [A1 B1]. split.
    + intros N g K. destruct (nullable r1) eqn:N1.
      * cbn in S2, N. destruct (IH2 S2) as [A2 _].
        apply B1. intros g'. apply A2, N.
      * apply A1. reflexivity.
    + intros g k F. destruct (nullable r1) eqn:N1.
      * cbn in S2. destruct (IH2 S2) as [_ B2].
        apply B1. intros g'. apply B2, F.
      * apply A1. reflexivity.
  - apply orb_false_iff in S. destruct S as [S1 S2].
    destruct (IH1 S1) as [A1 B1]. destruct (IH2 S2) as [A2 B2]. split.
    + intros N g K. apply orb_false_iff in N. destruct N as [N1 N2].
      cbn [exec]. rewrite (A1 N1), (A2 N2). reflexivity.
    + intros g k F. cbn [exec]. rewrite (B1 g k F), (B2 g k F). reflexivity.
  - destruct (IH1 S) as [_ B1]. split; [discriminate | ].
    intros g k F. rewrite exec_Star.
    destruct (List.length (c :: s)) as [ | n ]; cbn [star_loop]; [apply F | ].
    rewrite B1; [apply F | ]. intros g'. rewrite Nat.ltb_irrefl. reflexivity.
  - destruct (IH1 S) as [A1 B1]. split.
    + intros N g K. cbn [exec]. apply A1, N.
    + intros g k F. cbn [exec]. apply B1. intros g'. apply F.
Qed.

End Starts.

Lemma match_at_cannot_start r c s :
  starts r c = false -> nullable r = false -> match_at r (c :: s) = None.
Proof.
  intros S N. unfold match_at. apply (proj1 (exec_cannot_start r c s S) N).
Qed.

(** A search passes over the characters with which no match can start. *)
Lemma search_skip r before :
  nullable r = false ->
  Forall (fun c => starts r c = false) before ->
  forall t, search r (before ++ t) = search r t.
Proof.
  intros N. induction 1 as [ | c before S _ IH ]; intros t; [reflexivity | ].
  cbn [app search]. rewrite (match_at_cannot_start r c _ S N). apply IH.
Qed.


Section Empty.
Context {R : Type}.

(** At the end of the text a pattern fails when it has to take something,
    and otherwise goes on from where it is. *)
Lemma exec_nil r :
  (nullable r = false ->
   forall g (K : text -> option text -> option R), exec r [] g K = None)
  /\ (forall g (k : text -> option text -> option R),
        (forall g', k [] g' = None) -> exec r [] g k = None).
Proof.
  induction r as [ | x | p | r1 IH1 r2 IH2 | r1 IH1 r2 IH2 | r1 IH1 | r1 IH1 ];
    cbn [nullable].
  - split; [discriminate | ]. intros g k F. apply F.
  - split; intros; reflexivity.
  - split; intros; reflexivity.
  - destruct IH1 as [A1 B1]. destruct IH2 as [A2 B2]. split.
    + intros N g K. rewrite exec_Seq. destruct (nullable r1) eqn:N1.
      * cbn in N. apply B1. intros g'. apply A2, N.
      * apply A1. reflexivity.
    + intros g k F. rewrite exec_Seq. apply B1. intros g'. apply B2, F.
  - destruct IH1 as [A1 B1]. destruct IH2 as [A2 B2]. split.
    + intros N g K. apply orb_false_iff in N. destruct N as [N1 N2].
      cbn [exec]. rewrite (A1 N1), (A2 N2). reflexivity.
    + intros g k F. cbn [exec]. rewrite (B1 g k F), (B2 g k F). reflexivity.
  - split; [discriminate | ]. intros g k F. rewrite exec_Star. apply F.
  - destruct IH1 as [A1 B1]. split.
    + intros N g K. rewrite exec_Group. apply A1, N.
    + intros g k F. rewrite exec_Group. apply B1. intros g'. apply F.
Qed.

End Empty.

(** A pattern finds nothing in a text without a character with which it
    can start. *)
Lemma search_nothing r t :
  nullable r = false ->
  Forall (fun c => starts r c = false) t ->
  search r t = None.
Proof.
  intros N F. rewrite <- (app_nil_r t), (search_skip r t N F).
  cbn [search]. unfold match_at. rewrite (proj1 (exec_nil r) N). reflexivity.
Qed.

(** ** A printed row in a reply *)

Section Literals.
Context {R : Type}.

Lemma exec_Alt r1 r2 s g (k : text -> option text -> option R) :
  exec (Alt r1 r2) s g k
  = match exec r1 s g k with
    | Some x => Some x
    | None => exec r2 s g k
    end.
Proof. reflexivity. Qed.

Lemma exec_Chr x c s g (k : text -> option text -> option R) :
  exec (Chr x) (c :: s) g k = if N.eqb c x then k s g else None.
Proof. reflexivity. Qed.

Lemma exec_Eps s g (k : text -> option text -> option R) : exec Eps s g k = k s g.
Proof. reflexivity. Qed.

(** A literal takes itself. *)
Lemma exec_Str w : forall t g (K : text -> option text -> option R),
  exec (Str w) (lit w ++ t) g K = K t g.
Proof.
  induction w as [ | a w IH ]; intros t g K; [reflexivity | ].
  cbn [Str lit app exec]. rewrite N.eqb_refl. apply IH.
Qed.

(** The star of a class takes all the characters of the class in front of
    it. *)
Lemma star_class p cs : forall s' n g (K : text -> option text -> option R) x,
  Forall (fun c => p c = true) cs ->
  match s' with [] => True | c :: _ => p c = false end ->
  (List.length (cs ++ s') <= n)%nat ->
  K s' g = Some x ->
  star_loop (Cls p) K n (cs ++ s') g = Some x.
Proof.
  induction cs as [ | c cs IH ]; intros s' n g K x F A L H.
  - cbn [app]. rewrite star_loop_fails; [exact H | ].
    intros K'. destruct s' as [ | c s' ]; cbn [exec]; [reflexivity | ].
    rewrite A. reflexivity.
  - inversion F as [ | ? ? C F' ]; subst.
    destruct n as [ | n ]; [cbn in L; lia | ].
    cbn [star_loop app exec]. rewrite C.
    replace (List.length (cs ++ s') <? List.length (c :: cs ++ s'))%nat with true
      by (symmetry; apply Nat.ltb_lt; cbn; lia).
    fold (star_loop (Cls p) K).
    rewrite (IH s' n g K x F' A); [reflexivity | cbn in L; lia | exact H].
Qed.

End Literals.

(** The keywords of the first pattern of each category. *)
Definition keyword (c : category) : regex :=
  match c with
  | accommodation => Str "accommodation"
  | transport => Seq (Str "transport") (Opt (Str "ation"))
  | food => Str "food"
  | activities => Seq (Opt (Str "sightseeing and ")) (Str "activities")
  | miscellaneous => alts (Str "miscellaneous") [Str "misc"; Str "other"]
  end.

(** The letters with which these keywords begin. *)
Definition first_letters (c : category) : text :=
  match c with
  | accommodation => lit "a"
  | transport => lit "t"
  | food => lit "f"
  | activities => lit "sa"
  | miscellaneous => lit "mo"
  end.

(** A row of a reply without a rupee sign: the name of a category, a colon,
    a space and the amount with its commas. *)
Definition row (c : category) (amount : Z) : text :=
  category_key c ++ lit ": " ++ group_thousands (str_of_nat amount).

(** Rows of one category, each with the text that follows it. *)
Definition rows_text (c : category) (rows : list (Z * text)) : text :=
  flat_map (fun r => row c (fst r) ++ snd r) rows.

Lemma rows_text_cons c r rows :
  rows_text c (r :: rows) = (row c (fst r) ++ snd r) ++ rows_text c rows.
Proof. reflexivity. Qed.

(** A text in which no pattern of the category can begin a match: it has no
    rupee sign and none of the first letters of the keywords. *)
Definition free (c : category) (t : text) : Prop :=
  Forall (fun ch => ch <> rupee /\ ~ In ch (first_letters c)) t.

(** The matches of the first pattern in rows of its category. *)
Fixpoint row_matches (c : category) (rows : list (Z * text)) : list match_object :=
  match rows with
  | [] => []
  | r :: rows' =>
      {| group1 := Some (group_thousands (str_of_nat (fst r)));
         rest := snd r ++ rows_text c rows' |} :: row_matches c rows'
  end.

Lemma keyword_taken {R : Type} c tail g (K : text -> option text -> option R) x :
  K (58%N :: tail) g = Some x ->
  exec (keyword c) (category_key c ++ 58%N :: tail) g K = Some x.
Proof.
  intros H. destruct c; unfold keyword, category_key, alts, Opt; cbn [fold_left].
  - rewrite exec_Str. exact H.
  - rewrite exec_Seq, exec_Str, exec_Alt. cbn. exact H.
  - rewrite exec_Str. exact H.
  - rewrite exec_Seq, exec_Alt.
    replace (exec (Str "sightseeing and ") (lit "activities" ++ 58%N :: tail) g
               (fun s1 g1 => exec (Str "activities") s1 g1 K)) with (@None R)
      by reflexivity.
    cbn [exec]. rewrite exec_Str. exact H.
  - rewrite !exec_Alt, exec_Str, H. reflexivity.
Qed.

Lemma maximum_ge a xs : In a xs -> exists v, maximum xs = Some v /\ a <= v.
Proof.
  destruct xs as [ | x xs ]; [intros [] | ]. cbn [maximum]. intros I.
  eexists. split; [reflexivity | ].
  assert (G : forall l y, y <= fold_left Z.max l y
                          /\ forall z, In z l -> z <= fold_left Z.max l y).
  { induction l as [ | b l IH ]; intros y; cbn [fold_left]; [split; [lia | intros ? []] | ].
    destruct (IH (Z.max y b)) as [A B]. split; [lia | ].
    intros z [<- | J]; [lia | apply B, J]. }
  destruct (G xs x) as [A B]. destruct I as [<- | I]; [exact A | apply B, I].
Qed.

(** The largest of the amounts of at least 500, said without the functions
    that compute it. *)
Lemma maximum_surviving amounts v :
  maximum (surviving amounts) = Some v
  <-> In v amounts /\ 500 <= v /\ forall x, In x amounts -> x <= v.
Proof.
  unfold surviving. split.
  - intros M. pose proof (maximum_in _ _ M) as J.
    apply filter_In in J. destruct J as [J T]. apply Z.leb_le in T.
    repeat split; [exact J | exact T | ]. intros x Jx.
    destruct (Z.le_gt_cases 500 x) as [ Hx | Hx ]; [ | lia ].
    destruct (maximum_ge x (filter (fun a => 500 <=? a) amounts)) as (v' & E & L).
    { apply filter_In. split; [exact Jx | apply Z.leb_le, Hx]. }
    rewrite M in E. injection E as <-. exact L.
  - intros (J & T & Top).
    destruct (maximum_ge v (filter (fun a => 500 <=? a) amounts)) as (v' & E & L).
    { apply filter_In. split; [exact J | apply Z.leb_le, T]. }
    rewrite E. f_equal. pose proof (maximum_in _ _ E) as J'.
    apply filter_In in J'. destruct J' as [J' _]. specialize (Top _ J'). lia.
Qed.

Lemma group_thousands_chars (P : char -> Prop) ds :
  Forall P ds -> P 44%N -> Forall P (group_thousands ds).
Proof.
  intros F Pc. induction F as [ | d ds Pd F IH ]; [constructor | ].
  cbn [group_thousands]. constructor; [exact Pd | ].
  destruct ds as [ | e ds' ]; [constructor | ].
  destruct (List.length (e :: ds') mod 3 =? 0)%nat; [constructor; [exact Pc | ] | ];
    exact IH.
Qed.

Lemma category_key_first c : exists ch t, category_key c = ch :: t /\ ch <> comma.
Proof. destruct c; eexists; eexists; (split; [reflexivity | discriminate]). Qed.

Lemma category_key_no_rupee c : Forall (fun ch => ch <> rupee) (category_key c).
Proof. destruct c; repeat constructor; discriminate. Qed.

Section Printed.
Context {U : UnicodeData}.

(** The Unicode database on what the page prints: the ASCII digits, the
    space, which is white space, and the rupee sign, which is not. *)
Definition reads_printed_amounts : Prop :=
  reads_ascii_digits /\ isspace 32%N = true /\ isspace rupee = false.

(** And on a row: moreover, no letter of the name of a category is a
    digit. *)
Definition reads_printed_rows : Prop :=
  reads_printed_amounts
  /\ forall c, Forall (fun ch => isdigit ch = false) (category_key c).

Hypothesis printed : reads_printed_amounts.

Lemma patterns_first c :
  exists more, pattern_list c = keyword_then_amount (keyword c) :: more.
Proof. destruct c; eexists; reflexivity. Qed.

(** The second pattern of every category begins with the rupee sign. *)
Lemma patterns_second c :
  exists second,
    pattern_list c = [keyword_then_amount (keyword c); second]
    /\ nullable second = false
    /\ forall ch, ch <> rupee -> starts second ch = false.
Proof.
  destruct c; eexists; (split; [reflexivity | ]); (split; [reflexivity | ]);
    intros ch N; apply N.eqb_neq in N; cbn; rewrite N; reflexivity.
Qed.

Lemma keyword_then_amount_not_nullable c :
  nullable (keyword_then_amount (keyword c)) = false.
Proof. destruct c; reflexivity. Qed.

Lemma keyword_then_amount_starts c ch :
  ~ In ch (first_letters c) -> starts (keyword_then_amount (keyword c)) ch = false.
Proof.
  intros N. destruct c; cbn in *;
    repeat match goal with
           | |- context [N.eqb ch ?k] =>
               destruct (N.eqb_spec ch k); [exfalso; subst; tauto | ]
           end; reflexivity.
Qed.

Lemma keyword_then_amount_carries c :
  amount_pattern (keyword_then_amount (keyword c)).
Proof.
  apply keyword_then_amount_pattern. destruct c; cbn; tauto.
Qed.

Lemma ascii_digit_not_sep d :
  ascii_digit d -> (N.eqb d 58 || isspace d || N.eqb d 45) = false.
Proof.
  intros D. destruct printed as (ascii & _).
  rewrite (ascii_digit_not_space ascii d D).
  destruct D as (k & Hk & ->). unfold digit_char.
  replace (48 + Z.to_N k =? 58)%N with false by (symmetry; apply N.eqb_neq; lia).
  replace (48 + Z.to_N k =? 45)%N with false by (symmetry; apply N.eqb_neq; lia).
  reflexivity.
Qed.

Lemma ascii_digit_not_rupee d : ascii_digit d -> d <> rupee.
Proof. intros (k & Hk & ->). unfold digit_char, rupee. lia. Qed.

(** The first pattern of a category on a row, with the rupee sign or
    without. *)
Lemma match_at_printed c (sign : bool) w after :
  grouped w -> ends_amount after ->
  match_at (keyword_then_amount (keyword c))
    (category_key c ++ lit ": " ++ (if sign then [rupee] else []) ++ w ++ after)
  = Some {| group1 := Some w; rest := after |}.
Proof.
  intros G E. pose proof printed as (ascii & Sp & Ru).
  assert (D : exists d w', w = d :: w' /\ ascii_digit d).
  { destruct G as (ds & t & -> & N & F & _).
    destruct ds as [ | d ds ]; [contradiction | ].
    inversion F; subst. eexists. eexists. split; [reflexivity | assumption]. }
  destruct D as (d & w' & Ew & D).
  assert (Sk : forall g (k : text -> option text -> option match_object),
             star_loop space k (List.length (w ++ after)) (w ++ after) g
             = k (w ++ after) g).
  { intros g k. apply star_loop_fails. intros K. rewrite Ew. cbn.
    rewrite (ascii_digit_not_space ascii d D). reflexivity. }
  unfold match_at, keyword_then_amount, seqs. cbn [fold_right].
  rewrite exec_Seq.
  change (lit ": " ++ (if sign then [rupee] else []) ++ w ++ after)
    with (58%N :: 32%N :: (if sign then [rupee] else []) ++ w ++ after).
  apply keyword_taken. rewrite exec_Seq, exec_Star. unfold sep.
  apply (star_class _ [58%N; 32%N] ((if sign then [rupee] else []) ++ w ++ after)).
  - constructor; [reflexivity | ]. constructor; [ | constructor ].
    rewrite Sp. reflexivity.
  - destruct sign; cbn [app].
    + rewrite Ru. reflexivity.
    + rewrite Ew. cbn [app]. apply ascii_digit_not_sep, D.
  - apply Nat.le_refl.
  - rewrite exec_Seq. unfold Opt. rewrite exec_Alt.
    assert (Amount : exec (Seq (Star space) (Seq number Eps)) (w ++ after) None
                       (fun s' g => Some {| group1 := g; rest := s' |})
                     = Some {| group1 := Some w; rest := after |}).
    { rewrite exec_Seq, exec_Star, Sk, exec_Seq.
      apply (number_grouped ascii w after _ _ _ G E). reflexivity. }
    destruct sign; cbn [app].
    + rewrite exec_Chr, N.eqb_refl, Amount. reflexivity.
    + assert (NoSign : forall K, exec (Chr rupee) (w ++ after) None K
                                 = @None match_object).
      { intros K. rewrite Ew. cbn [app]. rewrite exec_Chr.
        replace (N.eqb d rupee) with false; [reflexivity | ].
        symmetry. apply N.eqb_neq, ascii_digit_not_rupee, D. }
      rewrite NoSign, exec_Eps. exact Amount.
Qed.

(** The amount of a match on a printed amount. *)
Lemma amount_of_printed amount after :
  printable amount ->
  match_amount {| group1 := Some (group_thousands (str_of_nat amount)); rest := after |}
  = amount.
Proof.
  intros P. destruct printed as (ascii & _).
  unfold match_amount, amount_of_match. cbn [group1].
  rewrite (int_of_printed ascii amount P). reflexivity.
Qed.

(** What [rupees] returned. *)
Lemma rupees_returned amount text_of_amount :
  0 <= amount -> rupees amount = Ok text_of_amount ->
  printable amount
  /\ text_of_amount = rupee :: group_thousands (str_of_nat amount).
Proof.
  intros Hn E. destruct (Z.lt_ge_cases amount (10 ^ max_str_digits)) as [ Lt | Ge ].
  - assert (P : printable amount) by (split; assumption).
    rewrite (rupees_ok amount P) in E. injection E as <-. split; [exact P | reflexivity].
  - unfold rupees in E. rewrite (format_thousands_long amount Ge) in E. discriminate.
Qed.

(** X18. A printed row is found. When the lowered reply holds the name of a
    category, a colon, a space and an amount of at least 500 as the page
    prints amounts, with a rupee sign and commas, with no first letter of
    the keywords of the category before it and no digit after it, and the
    parser returns, then it returns the category with that amount, or with
    a larger one found later. *)
Theorem printed_row_is_found (c : category) (amount : Z)
    (response_text before text_of_amount after : text) (breakdown : dict) :
  500 <= amount ->
  rupees amount = Ok text_of_amount ->
  str_lower response_text
  = before ++ category_key c ++ lit ": " ++ text_of_amount ++ after ->
  Forall (fun ch => ~ In ch (first_letters c)) before ->
  ends_amount after ->
  response_breakdown response_text = Ok breakdown ->
  exists v,
    dict_get breakdown c = Some v
    /\ amount <= v.
Proof.
  intros Hn Pr L B E Parsed.
  destruct (rupees_returned amount text_of_amount ltac:(lia) Pr) as [P ->].
  rewrite (response_breakdown_parsed _ _ Parsed), parsed_get, L.
  destruct (patterns_first c) as (more & ->).
  set (r := keyword_then_amount (keyword c)).
  set (w := group_thousands (str_of_nat amount)).
  set (m := {| group1 := Some w; rest := after |}).
  destruct printed as (ascii & _).
  assert (G : grouped w) by (apply printed_grouped; lia).
  assert (S : search r (before ++ category_key c ++ lit ": " ++ (rupee :: w) ++ after)
              = Some m).
  { rewrite search_skip.
    - pose proof (match_at_printed c true w after G E) as M. fold r in M.
      change ((rupee :: w) ++ after) with ([rupee] ++ w ++ after).
      destruct (category_key c ++ lit ": " ++ [rupee] ++ w ++ after);
        cbn [search]; rewrite M; reflexivity.
    - apply keyword_then_amount_not_nullable.
    - eapply Forall_impl; [ | exact B ]. intros ch. apply keyword_then_amount_starts. }
  assert (I : In amount
                (surviving (amounts_found (r :: more)
                   (before ++ category_key c ++ lit ": " ++ (rupee :: w) ++ after)))).
  { unfold surviving. apply filter_In. split; [ | apply Z.leb_le, Hn ].
    unfold amounts_found. cbn [flat_map]. apply in_or_app. left.
    unfold finditer. cbn [finditer_from]. rewrite S. cbn [map]. left.
    apply amount_of_printed, P. }
  destruct (maximum_ge _ _ I) as (v & -> & V). exists v. auto.
Qed.

End Printed.

Lemma basic_latin_reads_printed_amounts : reads_printed_amounts (U := basic_latin).
Proof.
  split; [exact basic_latin_reads_ascii_digits | split; reflexivity].
Qed.

Lemma basic_latin_reads_printed_rows : reads_printed_rows (U := basic_latin).
Proof.
  split; [exact basic_latin_reads_printed_amounts | ].
  intros c. destruct c; repeat constructor.
Qed.

Lemma printed_row_is_found_witness :
  rupees 1200 = Ok (rupee :: lit "1,200")
  /\ response_breakdown (U := basic_latin)
       (lit "Trip plan - Food: " ++ (rupee :: lit "1,200") ++ lit " per day")
     = Ok [(food, 1200)]
  /\ exists v, dict_get [(food, 1200)] food = Some v /\ 1200 <= v.
Proof.
  split; [reflexivity | ]. split; [vm_compute; reflexivity | ].
  apply (printed_row_is_found (U := basic_latin) basic_latin_reads_printed_amounts
           food 1200 (lit "Trip plan - Food: " ++ (rupee :: lit "1,200") ++ lit " per day")
           (lit "trip plan - ") (rupee :: lit "1,200") (lit " per day")).
  - lia.
  - reflexivity.
  - vm_compute. reflexivity.
  - repeat constructor; cbn; intuition discriminate.
  - split; [reflexivity | intros H; discriminate H].
  - vm_compute. reflexivity.
Defined.

(** ** The largest amount of a category *)

Section Rows.
Context {U : UnicodeData}.
Hypothesis printed : reads_printed_rows.

Lemma ends_amount_app gap more :
  ends_amount gap ->
  match more with [] => True | ch :: _ => isdigit ch = false /\ ch <> comma end ->
  ends_amount (gap ++ more).
Proof.
  intros E M. destruct gap as [ | x gap ]; cbn [app].
  - destruct more as [ | ch more ]; [exact I | ]. destruct M as [D N].
    split; [exact D | intros ->; contradiction].
  - destruct E as [D C]. split; [exact D | ]. intros X. specialize (C X).
    destruct gap as [ | y gap ]; cbn [app]; [ | exact C ].
    destruct more as [ | ch more ]; [exact I | apply M].
Qed.

Lemma rows_text_begins c rows :
  match rows_text c rows with
  | [] => True
  | ch :: _ => isdigit ch = false /\ ch <> comma
  end.
Proof.
  destruct rows as [ | r rows ]; [exact I | ].
  unfold rows_text. cbn [flat_map]. unfold row.
  destruct (category_key_first c) as (ch & t & E & N).
  pose proof (proj2 printed c) as F. rewrite E in *. cbn [app].
  inversion F; subst. split; assumption.
Qed.

Lemma rows_text_no_rupee c rows :
  Forall (fun r => 0 <= fst r /\ free c (snd r)) rows ->
  Forall (fun ch => ch <> rupee) (rows_text c rows).
Proof.
  induction 1 as [ | r rows [Hn Fr] _ IH ]; [constructor | ].
  rewrite rows_text_cons. unfold row.
  repeat (apply Forall_app; split).
  - apply category_key_no_rupee.
  - repeat constructor; discriminate.
  - apply group_thousands_chars; [ | discriminate ].
    eapply Forall_impl; [ | apply (str_of_nat_digits (fst r) Hn) ].
    intros d. apply ascii_digit_not_rupee.
  - eapply Forall_impl; [ | exact Fr ]. intros ch [N _]. exact N.
  - exact IH.
Qed.

(** The first pattern finds the rows one after the other, and nothing
    else. *)
Lemma rows_successive c rows :
  Forall (fun r => 0 <= fst r /\ free c (snd r) /\ ends_amount (snd r)) rows ->
  forall before, free c before ->
    successive_matches (keyword_then_amount (keyword c))
      (before ++ rows_text c rows) (row_matches c rows).
Proof.
  pose proof (proj1 printed) as amounts.
  set (r1 := keyword_then_amount (keyword c)).
  assert (Skip : forall before t, free c before -> search r1 (before ++ t) = search r1 t).
  { intros before t B. apply search_skip.
    - apply keyword_then_amount_not_nullable.
    - eapply Forall_impl; [ | exact B ]. intros ch [_ N].
      apply keyword_then_amount_starts, N. }
  induction 1 as [ | r rows (Hn & Fr & E) _ IH ]; intros before B.
  - constructor. unfold rows_text. cbn [flat_map]. rewrite (Skip before [] B).
    cbn [search]. unfold match_at.
    rewrite (proj1 (exec_nil r1) (keyword_then_amount_not_nullable c)). reflexivity.
  - cbn [row_matches]. rewrite rows_text_cons.
    set (w := group_thousands (str_of_nat (fst r))).
    set (after := snd r ++ rows_text c rows).
    assert (T : (row c (fst r) ++ snd r) ++ rows_text c rows
                = category_key c ++ lit ": " ++ [] ++ w ++ after).
    { unfold row, after. fold w. cbn [app]. rewrite <- !app_assoc. reflexivity. }
    rewrite T.
    assert (G : grouped w).
    { apply printed_grouped, Hn. }
    assert (A : ends_amount after).
    { apply ends_amount_app; [exact E | apply rows_text_begins]. }
    pose proof (match_at_printed amounts c false w after G A) as M. fold r1 in M.
    econstructor.
    + rewrite (Skip before _ B).
      destruct (category_key c ++ lit ": " ++ [] ++ w ++ after);
        cbn [search]; rewrite M; reflexivity.
    + cbn [rest]. destruct (category_key_first c) as (ch & t & -> & _).
      rewrite !length_app. cbn [List.length]. lia.
    + cbn [rest]. apply IH, Fr.
Qed.

Lemma finditer_successive r s ms :
  amount_pattern r -> successive_matches r s ms -> finditer r s = ms.
Proof.
  intros A S. apply (successive_matches_unique r s); [ | exact S ].
  apply finditer_from_successive; [exact A | lia].
Qed.

Lemma row_matches_amounts c rows :
  Forall (fun r => printable (fst r)) rows ->
  map match_amount (row_matches c rows) = map fst rows.
Proof.
  induction 1 as [ | r rows P _ IH ]; [reflexivity | ].
  cbn [row_matches map]. rewrite IH.
  rewrite (amount_of_printed (proj1 printed) (fst r) _ P). reflexivity.
Qed.

(** C8. The largest amount of a category wins. When the parser returns,
    what it holds for a category is the largest of the amounts of at least
    500 that the matches of the patterns of the category yield: it holds an
    amount exactly when that amount was found, is at least 500 and none
    found is larger; for two matches with amounts [a] and [b] of at least
    500 it holds [max a b]. The amounts found are pinned down on replies
    made of rows of the category: after lowering, the name of the category,
    a colon, a space and an amount of at most 4300 digits with its commas,
    each followed by a text that has no rupee sign and no first letter of
    the keywords of the category and does not go on the number; there the
    amounts found are the amounts of the rows, in their order. *)
Theorem largest_amount_wins (response_text : text) (c : category)
    (breakdown : dict) :
  response_breakdown response_text = Ok breakdown ->
  (forall v,
     dict_get breakdown c = Some v
     <-> In v (amounts_found (pattern_list c) (str_lower response_text))
         /\ 500 <= v
         /\ forall x,
              In x (amounts_found (pattern_list c) (str_lower response_text)) ->
              x <= v)
  /\ (forall a b,
        amounts_found (pattern_list c) (str_lower response_text) = [a; b] ->
        500 <= a -> 500 <= b ->
        dict_get breakdown c = Some (Z.max a b))
  /\ (forall before rows,
        str_lower response_text = before ++ rows_text c rows ->
        free c before ->
        Forall (fun r => printable (fst r) /\ free c (snd r) /\ ends_amount (snd r))
          rows ->
        amounts_found (pattern_list c) (str_lower response_text) = map fst rows).
Proof.
  intros Parsed.
  assert (G : dict_get breakdown c
              = maximum (surviving
                  (amounts_found (pattern_list c) (str_lower response_text)))).
  { rewrite (response_breakdown_parsed _ _ Parsed). apply parsed_get. }
  split; [ | split ].
  - intros v. rewrite G. apply maximum_surviving.
  - intros a b E Ha Hb. rewrite G, E. unfold surviving. cbn [filter].
    replace (500 <=? a) with true by (symmetry; apply Z.leb_le, Ha).
    replace (500 <=? b) with true by (symmetry; apply Z.leb_le, Hb).
    reflexivity.
  - intros before rows L B F. rewrite L.
    destruct (patterns_second c) as (second & -> & N & St).
    unfold amounts_found. cbn [flat_map].
    assert (F1 : Forall (fun r => 0 <= fst r /\ free c (snd r) /\ ends_amount (snd r)) rows).
    { eapply Forall_impl; [ | exact F ]. intros r ([Hn _] & Fr & E). auto. }
    assert (F2 : Forall (fun r => 0 <= fst r /\ free c (snd r)) rows).
    { eapply Forall_impl; [ | exact F ]. intros r ([Hn _] & Fr & _). auto. }
    assert (F3 : Forall (fun r => printable (fst r)) rows).
    { eapply Forall_impl; [ | exact F ]. intros r (P & _). exact P. }
    rewrite (finditer_successive _ _ _ (keyword_then_amount_carries c)
               (rows_successive c rows F1 before B)).
    assert (No : search second (before ++ rows_text c rows) = None).
    { apply search_nothing; [exact N | ].
      apply Forall_app. split.
      - eapply Forall_impl; [ | exact B ]. intros ch [R _]. apply St, R.
      - eapply Forall_impl; [ | apply (rows_text_no_rupee c rows F2) ].
        intros ch R. apply St, R. }
    unfold finditer. cbn [finditer_from]. rewrite No. cbn [map].
    rewrite !app_nil_r. apply row_matches_amounts, F3.
Qed.

End Rows.

Definition reply_with_two_rows : text := lit "Food: 700, then Food: 1,200 per day".

Lemma largest_amount_wins_witness :
  response_breakdown (U := basic_latin) reply_with_two_rows = Ok [(food, 1200)]
  /\ amounts_found (U := basic_latin) (pattern_list (U := basic_latin) food)
       (str_lower (UnicodeData := basic_latin) reply_with_two_rows)
     = [700; 1200]
  /\ dict_get [(food, 1200)] food = Some (Z.max 700 1200).
Proof.
  assert (Parsed : response_breakdown (U := basic_latin) reply_with_two_rows
                   = Ok [(food, 1200)]) by (vm_compute; reflexivity).
  destruct (largest_amount_wins (U := basic_latin) basic_latin_reads_printed_rows
              reply_with_two_rows food [(food, 1200)] Parsed)
    as (_ & Two & Rows).
  assert (Found : amounts_found (U := basic_latin) (pattern_list (U := basic_latin) food)
                    (str_lower (UnicodeData := basic_latin) reply_with_two_rows)
                  = [700; 1200]).
  { apply (Rows [] [(700, lit ", then "); (1200, lit " per day")]).
    - vm_compute. reflexivity.
    - constructor.
    - repeat constructor; cbn; try (vm_compute; reflexivity);
        try discriminate; intuition discriminate. }
  split; [exact Parsed | ]. split; [exact Found | ].
  apply (Two 700 1200 Found); lia.
Defined.
